(** * SkipList.hpp: a shallow embedding and its verification

    The container of [shindler::ics46::project2] is a skip list made of
    heap-allocated nodes with four links each ([next], [previous], [up],
    [down]).  The embedding keeps the pointer structure: a heap is a finite
    map from addresses to nodes, [nullptr] is [None], [new] takes the next
    free address, [delete] removes the address, and dereferencing a null or
    dangling pointer is the result [Crash].  C++ exceptions are the result
    [Throw]; loops take fuel and give [Timeout] when it runs out.

    The key type [K] is [unsigned int], the parameter type of the integer
    overload of [flipCoin]; it is modelled as [N], compared with [N.ltb] and
    [N.eqb], and [K{}] is [0].  The value type [V] is a parameter.  The
    template at [K = int] differs in the comparison [<] alone; the loops of
    [insert] that use it are given for that key type too ([insert_int]).

    The [size_t] counters are natural numbers: they never exceed the number
    of live nodes, so they cannot wrap on a real machine, and
    [SkipListLayers - 1] and [SkipListSize--] are never evaluated at [0]
    (see [SL_Inv]). *)

From stdpp Require Import base option list sorting gmap.
From Stdlib Require Import NArith Ascii Lia.
From Stdlib Require String.

#[local] Set Warnings "-clear-no-such-hyp".

Local Open Scope N_scope.

(** ** The promotion function *)

Inductive IntegerByteOffsets := Byte0 | Byte1 | Byte2 | Byte3.

Definition byteOffset (b : IntegerByteOffsets) : N :=
  match b with Byte0 => 24 | Byte1 => 16 | Byte2 => 8 | Byte3 => 0 end.

(** Conversions to [uint32_t] and to [uint8_t] / [std::byte]. *)
Definition to_uint32 (n : N) : N := n mod 2 ^ 32.
Definition to_uint8 (n : N) : N := n mod 2 ^ 8.

Definition flipCoinByteSelector (key : N) (byte : IntegerByteOffsets) : N :=
  let BYTE_SELECTOR := 255 in
  let byteAsInteger := byteOffset byte in
  to_uint8
    (N.shiftr (N.land key (to_uint32 (N.shiftl BYTE_SELECTOR byteAsInteger)))
              byteAsInteger).

Definition NUMBER_OF_BITS_IN_BYTE : nat := 8.

(** [static_cast<uint8_t>(1 << (previousFlips % NUMBER_OF_BITS_IN_BYTE))] *)
Definition bitToSelect (previousFlips : nat) : N :=
  to_uint8 (N.shiftl 1 (N.of_nat (previousFlips mod NUMBER_OF_BITS_IN_BYTE))).

(** The hash of the integer overload: the XOR of the four bytes. *)
Definition intHash (key : N) : N :=
  let key := to_uint32 key in
  let firstByte := flipCoinByteSelector key Byte0 in
  let secondByte := flipCoinByteSelector key Byte1 in
  let thirdByte := flipCoinByteSelector key Byte2 in
  let fourthByte := flipCoinByteSelector key Byte3 in
  N.lxor (N.lxor (N.lxor firstByte secondByte) thirdByte) fourthByte.

Definition flipCoin (key : N) (previousFlips : nat) : bool :=
  let hash := intHash key in
  negb (N.land hash (bitToSelect previousFlips) =? 0).

Arguments flipCoin key previousFlips : simpl never.

(** The hash of the string overload: [hash ^= static_cast<std::byte>(c)]
    for each character, starting from [std::byte{}]. *)
Definition stringBytes (key : String.string) : list N :=
  List.map N_of_ascii (String.list_ascii_of_string key).

Definition xorFold (bytes : list N) : N :=
  List.fold_left (fun hash c => N.lxor hash (to_uint8 c)) bytes 0.

Definition stringHash (key : String.string) : N := xorFold (stringBytes key).

Definition flipCoinString (key : String.string) (previousFlips : nat) : bool :=
  let hash := stringHash key in
  negb (N.land hash (bitToSelect previousFlips) =? 0).

(** The XOR fold with any start, over any kind of character. *)
Definition xorWith {A : Type} (f : A -> N) (l : list A) (a : N) : N :=
  List.fold_left (fun hash c => N.lxor hash (f c)) l a.

(** ** Results of running the code *)

Inductive exn := OutOfRange | RuntimeError.

Inductive result (A : Type) : Type :=
  | Ok (a : A)
  | Throw (e : exn)
  | Crash
  | Timeout.
Arguments Ok {A} a.
Arguments Throw {A} e.
Arguments Crash {A}.
Arguments Timeout {A}.

Definition rbind {A B : Type} (m : result A) (f : A -> result B) : result B :=
  match m with
  | Ok a => f a
  | Throw e => Throw e
  | Crash => Crash
  | Timeout => Timeout
  end.

Declare Scope result_scope.
Delimit Scope result_scope with result.
Notation "'do' x <- m ; k" := (rbind m (fun x => k))
  (at level 10, x name, m at level 100, k at level 200,
   format "'[v' 'do'  x  <-  m ; '/' k ']'") : result_scope.
Local Open Scope result_scope.

(** ** Nodes, the heap and the container *)

Abbreviation addr := nat.
Definition ptr := option addr.

Definition is_null (p : ptr) : bool :=
  match p with None => true | Some _ => false end.

Definition ptr_eqb (p q : ptr) : bool :=
  match p, q with
  | None, None => true
  | Some a, Some b => Nat.eqb a b
  | _, _ => false
  end.

Section Container.

Context {V : Type}.
(** [V{}], the value stored in the sentinels. *)
Variable vdefault : V.

(** [K{}] for [unsigned int]. *)
Definition kdefault : N := 0.

Record Node := mkNode {
  key : N;
  value : V;
  next : ptr;
  up : ptr;
  down : ptr;
  previous : ptr;
}.

(** [Node(K k, V v)]: all four links start as [nullptr]. *)
Definition newNode (k : N) (v : V) : Node := mkNode k v None None None None.

Definition set_next (n : Node) (p : ptr) : Node :=
  mkNode (key n) (value n) p (up n) (down n) (previous n).
Definition set_up (n : Node) (p : ptr) : Node :=
  mkNode (key n) (value n) (next n) p (down n) (previous n).
Definition set_down (n : Node) (p : ptr) : Node :=
  mkNode (key n) (value n) (next n) (up n) p (previous n).
Definition set_previous (n : Node) (p : ptr) : Node :=
  mkNode (key n) (value n) (next n) (up n) (down n) p.

Record SkipList := mkSkipList {
  heap : gmap nat Node;
  brk : nat;                (* the next address [new] returns *)
  SkipListSize : nat;
  SkipListLayers : nat;
  front : ptr;
  back : ptr;
  topFront : ptr;
  topBack : ptr;
}.

(** [*p]: null and dangling pointers crash. *)
Definition load (h : gmap nat Node) (p : ptr) : result Node :=
  match p with
  | None => Crash
  | Some a => match h !! a with Some n => Ok n | None => Crash end
  end.

(** [p->field = q] *)
Definition store (f : Node -> ptr -> Node) (h : gmap nat Node) (p q : ptr)
  : result (gmap nat Node) :=
  match p with
  | None => Crash
  | Some a =>
      match h !! a with
      | Some n => Ok (<[a := f n q]> h)
      | None => Crash
      end
  end.

(** [new Node(k, v)] *)
Definition alloc (s : SkipList) (k : N) (v : V) : addr * SkipList :=
  (brk s,
   mkSkipList (<[brk s := newNode k v]> (heap s)) (S (brk s))
     (SkipListSize s) (SkipListLayers s)
     (front s) (back s) (topFront s) (topBack s)).

Definition with_heap (s : SkipList) (h : gmap nat Node) : SkipList :=
  mkSkipList h (brk s) (SkipListSize s) (SkipListLayers s)
    (front s) (back s) (topFront s) (topBack s).

(** *** The constructor *)

Definition SkipList_new : SkipList :=
  let f := 0%nat in let b := 1%nat in let tf := 2%nat in let tb := 3%nat in
  let nf := mkNode kdefault vdefault (Some b) (Some tf) None None in
  let nb := mkNode kdefault vdefault None (Some tb) None (Some f) in
  let ntf := mkNode kdefault vdefault (Some tb) None (Some f) None in
  let ntb := mkNode kdefault vdefault None None (Some b) (Some tf) in
  mkSkipList (<[tb := ntb]> (<[tf := ntf]> (<[b := nb]> (<[f := nf]> ∅))))
    4 0 2 (Some f) (Some b) (Some tf) (Some tb).

Definition size (s : SkipList) : nat := SkipListSize s.
Definition empty (s : SkipList) : bool := Nat.eqb (SkipListSize s) 0.
Definition layers (s : SkipList) : nat := SkipListLayers s.

(** *** findNode *)

(** The first loop of [findNode] and of [insert]: the descent to layer 0. *)
Fixpoint descend (fuel : nat) (h : gmap nat Node) (k : N) (tmp : ptr)
  : result ptr :=
  match fuel with
  | O => Timeout
  | S fuel =>
      do n <- load h tmp;
      if is_null (down n) then Ok tmp
      else
        do nx <- load h (next n);
        if negb (is_null (next nx)) && (key nx <? k)
        then descend fuel h k (next n)
        else descend fuel h k (down n)
  end.

(** The second loop of [findNode]; leaving it is the [throw]. *)
Fixpoint scan (fuel : nat) (h : gmap nat Node) (k : N) (tmp : ptr)
  : result ptr :=
  match fuel with
  | O => Timeout
  | S fuel =>
      do n <- load h tmp;
      do nx <- load h (next n);
      if is_null (next nx) then Throw OutOfRange
      else if key nx =? k then Ok (next n)
      else scan fuel h k (next n)
  end.

Definition findNode (fuel : nat) (k : N) (s : SkipList) : result ptr :=
  do tmp <- descend fuel (heap s) k (topFront s);
  scan fuel (heap s) k tmp.

Definition find (fuel : nat) (k : N) (s : SkipList) : result V :=
  do p <- findNode fuel k s;
  do n <- load (heap s) p;
  Ok (value n).

(** *** height, nextKey, previousKey *)

Fixpoint climb (fuel : nat) (h : gmap nat Node) (layers : nat) (tmp : ptr)
  : result nat :=
  match fuel with
  | O => Timeout
  | S fuel =>
      do n <- load h tmp;
      if is_null (up n) then Ok layers
      else climb fuel h (S layers) (up n)
  end.

Definition height (fuel : nat) (k : N) (s : SkipList) : result nat :=
  do tmp <- findNode fuel k s;
  climb fuel (heap s) 1 tmp.

Definition nextKey (fuel : nat) (k : N) (s : SkipList) : result N :=
  do tmp <- findNode fuel k s;
  do n <- load (heap s) tmp;
  do nx <- load (heap s) (next n);
  if is_null (next nx) then Throw RuntimeError
  else Ok (key nx).

Definition previousKey (fuel : nat) (k : N) (s : SkipList) : result N :=
  do tmp <- findNode fuel k s;
  do n <- load (heap s) tmp;
  do np <- load (heap s) (previous n);
  if is_null (previous np) then Throw RuntimeError
  else Ok (key np).

(** *** allKeysInOrder, isSmallestKey, isLargestKey *)

Fixpoint collect (fuel : nat) (h : gmap nat Node) (bk tmp : ptr)
    (keys : list N) : result (list N) :=
  match fuel with
  | O => Timeout
  | S fuel =>
      if ptr_eqb tmp bk then Ok keys
      else
        do n <- load h tmp;
        collect fuel h bk (next n) (keys ++ [key n])
  end.

Definition allKeysInOrder (fuel : nat) (s : SkipList) : result (list N) :=
  do f <- load (heap s) (front s);
  collect fuel (heap s) (back s) (next f) [].

Definition isSmallestKey (fuel : nat) (k : N) (s : SkipList) : result bool :=
  do _ <- findNode fuel k s;
  do f <- load (heap s) (front s);
  do n <- load (heap s) (next f);
  Ok (key n =? k).

Definition isLargestKey (fuel : nat) (k : N) (s : SkipList) : result bool :=
  do _ <- findNode fuel k s;
  do b <- load (heap s) (back s);
  do n <- load (heap s) (previous b);
  Ok (key n =? k).

(** *** insert *)

(** The second loop of [insert]; [None] is its [return false]. *)
Fixpoint insert_scan (fuel : nat) (h : gmap nat Node) (k : N) (tmp : ptr)
  : result (option ptr) :=
  match fuel with
  | O => Timeout
  | S fuel =>
      do n <- load h tmp;
      do nx <- load h (next n);
      if negb (is_null (next nx)) && (key nx <? k)
      then if key n =? k then Ok None
           else insert_scan fuel h k (next n)
      else Ok (Some tmp)
  end.

(** The new spare layer above the current top. *)
Definition grow (s : SkipList) : result SkipList :=
  let '(newTop, s) := alloc s kdefault vdefault in
  let '(newTopBack, s) := alloc s kdefault vdefault in
  let h := heap s in
  do h <- store set_down h (Some newTop) (topFront s);
  do h <- store set_down h (Some newTopBack) (topBack s);
  do h <- store set_next h (Some newTop) (Some newTopBack);
  do h <- store set_previous h (Some newTopBack) (Some newTop);
  do h <- store set_up h (topFront s) (Some newTop);
  do h <- store set_up h (topBack s) (Some newTopBack);
  Ok (mkSkipList h (brk s) (SkipListSize s) (S (SkipListLayers s))
        (front s) (back s) (Some newTop) (Some newTopBack)).

(** [while (randTmp->up == nullptr) randTmp = randTmp->previous;] *)
Fixpoint walk_back (fuel : nat) (h : gmap nat Node) (randTmp : ptr)
  : result ptr :=
  match fuel with
  | O => Timeout
  | S fuel =>
      do n <- load h randTmp;
      if is_null (up n) then walk_back fuel h (previous n)
      else Ok randTmp
  end.

(** The two tests that end the promotion loop with [break].
    [ceil(log2(SkipListSize))] is computed in [double]; it agrees with
    [Nat.log2_up] for every size below [2^48]. *)
Definition cap_reached (s : SkipList) : bool :=
  ((SkipListSize s <=? 16)%nat && (SkipListLayers s =? 13)%nat)
  || ((16 <? SkipListSize s)%nat
      && (SkipListLayers s =? 3 * Nat.log2_up (SkipListSize s) + 1)%nat).

(** The body of the promotion loop after the layer has been grown and up
    to the cap tests: the node of the next layer is made and linked in.  The
    result is the new state with the new [randTmp] and [randTmp2]. *)
Definition link_up (wfuel : nat) (k : N) (v : V) (s : SkipList)
    (randTmp randTmp2 : ptr) : result (SkipList * ptr * ptr) :=
  do randTmp <- walk_back wfuel (heap s) randTmp;
  let '(newLayer, s) := alloc s k v in
  do n <- load (heap s) randTmp;
  let randTmp := up n in
  let h := heap s in
  do h <- store set_previous h (Some newLayer) randTmp;
  do h <- store set_down h (Some newLayer) randTmp2;
  do n <- load h randTmp;
  do h <- store set_next h (Some newLayer) (next n);
  do h <- store set_up h randTmp2 (Some newLayer);
  do n <- load h randTmp;
  do h <- store set_previous h (next n) (Some newLayer);
  do h <- store set_next h randTmp (Some newLayer);
  Ok (with_heap s h, randTmp, Some newLayer).

Fixpoint promote (fuel wfuel : nat) (k : N) (v : V) (s : SkipList)
    (numberOfFlips : nat) (randTmp randTmp2 : ptr) (layers : nat)
  : result SkipList :=
  match fuel with
  | O => Timeout
  | S fuel =>
      if flipCoin k numberOfFlips then
        do s <- (if (layers =? SkipListLayers s - 1)%nat then grow s
                 else Ok s);
        do r <- link_up wfuel k v s randTmp randTmp2;
        let '(s, randTmp, randTmp2) := r in
        if cap_reached s then Ok s
        else promote fuel wfuel k v s (S numberOfFlips) randTmp randTmp2
               (S layers)
      else Ok s
  end.

(** The new base node, linked in after [tmp]; the key count grows. *)
Definition link_base (k : N) (v : V) (s : SkipList) (tmp : ptr)
  : result SkipList :=
  let '(newNode, s) := alloc s k v in
  let h := heap s in
  do h <- store set_previous h (Some newNode) tmp;
  do n <- load h tmp;
  do h <- store set_next h (Some newNode) (next n);
  do n <- load h tmp;
  do h <- store set_previous h (next n) (Some newNode);
  do h <- store set_next h tmp (Some newNode);
  Ok (mkSkipList h (brk s) (S (SkipListSize s)) (SkipListLayers s)
        (front s) (back s) (topFront s) (topBack s)).

Definition insert (fuel : nat) (k : N) (v : V) (s : SkipList)
  : result (bool * SkipList) :=
  do tmp <- descend fuel (heap s) k (topFront s);
  do r <- insert_scan fuel (heap s) k tmp;
  match r with
  | None => Ok (false, s)
  | Some tmp =>
      do s <- link_base k v s tmp;
      do n <- load (heap s) tmp;
      do s <- promote fuel fuel k v s 0 tmp (next n) 1;
      Ok (true, s)
  end.

(** *** erase *)

Fixpoint unlink (fuel : nat) (h : gmap nat Node) (tmp : ptr)
  : result (gmap nat Node) :=
  match fuel with
  | O => Timeout
  | S fuel =>
      match tmp with
      | None => Ok h
      | Some a =>
          do n <- load h tmp;
          let tmpPrevious := previous n in
          let tmpNext := next n in
          do h <- store set_next h tmpPrevious tmpNext;
          do h <- store set_previous h tmpNext tmpPrevious;
          do n <- load h tmp;
          unlink fuel (delete a h) (up n)
      end
  end.

Definition erase (fuel : nat) (k : N) (s : SkipList) : result SkipList :=
  do tmp <- findNode fuel k s;
  do h <- unlink fuel (heap s) tmp;
  Ok (mkSkipList h (brk s) (SkipListSize s - 1) (SkipListLayers s)
        (front s) (back s) (topFront s) (topBack s)).

(** *** printSkipList

    The output is modelled as the list of the lines written before the
    closing line of dashes, each line as the list of the keys written on
    it. *)

Fixpoint print_row (fuel : nat) (h : gmap nat Node) (tmp : ptr)
  : result (list N) :=
  match fuel with
  | O => Timeout
  | S fuel =>
      match tmp with
      | None => Ok []
      | Some _ =>
          do n <- load h tmp;
          do line <- print_row fuel h (next n);
          Ok (key n :: line)
      end
  end.

Fixpoint print_rows (fuel rfuel : nat) (h : gmap nat Node) (current : ptr)
  : result (list (list N)) :=
  match fuel with
  | O => Timeout
  | S fuel =>
      match current with
      | None => Ok []
      | Some _ =>
          do line <- print_row rfuel h current;
          do n <- load h current;
          do lines <- print_rows fuel rfuel h (down n);
          Ok (line :: lines)
      end
  end.

Definition printSkipList (fuel : nat) (s : SkipList)
  : result (list (list N)) :=
  print_rows fuel fuel (heap s) (topFront s).

(** *** The destructor *)

(** The inner loop: [temp = current; current = current->next; delete temp;] *)
Fixpoint delete_row (fuel : nat) (h : gmap nat Node) (current : ptr)
  : result (gmap nat Node) :=
  match fuel with
  | O => Timeout
  | S fuel =>
      match current with
      | None => Ok h
      | Some temp =>
          do n <- load h current;
          delete_row fuel (delete temp h) (next n)
      end
  end.

Fixpoint delete_rows (fuel rfuel : nat) (h : gmap nat Node) (current : ptr)
  : result (gmap nat Node) :=
  match fuel with
  | O => Timeout
  | S fuel =>
      match current with
      | None => Ok h
      | Some _ =>
          do n <- load h current;
          let nextLayer := down n in
          do h <- delete_row rfuel h current;
          delete_rows fuel rfuel h nextLayer
      end
  end.

Definition SkipList_delete (fuel : nat) (s : SkipList) : result SkipList :=
  do h <- delete_rows fuel fuel (heap s) (topFront s);
  Ok (mkSkipList h (brk s) (SkipListSize s) (SkipListLayers s)
        None None None None).

End Container.

Arguments load {V} h p : simpl never.
Arguments link_base {V} k v s tmp : simpl never.
Arguments grow {V} vdefault s : simpl never.
Arguments link_up {V} wfuel k v s randTmp randTmp2 : simpl never.
Arguments cap_reached {V} s : simpl never.
Arguments store {V} f h p q : simpl never.

(** ** The template at [K = int]

    An [int] key is held as its 32-bit two's complement pattern, a number
    below [2^32]: that is the value the conversion to [unsigned int] gives at
    the call of [flipCoin], [K{}] is the pattern [0], [==] is the equality
    of the patterns, and [<] is the signed comparison.  The nodes, the links
    and every step that does not compare keys with [<] are those of the
    unsigned instance. *)

Definition int_of_pattern (n : N) : Z :=
  if n <? 2 ^ 31 then Z.of_N n else (Z.of_N n - 2 ^ 32)%Z.

Definition pattern_of_int (z : Z) : N := Z.to_N (z mod 2 ^ 32).

Arguments pattern_of_int z%_Z.

(** [a < b] on [int]. *)
Definition int_ltb (a b : N) : bool :=
  (int_of_pattern a <? int_of_pattern b)%Z.

Section IntKeys.

Context {V : Type}.
Variable vdefault : V.

(** The first loop of [insert]. *)
Fixpoint descend_int (fuel : nat) (h : gmap nat (@Node V)) (k : N) (tmp : ptr)
  : result ptr :=
  match fuel with
  | O => Timeout
  | S fuel =>
      do n <- load h tmp;
      if is_null (down n) then Ok tmp
      else
        do nx <- load h (next n);
        if negb (is_null (next nx)) && int_ltb (key nx) k
        then descend_int fuel h k (next n)
        else descend_int fuel h k (down n)
  end.

(** The second loop of [insert], with its [return false]. *)
Fixpoint insert_scan_int (fuel : nat) (h : gmap nat (@Node V)) (k : N)
    (tmp : ptr) : result (option ptr) :=
  match fuel with
  | O => Timeout
  | S fuel =>
      do n <- load h tmp;
      do nx <- load h (next n);
      if negb (is_null (next nx)) && int_ltb (key nx) k
      then if key n =? k then Ok None
           else insert_scan_int fuel h k (next n)
      else Ok (Some tmp)
  end.

Definition insert_int (fuel : nat) (k : N) (v : V) (s : @SkipList V)
  : result (bool * @SkipList V) :=
  do tmp <- descend_int fuel (heap s) k (topFront s);
  do r <- insert_scan_int fuel (heap s) k tmp;
  match r with
  | None => Ok (false, s)
  | Some tmp =>
      do s <- link_base k v s tmp;
      do n <- load (heap s) tmp;
      do s <- promote vdefault fuel fuel k v s 0 tmp (next n) 1;
      Ok (true, s)
  end.

End IntKeys.

(** ** The shape behind a heap

    A container state is described by its columns, left to right: the front
    sentinels, one tower per stored key, the back sentinels.  A column lists
    its nodes from layer 0 upwards.  Layer [i] is made of the [i]-th node of
    every column that is tall enough. *)

Section Representation.

Context {V : Type}.
Variable vdefault : V.

Record column := mkColumn {
  ckey : N;
  cval : V;
  cnodes : list addr;
}.

Definition hd_ptr (l : list addr) (q : ptr) : ptr :=
  match l with [] => q | a :: _ => Some a end.

Definition last_ptr (p : ptr) (l : list addr) : ptr :=
  match last l with Some a => Some a | None => p end.

(** [seg bw fw h p l q]: the nodes [l] are chained in [h], forwards through
    the field [fw] and backwards through [bw]; the first one points back to
    [p] and the last one forward to [q]. *)
Fixpoint seg (bw fw : @Node V -> ptr) (h : gmap nat (@Node V))
    (p : ptr) (l : list addr) (q : ptr) : Prop :=
  match l with
  | [] => True
  | a :: l' =>
      (exists n, h !! a = Some n /\ bw n = p /\ fw n = hd_ptr l' q)
      /\ seg bw fw h (Some a) l' q
  end.

Definition payload (h : gmap nat (@Node V)) (c : column) : Prop :=
  forall a, a ∈ cnodes c ->
    exists n, h !! a = Some n /\ key n = ckey c /\ value n = cval c.

Definition vchain (h : gmap nat (@Node V)) (c : column) : Prop :=
  seg down up h None (cnodes c) None /\ payload h c.

Definition layer (i : nat) (cols : list column) : list addr :=
  omap (fun c => cnodes c !! i) cols.

Definition hchain (h : gmap nat (@Node V)) (cols : list column) (i : nat)
  : Prop :=
  seg previous next h None (layer i cols) None.

Definition sentinel (l : list addr) : column := mkColumn kdefault vdefault l.

Definition columns (fc bc : list addr) (ts : list column) : list column :=
  sentinel fc :: ts ++ [sentinel bc].

Definition addrs (cols : list column) : list addr :=
  concat (map cnodes cols).

Definition keys_of (ts : list column) : list N := map ckey ts.

Definition ascending (ks : list N) : Prop := StronglySorted N.le ks.

Record SL_Inv (s : @SkipList V) (fc bc : list addr) (ts : list column)
  : Prop := {
  inv_layers : (2 <= SkipListLayers s)%nat;
  inv_fc : length fc = SkipListLayers s;
  inv_bc : length bc = SkipListLayers s;
  inv_heights :
    Forall (fun c => (1 <= length (cnodes c) < SkipListLayers s)%nat) ts;
  inv_nodup : NoDup (addrs (columns fc bc ts));
  inv_brk : Forall (fun a => (a < brk s)%nat) (addrs (columns fc bc ts));
  inv_v : Forall (vchain (heap s)) (columns fc bc ts);
  inv_h : forall i, (i < SkipListLayers s)%nat ->
            hchain (heap s) (columns fc bc ts) i;
  inv_front : front s = head fc;
  inv_back : back s = head bc;
  inv_topFront : topFront s = last fc;
  inv_topBack : topBack s = last bc;
  inv_sorted : ascending (keys_of ts);
  inv_size : SkipListSize s = length ts;
}.

Definition well_formed (s : @SkipList V) : Prop :=
  exists fc bc ts, SL_Inv s fc bc ts.

(** The layer cap of the promotion loop for a container of [n] keys. *)
Definition layer_cap (n : nat) : nat :=
  if (n <=? 16)%nat then 13%nat else (3 * Nat.log2_up n + 1)%nat.

(** The keys of a container, as [allKeysInOrder] reports them; every loop
    but the promotion loop visits each live node at most once, so [brk s]
    is fuel enough. *)
Definition stored_keys (s : @SkipList V) : list N :=
  match allKeysInOrder (brk s) s with
  | Ok ks => ks
  | _ => []
  end.

Definition contains (s : @SkipList V) (k : N) : Prop := k ∈ stored_keys s.

(** States reached from a new container by calls that returned. *)
Inductive reachable : @SkipList V -> Prop :=
  | reach_new : reachable (SkipList_new vdefault)
  | reach_insert fuel k v s b s' :
      reachable s -> insert vdefault fuel k v s = Ok (b, s') -> reachable s'
  | reach_erase fuel k s s' :
      reachable s -> erase fuel k s = Ok s' -> reachable s'.

(** [inserted kvs s]: the calls [insert(k, v)] for [kvs], in order, on a new
    container all returned and left the state [s]. *)
Inductive inserted : list (N * V) -> @SkipList V -> Prop :=
  | inserted_nil : inserted [] (SkipList_new vdefault)
  | inserted_snoc fuel kvs k v s b s' :
      inserted kvs s -> insert vdefault fuel k v s = Ok (b, s') ->
      inserted (kvs ++ [(k, v)]) s'.

(** The fields [bw] and [fw] of the node at [a] are the same in [h'] as in
    [h]. *)
Definition agree (bw fw : @Node V -> ptr) (h h' : gmap nat (@Node V))
    (a : addr) : Prop :=
  forall n, h !! a = Some n ->
    exists n', h' !! a = Some n' /\ bw n' = bw n /\ fw n' = fw n.

(** The node at [a] has the same key, value and vertical links in [h'] as
    in [h]. *)
Definition vagree (h h' : gmap nat (@Node V)) (a : addr) : Prop :=
  forall n, h !! a = Some n ->
    exists n', h' !! a = Some n' /\ key n' = key n /\ value n' = value n
      /\ down n' = down n /\ up n' = up n.

Definition hagree (h h' : gmap nat (@Node V)) (a : addr) : Prop :=
  agree previous next h h' a.

(** The promotion loop can still stop at the cap: the layer count is at most
    the cap, and where it equals the cap the tower of height [j] is not about
    to reach the top layer. *)
Definition capped (s : @SkipList V) (j : nat) : Prop :=
  (SkipListLayers s <= layer_cap (SkipListSize s))%nat
  /\ (SkipListLayers s = layer_cap (SkipListSize s) -> (S j < SkipListLayers s)%nat).

(** A call of one of the two operations that change the container. *)
Inductive op : Type :=
  | Insert (k : N) (v : V)
  | Erase (k : N).

(** Running calls one after the other, stopping at the first that does not
    return. *)
Fixpoint run (fuel : nat) (ops : list op) (s : @SkipList V)
  : result (@SkipList V) :=
  match ops with
  | [] => Ok s
  | Insert k v :: ops =>
      do r <- insert vdefault fuel k v s;
      run fuel ops (snd r)
  | Erase k :: ops =>
      do s <- erase fuel k s;
      run fuel ops s
  end.

End Representation.

Arguments layer {V} i cols : simpl never.

(** Equations between lists built with [++] and [::]. *)
Ltac list_eq :=
  repeat (rewrite <- app_assoc || (progress simpl)); try done.

(** The keys of the columns that reach layer [i], in order: the keys of
    the nodes of that layer. *)
Definition row_keys {V : Type} (i : nat) (cols : list (@column V)) : list N :=
  omap (fun c => (fun _ => ckey c) <$> cnodes c !! i) cols.

(** Every live node of the heap is a node of the structure. *)
Definition no_garbage {V : Type} (h : gmap nat (@Node V))
    (cols : list (@column V)) : Prop :=
  forall a, is_Some (h !! a) -> a ∈ addrs cols.

(** The destructor on its way down: the layers from [i] up are deleted,
    every other node is as in [s]. *)
Definition rows_gone {V : Type} (s : @SkipList V) (cols : list (@column V))
    (i : nat) (h : gmap nat (@Node V)) : Prop :=
  (forall x j, (i <= j)%nat -> x ∈ layer j cols -> h !! x = None)
  /\ (forall x, (forall j, (i <= j)%nat -> x ∉ layer j cols) ->
        h !! x = heap s !! x).

(** The number of nodes allocated and not deleted. *)
Definition live_nodes {V : Type} (s : @SkipList V) : nat :=
  base.size (heap s).

(** The promotion loop of [insert] as a function of its counters alone: for
    a container of [size] keys and [L] layers, with [flips] flips done, the
    height the new tower reaches and the layer count at the end.  The test
    [L =? layer_cap size] is the pair of cap tests of the loop, see
    [cap_reached]. *)
Fixpoint promotion_loop (fuel : nat) (k : N) (size L flips : nat)
  : option (nat * nat) :=
  match fuel with
  | O => None
  | S fuel =>
      if flipCoin k flips then
        let L := if (S flips =? L - 1)%nat then S L else L in
        if (L =? layer_cap size)%nat then Some (S (S flips), L)
        else promotion_loop fuel k size L (S flips)
      else Some (S flips, L)
  end.

(** The value of the first tower with key [k]. *)
Fixpoint first_value {V : Type} (k : N) (ts : list (@column V)) : option V :=
  match ts with
  | [] => None
  | c :: ts => if ckey c =? k then Some (cval c) else first_value k ts
  end.

(** ** Concrete runs

    Containers of [unsigned int] values, for the scenario of the
    specification and for the inputs on which the code is evaluated. *)

(** The state a sequence of calls leaves on a new container. *)
Definition state_after (ops : list (@op N)) : @SkipList N :=
  match run 0 200 ops (SkipList_new 0) with
  | Ok s => s
  | _ => SkipList_new 0
  end.

Definition scenario_ops : list (@op N) :=
  [Insert 0 100; Insert 5 105; Insert 3 103; Insert 9 109; Insert 1 101].

(** The key 5 inserted once, and twice. *)
Definition five_ops : list (@op N) := [Insert 5 10].
Definition five_twice_ops : list (@op N) := [Insert 5 10; Insert 5 20].

(** Sixteen keys, then a key whose hash is [0xFF], which is then erased. *)
Definition tall_ops : list (@op N) :=
  List.map (fun k => Insert k k)
    [1; 2; 3; 4; 5; 6; 7; 8; 9; 10; 11; 12; 13; 14; 15; 16; 255]
  ++ [Erase 255].

(** After one more erase the layer count is above the cap for one key
    more. *)
Definition above_cap_ops : list (@op N) := tall_ops ++ [Erase 16].

Definition scenario_erase_ops : list (@op N) := scenario_ops ++ [Erase 3].

(** A container of [int] keys after [insert(-5, 1)]. *)
Definition minus_five_state : @SkipList N :=
  match insert_int 0 200 (pattern_of_int (-5)) 1 (SkipList_new 0) with
  | Ok (_, s) => s
  | _ => SkipList_new 0
  end.

(** ** Chains of nodes *)

Section Chains.

Context {V : Type}.
Implicit Types (h : gmap nat (@Node V)) (p q : ptr) (l : list addr).

Lemma load_Some h a n : h !! a = Some n -> load h (Some a) = Ok n.
Proof. intros H. unfold load. by rewrite H. Qed.

Lemma store_Some f h a n q :
  h !! a = Some n -> store f h (Some a) q = Ok (<[a := f n q]> h).
Proof. intros H. unfold store. by rewrite H. Qed.

Lemma hd_ptr_app l1 l2 q : hd_ptr (l1 ++ l2) q = hd_ptr l1 (hd_ptr l2 q).
Proof. destruct l1; reflexivity. Qed.

Lemma last_ptr_cons p a l : last_ptr p (a :: l) = last_ptr (Some a) l.
Proof.
  unfold last_ptr. destruct l as [|b l]; [done|].
  rewrite last_cons_cons. destruct (last (b :: l)) eqn:E; [done|].
  by apply last_None in E.
Qed.

Lemma last_ptr_snoc p l a : last_ptr p (l ++ [a]) = Some a.
Proof. unfold last_ptr. by rewrite last_snoc. Qed.

Lemma last_ptr_nil p : last_ptr p [] = p.
Proof. done. Qed.

Lemma seg_app bw fw h p l1 l2 q :
  seg bw fw h p (l1 ++ l2) q <->
  seg bw fw h p l1 (hd_ptr l2 q) /\ seg bw fw h (last_ptr p l1) l2 q.
Proof.
  revert p. induction l1 as [|a l1 IH]; intros p.
  - simpl. rewrite last_ptr_nil. tauto.
  - simpl. rewrite last_ptr_cons, hd_ptr_app, IH. tauto.
Qed.

Lemma seg_frame bw fw h h' p l q :
  (forall a, a ∈ l -> agree bw fw h h' a) ->
  seg bw fw h p l q -> seg bw fw h' p l q.
Proof.
  revert p. induction l as [|a l IH]; intros p Hag; [done|].
  simpl. intros [(n & Hn & Hb & Hf) Hs]. split.
  - destruct (Hag a (list_elem_of_here _ _) n Hn) as (n' & Hn' & Hb' & Hf').
    exists n'. by rewrite Hb', Hf'.
  - apply IH; [|done]. intros b Hb1. apply Hag. by apply list_elem_of_further.
Qed.

Lemma seg_lookup bw fw h p l q i a :
  seg bw fw h p l q -> l !! i = Some a ->
  exists n, h !! a = Some n
    /\ bw n = match i with O => p | S j => l !! j end
    /\ fw n = match l !! S i with Some b => Some b | None => q end.
Proof.
  revert p i. induction l as [|b l IH]; intros p i; [done|].
  simpl. intros [(n & Hn & Hb & Hf) Hs] Hi. destruct i as [|i].
  - simplify_eq/=. exists n. split_and!; [done..|]. by destruct l.
  - simpl in Hi. destruct (IH _ _ Hs Hi) as (m & Hm & Hbm & Hfm).
    exists m. split_and!; [done| |done].
    rewrite Hbm. by destruct i.
Qed.

Lemma seg_alive bw fw h p l q a :
  seg bw fw h p l q -> a ∈ l -> is_Some (h !! a).
Proof.
  intros Hs [i Hi]%list_elem_of_lookup.
  destruct (seg_lookup _ _ _ _ _ _ _ _ Hs Hi) as (n & Hn & _). eauto.
Qed.

(** The links of the node in the middle of a chain. *)
Lemma seg_middle bw fw h p l1 a l2 q :
  seg bw fw h p (l1 ++ a :: l2) q ->
  exists n, h !! a = Some n /\ bw n = last_ptr p l1 /\ fw n = hd_ptr l2 q.
Proof.
  rewrite seg_app. simpl. intros (_ & (n & Hn & Hb & Hf) & _). eauto.
Qed.

(** Linking a new node [a] between the neighbours [x] and [y]. *)
Lemma seg_insert bw fw h h' p l1 x a y l2 q :
  seg bw fw h p (l1 ++ x :: y :: l2) q ->
  (forall b, b ∈ l1 ++ l2 -> agree bw fw h h' b) ->
  (forall n, h !! x = Some n ->
     exists n', h' !! x = Some n' /\ bw n' = bw n /\ fw n' = Some a) ->
  (forall n, h !! y = Some n ->
     exists n', h' !! y = Some n' /\ bw n' = Some a /\ fw n' = fw n) ->
  (exists n, h' !! a = Some n /\ bw n = Some x /\ fw n = Some y) ->
  seg bw fw h' p (l1 ++ x :: a :: y :: l2) q.
Proof.
  intros Hs Hag Hx Hy Ha.
  apply seg_app in Hs as [Hs1 Hs2]. simpl in Hs1, Hs2.
  destruct Hs2 as [(nx & Hnx & Hbx & Hfx) [(ny & Hny & Hby & Hfy) Hs3]].
  apply seg_app. simpl. split_and!.
  - eapply seg_frame; [|done]. intros b Hb. apply Hag.
    rewrite elem_of_app. auto.
  - destruct (Hx _ Hnx) as (n' & ? & ? & ?). exists n'. repeat split; congruence.
  - done.
  - destruct (Hy _ Hny) as (n' & ? & ? & ?). exists n'. repeat split; congruence.
  - eapply seg_frame; [|done]. intros b Hb. apply Hag.
    rewrite elem_of_app. auto.
Qed.

(** Unlinking the node [a] from between [x] and [y]. *)
Lemma seg_remove bw fw h h' p l1 x a y l2 q :
  seg bw fw h p (l1 ++ x :: a :: y :: l2) q ->
  (forall b, b ∈ l1 ++ l2 -> agree bw fw h h' b) ->
  (forall n, h !! x = Some n ->
     exists n', h' !! x = Some n' /\ bw n' = bw n /\ fw n' = Some y) ->
  (forall n, h !! y = Some n ->
     exists n', h' !! y = Some n' /\ bw n' = Some x /\ fw n' = fw n) ->
  seg bw fw h' p (l1 ++ x :: y :: l2) q.
Proof.
  intros Hs Hag Hx Hy.
  apply seg_app in Hs as [Hs1 Hs2]. simpl in Hs1, Hs2.
  destruct Hs2 as [(nx & Hnx & Hbx & Hfx) [_ [(ny & Hny & Hby & Hfy) Hs3]]].
  apply seg_app. simpl. split_and!.
  - eapply seg_frame; [|done]. intros b Hb. apply Hag.
    rewrite elem_of_app. auto.
  - destruct (Hx _ Hnx) as (n' & ? & ? & ?). exists n'. repeat split; congruence.
  - destruct (Hy _ Hny) as (n' & ? & ? & ?). exists n'. repeat split; congruence.
  - eapply seg_frame; [|done]. intros b Hb. apply Hag.
    rewrite elem_of_app. auto.
Qed.

(** Putting a new node [a] after the last node [t] of a chain. *)
Lemma seg_snoc bw fw h h' p l t a :
  seg bw fw h p (l ++ [t]) None ->
  (forall b, b ∈ l -> agree bw fw h h' b) ->
  (forall n, h !! t = Some n ->
     exists n', h' !! t = Some n' /\ bw n' = bw n /\ fw n' = Some a) ->
  (exists n, h' !! a = Some n /\ bw n = Some t /\ fw n = None) ->
  seg bw fw h' p (l ++ [t; a]) None.
Proof.
  intros Hs Hag Ht Ha.
  apply seg_app in Hs as [Hs1 Hs2]. simpl in Hs1, Hs2.
  destruct Hs2 as [(nt & Hnt & Hbt & Hft) _].
  apply seg_app. simpl. split_and!; [|  |done..].
  - eapply seg_frame; [|done]. done.
  - destruct (Ht _ Hnt) as (n' & ? & ? & ?). exists n'. repeat split; congruence.
Qed.

End Chains.

(** ** Columns and layers *)

Section Layers.

Context {V : Type}.
Implicit Types (c : @column V) (A B cols : list (@column V)).

Lemma layer_app i A B : layer i (A ++ B) = layer i A ++ layer i B.
Proof. apply omap_app. Qed.

Lemma layer_cons i c A :
  layer i (c :: A) =
  match cnodes c !! i with Some a => a :: layer i A | None => layer i A end.
Proof. reflexivity. Qed.

Lemma layer_nil i : layer i ([] : list (@column V)) = [].
Proof. reflexivity. Qed.

Lemma layer_one i c :
  layer i [c] = match cnodes c !! i with Some a => [a] | None => [] end.
Proof. reflexivity. Qed.

Lemma addrs_app A B : addrs (A ++ B) = addrs A ++ addrs B.
Proof. unfold addrs. by rewrite map_app, concat_app. Qed.

Lemma addrs_cons c A : addrs (c :: A) = cnodes c ++ addrs A.
Proof. reflexivity. Qed.

Lemma elem_of_layer i cols a :
  a ∈ layer i cols <-> exists c, c ∈ cols /\ cnodes c !! i = Some a.
Proof. apply list_elem_of_omap. Qed.

Lemma elem_of_addrs cols a :
  a ∈ addrs cols <-> exists c, c ∈ cols /\ a ∈ cnodes c.
Proof.
  induction cols as [|c cols IH].
  - split; [by intros ?%elem_of_nil|]. by intros (c & ?%elem_of_nil & _).
  - rewrite addrs_cons, elem_of_app, IH. split.
    + intros [H|(c' & H1 & H2)].
      * exists c. split; [apply list_elem_of_here|done].
      * exists c'. split; [by apply list_elem_of_further|done].
    + intros (c' & [->|H1]%elem_of_cons & H2); [by left|].
      right. eauto.
Qed.

Lemma layer_addrs i cols a : a ∈ layer i cols -> a ∈ addrs cols.
Proof.
  rewrite elem_of_layer, elem_of_addrs. intros (c & Hc & Ha).
  exists c. split; [done|]. apply list_elem_of_lookup. eauto.
Qed.

Lemma NoDup_layer i cols : NoDup (addrs cols) -> NoDup (layer i cols).
Proof.
  induction cols as [|c cols IH]; [constructor|].
  rewrite addrs_cons, NoDup_app, layer_cons. intros (Hc & Hdis & Hrest).
  destruct (cnodes c !! i) as [a|] eqn:Ha; [|by apply IH].
  constructor; [|by apply IH].
  intros Hin%layer_addrs. eapply Hdis; [|done].
  apply list_elem_of_lookup. eauto.
Qed.

Lemma layer_disjoint i j cols a :
  NoDup (addrs cols) -> a ∈ layer i cols -> a ∈ layer j cols -> i = j.
Proof.
  induction cols as [|c cols IH]; [by intros _ ?%elem_of_nil|].
  rewrite addrs_cons, NoDup_app, !layer_cons. intros (Hc & Hdis & Hrest) Hi Hj.
  assert (forall m, a ∈ layer m cols -> a ∉ cnodes c) as Hout.
  { intros m Hm%layer_addrs Hin. by eapply Hdis. }
  assert (forall m, a ∈ match cnodes c !! m with
                        | Some b => b :: layer m cols
                        | None => layer m cols end ->
            cnodes c !! m = Some a \/ a ∈ layer m cols) as Hcase.
  { intros m. destruct (cnodes c !! m) eqn:E; [|by right].
    intros [->|H]%elem_of_cons; [by left|by right]. }
  destruct (Hcase _ Hi) as [Hi1|Hi1], (Hcase _ Hj) as [Hj1|Hj1].
  - exact (NoDup_lookup _ _ _ _ Hc Hi1 Hj1).
  - exfalso. eapply Hout; [done|]. apply list_elem_of_lookup. eauto.
  - exfalso. eapply Hout; [done|]. apply list_elem_of_lookup. eauto.
  - by apply IH.
Qed.

Lemma column_disjoint A c B a :
  NoDup (addrs (A ++ c :: B)) -> a ∈ cnodes c -> a ∉ addrs (A ++ B).
Proof.
  rewrite !addrs_app, addrs_cons, !NoDup_app.
  intros (HA & HdA & Hc & HdB & HB) Ha.
  rewrite elem_of_app. intros [Hin|Hin].
  - eapply HdA; [done|]. rewrite elem_of_app. by left.
  - by eapply HdB.
Qed.

Lemma NoDup_column A c B :
  NoDup (addrs (A ++ c :: B)) -> NoDup (cnodes c).
Proof.
  rewrite !addrs_app, addrs_cons, !NoDup_app. tauto.
Qed.

Lemma NoDup_addrs_remove A c B :
  NoDup (addrs (A ++ c :: B)) -> NoDup (addrs (A ++ B)).
Proof.
  rewrite !addrs_app, addrs_cons, !NoDup_app.
  intros (HA & HdA & Hc & HdB & HB). split_and!; [done| |done].
  intros x Hx Hin. eapply HdA; [done|]. rewrite elem_of_app. by right.
Qed.

(** The first node of a layer belongs to the first column that reaches the
    layer. *)
Lemma layer_head i cols a R :
  layer i cols = a :: R ->
  exists B1 c B2, cols = B1 ++ c :: B2 /\ layer i B1 = []
    /\ cnodes c !! i = Some a /\ layer i B2 = R.
Proof.
  induction cols as [|c cols IH]; [done|].
  rewrite layer_cons. destruct (cnodes c !! i) as [b|] eqn:Hb.
  - intros [= -> <-]. by exists [], c, cols.
  - intros (B1 & c' & B2 & -> & H1 & H2 & H3)%IH.
    exists (c :: B1), c', B2. split_and!; [done| |done..].
    by rewrite layer_cons, Hb.
Qed.

(** The last node of a layer belongs to the last column that reaches it. *)
Lemma layer_last i cols a R :
  layer i cols = R ++ [a] ->
  exists B1 c B2, cols = B1 ++ c :: B2 /\ layer i B2 = []
    /\ cnodes c !! i = Some a /\ layer i B1 = R.
Proof.
  induction cols as [|c cols IH] using rev_ind.
  { intros H. by destruct R. }
  rewrite layer_app, layer_one. destruct (cnodes c !! i) as [b|] eqn:Hb.
  - intros [<- ->]%app_inj_tail. by exists cols, c, [].
  - rewrite app_nil_r. intros (B1 & c' & B2 & -> & H1 & H2 & H3)%IH.
    exists B1, c', (B2 ++ [c]). split_and!; [by rewrite <- app_assoc| |done..].
    by rewrite layer_app, H1, layer_one, Hb.
Qed.

Lemma layer_short i cols :
  Forall (fun c => (length (cnodes c) <= i)%nat) cols -> layer i cols = [].
Proof.
  induction 1 as [|c cols Hc _ IH]; [done|].
  rewrite layer_cons, IH. by rewrite lookup_ge_None_2.
Qed.

Lemma layer_nil_short i cols :
  layer i cols = [] ->
  Forall (fun c => (length (cnodes c) <= i)%nat) cols.
Proof.
  induction cols as [|c cols IH]; [constructor|].
  rewrite layer_cons. destruct (cnodes c !! i) eqn:E; [done|].
  intros H. constructor; [|by apply IH]. by apply lookup_ge_None.
Qed.

End Layers.

(** ** What the invariant says about single nodes *)

Section Lookups.

Context {V : Type}.
Variable vdefault : V.
Implicit Types (s : @SkipList V) (c : @column V) (ts : list (@column V)).

Lemma snoc_view {A} (x : A) (l : list A) :
  exists (pre : list A) (y : A), x :: l = pre ++ [y].
Proof.
  destruct l as [|y l _] using rev_ind.
  - by exists [], x.
  - by exists (x :: l), y.
Qed.

Lemma columns_split fc bc ts1 ts2 pre c :
  sentinel vdefault fc :: ts1 = pre ++ [c] ->
  columns vdefault fc bc (ts1 ++ ts2)
  = pre ++ c :: (ts2 ++ [sentinel vdefault bc]).
Proof.
  intros H. unfold columns. rewrite <- app_assoc, app_comm_cons, H.
  by rewrite <- app_assoc.
Qed.

Lemma inv_col_length s fc bc ts c :
  SL_Inv vdefault s fc bc ts -> c ∈ columns vdefault fc bc ts ->
  (1 <= length (cnodes c) <= SkipListLayers s)%nat.
Proof.
  intros I. unfold columns.
  rewrite elem_of_cons, elem_of_app, list_elem_of_singleton.
  pose proof (inv_layers _ _ _ _ _ I).
  intros [->|[Hc| ->]]; simpl.
  - rewrite (inv_fc _ _ _ _ _ I). lia.
  - pose proof (inv_heights _ _ _ _ _ I) as Hh.
    rewrite Forall_forall in Hh. specialize (Hh _ Hc). lia.
  - rewrite (inv_bc _ _ _ _ _ I). lia.
Qed.

Lemma vchain_lookup (h : gmap nat (@Node V)) c i a :
  vchain h c -> cnodes c !! i = Some a ->
  exists n, h !! a = Some n /\ key n = ckey c /\ value n = cval c
    /\ down n = match i with O => None | S j => cnodes c !! j end
    /\ up n = cnodes c !! S i.
Proof.
  intros [Hs Hp] Hi.
  destruct (seg_lookup _ _ _ _ _ _ _ _ Hs Hi) as (n & Hn & Hd & Hu).
  destruct (Hp a) as (n' & Hn' & Hk & Hv).
  { apply list_elem_of_lookup. eauto. }
  simplify_eq. exists n. split_and!; [done..|].
  rewrite Hu. by destruct (cnodes c !! S i).
Qed.

Lemma inv_vlookup s fc bc ts c i a :
  SL_Inv vdefault s fc bc ts -> c ∈ columns vdefault fc bc ts ->
  cnodes c !! i = Some a ->
  exists n, heap s !! a = Some n /\ key n = ckey c /\ value n = cval c
    /\ down n = match i with O => None | S j => cnodes c !! j end
    /\ up n = cnodes c !! S i.
Proof.
  intros I Hc Hi. apply vchain_lookup; [|done].
  pose proof (inv_v _ _ _ _ _ I) as Hv. rewrite Forall_forall in Hv. auto.
Qed.

Lemma inv_hlookup s fc bc ts A c B i a :
  SL_Inv vdefault s fc bc ts -> columns vdefault fc bc ts = A ++ c :: B ->
  cnodes c !! i = Some a ->
  exists n, heap s !! a = Some n
    /\ previous n = last_ptr None (layer i A)
    /\ next n = hd_ptr (layer i B) None.
Proof.
  intros I Hcols Hi.
  assert (i < SkipListLayers s)%nat as Hlt.
  { assert (c ∈ columns vdefault fc bc ts) as Hc.
    { rewrite Hcols, elem_of_app, elem_of_cons. auto. }
    pose proof (inv_col_length _ _ _ _ _ I Hc).
    apply lookup_lt_Some in Hi. lia. }
  pose proof (inv_h _ _ _ _ _ I i Hlt) as Hh. unfold hchain in Hh.
  rewrite Hcols, layer_app, layer_cons, Hi in Hh.
  by apply seg_middle in Hh.
Qed.

(** The back sentinel closes every layer. *)
Lemma layer_right bc ts2 i :
  (i < length bc)%nat ->
  exists bi, bc !! i = Some bi
    /\ layer i (ts2 ++ [sentinel vdefault bc]) = layer i ts2 ++ [bi].
Proof.
  intros Hi. destruct (lookup_lt_is_Some_2 bc i Hi) as [bi Hbi].
  exists bi. split; [done|]. rewrite layer_app, layer_one. simpl. by rewrite Hbi.
Qed.

Lemma hd_ptr_snoc (l : list addr) a q : exists b, hd_ptr (l ++ [a]) q = Some b.
Proof. destruct l; simpl; eauto. Qed.

End Lookups.

(** ** The loops that only read *)

Section Search.

Context {V : Type}.
Variable vdefault : V.
Implicit Types (s : @SkipList V) (c : @column V) (ts : list (@column V)).

Lemma left_column fc ts1 pre c :
  sentinel vdefault fc :: ts1 = pre ++ [c] ->
  c = sentinel vdefault fc \/ c ∈ ts1.
Proof.
  intros H.
  assert (c ∈ sentinel vdefault fc :: ts1) as Hc.
  { rewrite H, elem_of_app, list_elem_of_singleton. auto. }
  apply elem_of_cons in Hc. tauto.
Qed.

Lemma left_column_in fc bc ts ts1 ts2 pre c :
  ts = ts1 ++ ts2 ->
  sentinel vdefault fc :: ts1 = pre ++ [c] ->
  columns vdefault fc bc ts
  = pre ++ c :: (ts2 ++ [sentinel vdefault bc])
  /\ c ∈ columns vdefault fc bc ts.
Proof.
  intros -> H. rewrite (columns_split _ _ _ _ _ _ _ H), elem_of_app, elem_of_cons.
  auto.
Qed.

Lemma back_column fc bc ts :
  columns vdefault fc bc ts
  = (sentinel vdefault fc :: ts) ++ sentinel vdefault bc :: [].
Proof. reflexivity. Qed.

Lemma sorted_below ts A B c k :
  ascending (keys_of ts) -> ts = A ++ B ++ [c] ++ k ->
  Forall (fun t => ckey t <= ckey c) B.
Proof.
  unfold ascending, keys_of. intros Hs ->.
  rewrite !map_app, !StronglySorted_app in Hs. simpl in Hs.
  destruct Hs as (_ & _ & (Hs & _ & _)).
  rewrite Forall_forall. intros t Ht.
  apply Hs; [by apply list_elem_of_fmap_2|apply list_elem_of_here].
Qed.

(** The descent ends on layer 0, right of keys below [k] only. *)
Lemma descend_spec s fc bc ts k :
  SL_Inv vdefault s fc bc ts ->
  forall fuel pre c ts1 ts2 i tmp,
    ts = ts1 ++ ts2 ->
    sentinel vdefault fc :: ts1 = pre ++ [c] ->
    cnodes c !! i = Some tmp ->
    Forall (fun t => ckey t < k) ts1 ->
    match descend fuel (heap s) k (Some tmp) with
    | Ok r =>
        exists pre' c' ts1' ts2' b,
          ts = ts1' ++ ts2'
          /\ sentinel vdefault fc :: ts1' = pre' ++ [c']
          /\ cnodes c' !! 0%nat = Some b /\ r = Some b
          /\ Forall (fun t => ckey t < k) ts1'
    | Timeout => (fuel <= length ts2 + i)%nat
    | _ => False
    end.
Proof.
  intros I. induction fuel as [|fuel IH]; intros pre c ts1 ts2 i tmp Hts Hpre Hi Hlow.
  { simpl. lia. }
  simpl.
  destruct (left_column_in fc bc _ _ _ _ _ Hts Hpre) as [Hsplit Hc].
  destruct (inv_vlookup _ _ _ _ _ _ _ _ I Hc Hi) as (n & Hn & Hk & _ & Hd & _).
  rewrite (load_Some _ _ _ Hn). simpl.
  destruct i as [|j].
  { rewrite Hd. simpl. exists pre, c, ts1, ts2, tmp. done. }
  assert (exists d, cnodes c !! j = Some d) as [d Hj].
  { apply lookup_lt_is_Some_2. apply lookup_lt_Some in Hi. lia. }
  rewrite Hd, Hj. simpl.
  destruct (inv_hlookup _ _ _ _ _ _ _ _ _ _ I Hsplit Hi) as (n' & Hn' & _ & Hnx).
  simplify_eq.
  assert (S j < length bc)%nat as Hjb.
  { pose proof (inv_col_length _ _ _ _ _ _ I Hc).
    apply lookup_lt_Some in Hi. rewrite (inv_bc _ _ _ _ _ I). lia. }
  destruct (layer_right vdefault bc ts2 _ Hjb) as (bi & Hbi & Hlay).
  rewrite Hlay in Hnx.
  destruct (layer (S j) ts2) as [|nxa R] eqn:Hl2.
  - (* the next node is the back sentinel *)
    simpl in Hnx. rewrite Hnx.
    destruct (inv_hlookup _ _ _ _ _ _ _ _ (S j) bi I (back_column fc bc _) Hbi)
      as (nb & Hnb & _ & Hnbx).
    rewrite (load_Some _ _ _ Hnb). simpl. rewrite Hnbx. simpl.
    specialize (IH pre c ts1 ts2 j d eq_refl Hpre Hj Hlow).
    destruct (descend fuel (heap s) k (Some d)); try done. lia.
  - (* the next node belongs to a tower *)
    simpl in Hnx. rewrite Hnx.
    destruct (layer_head _ _ _ _ Hl2) as (B1 & c' & B2 & -> & HB1 & Hc' & HB2).
    assert (sentinel vdefault fc :: ts1 ++ B1 ++ [c'] = (pre ++ c :: B1) ++ [c'])
      as Hpre'.
    { rewrite app_comm_cons, Hpre. list_eq. }
    assert (ts1 ++ B1 ++ c' :: B2 = (ts1 ++ B1 ++ [c']) ++ B2) as Hts'.
    { list_eq. }
    destruct (left_column_in fc bc _ _ _ _ _ Hts' Hpre') as [Hsplit' Hc'in].
    destruct (inv_hlookup _ _ _ _ _ _ _ _ _ _ I Hsplit' Hc') as (nx & Hnxa & _ & Hnxx).
    destruct (inv_vlookup _ _ _ _ _ _ _ _ I Hc'in Hc') as (nx' & ? & Hkx & _).
    simplify_eq.
    rewrite (load_Some _ _ _ Hnxa). simpl.
    destruct (layer_right vdefault bc B2 _ Hjb) as (bi' & _ & Hlay').
    rewrite Hlay' in Hnxx.
    destruct (hd_ptr_snoc (layer (S j) B2) bi' None) as [b' Hb'].
    rewrite Hnxx, Hb'. simpl. rewrite Hkx.
    destruct (ckey c' <? k) eqn:Hlt.
    + apply N.ltb_lt in Hlt.
      assert (Forall (fun t => ckey t < k) (ts1 ++ B1 ++ [c'])) as Hlow'.
      { rewrite !Forall_app. split_and!; [done| |by repeat constructor].
        pose proof (sorted_below _ ts1 B1 c' B2 (inv_sorted _ _ _ _ _ I) eq_refl) as Hb.
        eapply Forall_impl; [exact Hb|]. simpl. intros; lia. }
      specialize (IH (pre ++ c :: B1) c' (ts1 ++ B1 ++ [c']) B2 (S j) nxa
                    Hts' Hpre' Hc' Hlow').
      destruct (descend fuel (heap s) k (Some nxa)); try done.
      rewrite length_app. simpl. lia.
    + specialize (IH pre c ts1 (B1 ++ c' :: B2) j d eq_refl Hpre Hj Hlow).
      destruct (descend fuel (heap s) k (Some d)); try done. lia.
Qed.

Lemma tower_base s fc bc ts c :
  SL_Inv vdefault s fc bc ts -> c ∈ ts -> exists b, cnodes c !! 0%nat = Some b.
Proof.
  intros I Hc. pose proof (inv_heights _ _ _ _ _ I) as Hh.
  rewrite Forall_forall in Hh. specialize (Hh _ Hc).
  apply lookup_lt_is_Some_2. lia.
Qed.

Lemma sentinel_base s fc bc ts :
  SL_Inv vdefault s fc bc ts ->
  exists f0 b0, fc !! 0%nat = Some f0 /\ bc !! 0%nat = Some b0
    /\ front s = Some f0 /\ back s = Some b0.
Proof.
  intros I. pose proof (inv_layers _ _ _ _ _ I).
  destruct (lookup_lt_is_Some_2 fc 0) as [f0 Hf].
  { rewrite (inv_fc _ _ _ _ _ I). lia. }
  destruct (lookup_lt_is_Some_2 bc 0) as [b0 Hb].
  { rewrite (inv_bc _ _ _ _ _ I). lia. }
  exists f0, b0. split_and!; [done..| |].
  - by rewrite (inv_front _ _ _ _ _ I), head_lookup.
  - by rewrite (inv_back _ _ _ _ _ I), head_lookup.
Qed.

(** What lies right of a base node: the rest of layer 0. *)
Lemma base_right s fc bc ts ts1 ts2 pre c tmp :
  SL_Inv vdefault s fc bc ts ->
  ts = ts1 ++ ts2 -> sentinel vdefault fc :: ts1 = pre ++ [c] ->
  cnodes c !! 0%nat = Some tmp ->
  exists n b0, heap s !! tmp = Some n /\ key n = ckey c /\ value n = cval c
    /\ bc !! 0%nat = Some b0
    /\ match ts2 with
       | [] =>
           next n = Some b0
           /\ exists nb, heap s !! b0 = Some nb /\ next nb = None
       | c' :: B2 =>
           exists a na x, cnodes c' !! 0%nat = Some a /\ next n = Some a
             /\ heap s !! a = Some na /\ key na = ckey c'
             /\ next na = Some x
       end.
Proof.
  intros I Hts Hpre Hi.
  destruct (left_column_in fc bc _ _ _ _ _ Hts Hpre) as [Hsplit Hc].
  destruct (inv_vlookup _ _ _ _ _ _ _ _ I Hc Hi) as (n & Hn & Hk & Hv & _).
  destruct (inv_hlookup _ _ _ _ _ _ _ _ _ _ I Hsplit Hi) as (n' & Hn' & _ & Hnx).
  simplify_eq.
  destruct (sentinel_base _ _ _ _ I) as (f0 & b0 & Hf0 & Hb0 & _).
  exists n, b0. split_and!; [done..|].
  assert (0 < length bc)%nat as Hlb by (by apply lookup_lt_Some in Hb0).
  destruct ts2 as [|c' B2].
  - simpl in Hnx. unfold layer in Hnx. simpl in Hnx. rewrite Hb0 in Hnx.
    split; [done|].
    destruct (inv_hlookup _ _ _ _ _ _ _ _ 0%nat b0 I (back_column fc bc _) Hb0)
      as (nb & Hnb & _ & Hnbx).
    eauto.
  - destruct (tower_base _ _ _ _ c' I) as [a Ha].
    { rewrite elem_of_app, elem_of_cons. auto. }
    assert (sentinel vdefault fc :: ts1 ++ [c'] = (pre ++ [c]) ++ [c']) as Hpre'.
    { rewrite app_comm_cons, Hpre. list_eq. }
    assert (ts1 ++ c' :: B2 = (ts1 ++ [c']) ++ B2) as Hts' by list_eq.
    destruct (left_column_in fc bc _ _ _ _ _ Hts' Hpre') as [Hsplit' Hc'].
    destruct (inv_vlookup _ _ _ _ _ _ _ _ I Hc' Ha) as (na & Hna & Hka & _).
    destruct (inv_hlookup _ _ _ _ _ _ _ _ _ _ I Hsplit' Ha) as (na' & ? & _ & Hnax).
    simplify_eq.
    destruct (layer_right vdefault bc B2 _ Hlb) as (bi' & _ & Hlay').
    rewrite Hlay' in Hnax.
    destruct (hd_ptr_snoc (layer 0 B2) bi' None) as [x Hx].
    exists a, na, x. split_and!; [done| |done..|congruence].
    rewrite Hnx. simpl. by rewrite layer_cons, Ha.
Qed.

(** The second loop of [findNode] returns the first tower with key [k] right
    of its start, and throws when there is none. *)
Lemma scan_spec s fc bc ts k :
  SL_Inv vdefault s fc bc ts ->
  forall fuel pre c ts1 ts2 tmp,
    ts = ts1 ++ ts2 ->
    sentinel vdefault fc :: ts1 = pre ++ [c] ->
    cnodes c !! 0%nat = Some tmp ->
    match scan fuel (heap s) k (Some tmp) with
    | Ok r =>
        exists tsA c' tsB b,
          ts2 = tsA ++ c' :: tsB /\ ckey c' = k
          /\ Forall (fun t => ckey t <> k) tsA
          /\ cnodes c' !! 0%nat = Some b /\ r = Some b
    | Throw OutOfRange => Forall (fun t => ckey t <> k) ts2
    | Timeout => (fuel <= length ts2)%nat
    | _ => False
    end.
Proof.
  intros I. induction fuel as [|fuel IH]; intros pre c ts1 ts2 tmp Hts Hpre Hi.
  { simpl. lia. }
  simpl.
  destruct (base_right _ _ _ _ _ _ _ _ _ I Hts Hpre Hi)
    as (n & b0 & Hn & _ & _ & Hb0 & Hr).
  rewrite (load_Some _ _ _ Hn). simpl.
  destruct ts2 as [|c' B2].
  - destruct Hr as (Hnx & nb & Hnb & Hnbx).
    rewrite Hnx, (load_Some _ _ _ Hnb). simpl. rewrite Hnbx. simpl. constructor.
  - destruct Hr as (a & na & x & Ha & Hnx & Hna & Hka & Hnax).
    rewrite Hnx, (load_Some _ _ _ Hna). simpl. rewrite Hnax, Hka. simpl.
    destruct (ckey c' =? k) eqn:Hkk.
    + apply N.eqb_eq in Hkk. exists [], c', B2, a. by split_and!.
    + apply N.eqb_neq in Hkk.
      assert (sentinel vdefault fc :: ts1 ++ [c'] = (pre ++ [c]) ++ [c']) as Hpre'.
      { rewrite app_comm_cons, Hpre. list_eq. }
      assert (ts = (ts1 ++ [c']) ++ B2) as Hts' by (rewrite Hts; list_eq).
      specialize (IH _ _ _ _ _ Hts' Hpre' Ha).
      destruct (scan fuel (heap s) k (Some a)) as [r|[]| |]; try done.
      * destruct IH as (tsA & c'' & tsB & b & -> & ? & ? & ? & ?).
        exists (c' :: tsA), c'', tsB, b. split_and!; try done.
        by constructor.
      * by constructor.
      * simpl. lia.
Qed.

(** The second loop of [insert] always finds the place of [k], and never
    takes its [return false]. *)
Lemma insert_scan_spec s fc bc ts k :
  SL_Inv vdefault s fc bc ts ->
  forall fuel pre c ts1 ts2 tmp,
    ts = ts1 ++ ts2 ->
    sentinel vdefault fc :: ts1 = pre ++ [c] ->
    cnodes c !! 0%nat = Some tmp ->
    Forall (fun t => ckey t < k) ts1 ->
    match insert_scan fuel (heap s) k (Some tmp) with
    | Ok (Some r) =>
        exists pre' c' ts1' ts2' b,
          ts = ts1' ++ ts2'
          /\ sentinel vdefault fc :: ts1' = pre' ++ [c']
          /\ cnodes c' !! 0%nat = Some b /\ r = Some b
          /\ Forall (fun t => ckey t < k) ts1'
          /\ Forall (fun t => k <= ckey t) ts2'
    | Timeout => (fuel <= length ts2)%nat
    | _ => False
    end.
Proof.
  intros I. induction fuel as [|fuel IH]; intros pre c ts1 ts2 tmp Hts Hpre Hi Hlow.
  { simpl. lia. }
  simpl.
  destruct (base_right _ _ _ _ _ _ _ _ _ I Hts Hpre Hi)
    as (n & b0 & Hn & Hk & _ & Hb0 & Hr).
  rewrite (load_Some _ _ _ Hn). simpl.
  destruct ts2 as [|c' B2].
  - destruct Hr as (Hnx & nb & Hnb & Hnbx).
    rewrite Hnx, (load_Some _ _ _ Hnb). simpl. rewrite Hnbx. simpl.
    exists pre, c, ts1, [], tmp. by split_and!.
  - destruct Hr as (a & na & x & Ha & Hnx & Hna & Hka & Hnax).
    rewrite Hnx, (load_Some _ _ _ Hna). simpl. rewrite Hnax, Hka. simpl.
    destruct (ckey c' <? k) eqn:Hlt.
    + apply N.ltb_lt in Hlt.
      assert (ckey c < k) as Hck.
      { destruct (left_column _ _ _ _ Hpre) as [-> |Hc].
        - simpl. unfold kdefault. lia.
        - rewrite Forall_forall in Hlow. by apply Hlow. }
      rewrite Hk. destruct (ckey c =? k) eqn:Hkk.
      { apply N.eqb_eq in Hkk. lia. }
      assert (sentinel vdefault fc :: ts1 ++ [c'] = (pre ++ [c]) ++ [c']) as Hpre'.
      { rewrite app_comm_cons, Hpre. list_eq. }
      assert (ts = (ts1 ++ [c']) ++ B2) as Hts' by (rewrite Hts; list_eq).
      assert (Forall (fun t => ckey t < k) (ts1 ++ [c'])) as Hlow'.
      { rewrite Forall_app. split; [done|]. by repeat constructor. }
      specialize (IH _ _ _ _ _ Hts' Hpre' Ha Hlow').
      destruct (insert_scan fuel (heap s) k (Some a)) as [[r|]| | |]; try done.
      simpl. lia.
    + apply N.ltb_ge in Hlt.
      exists pre, c, ts1, (c' :: B2), tmp. split_and!; try done.
      constructor; [done|].
      pose proof (inv_sorted _ _ _ _ _ I) as Hs. unfold ascending, keys_of in Hs.
      rewrite Hts, map_app, StronglySorted_app in Hs. simpl in Hs.
      destruct Hs as (_ & _ & Hs). apply StronglySorted_cons in Hs as [Hs _].
      rewrite Forall_fmap in Hs. eapply Forall_impl; [exact Hs|].
      simpl. intros. lia.
Qed.

(** [height]'s loop counts the nodes above the one it starts from. *)
Lemma climb_spec (h : gmap nat (@Node V)) c :
  vchain h c ->
  forall fuel i tmp acc,
    cnodes c !! i = Some tmp ->
    match climb fuel h acc (Some tmp) with
    | Ok r => r = (acc + (length (cnodes c) - S i))%nat
    | Timeout => (fuel <= length (cnodes c) - S i)%nat
    | _ => False
    end.
Proof.
  intros Hv. induction fuel as [|fuel IH]; intros i tmp acc Hi.
  { simpl. lia. }
  simpl. destruct (vchain_lookup _ _ _ _ Hv Hi) as (n & Hn & _ & _ & _ & Hu).
  rewrite (load_Some _ _ _ Hn). simpl. rewrite Hu.
  destruct (cnodes c !! S i) as [a|] eqn:Ha; simpl.
  - specialize (IH (S i) a (S acc) Ha). apply lookup_lt_Some in Ha.
    destruct (climb fuel h (S acc) (Some a)); try done; lia.
  - apply lookup_ge_None in Ha. apply lookup_lt_Some in Hi. lia.
Qed.

(** A list of distinct addresses below [n] has at most [n] elements. *)
Lemma NoDup_bounded (l : list addr) n :
  NoDup l -> Forall (fun a => (a < n)%nat) l -> (length l <= n)%nat.
Proof.
  intros Hnd Hlt.
  assert (length l <= length (seq 0%nat n))%nat as H;
    [|by rewrite length_seq in H].
  apply submseteq_length, NoDup_submseteq; [done|].
  intros a Ha. rewrite Forall_forall in Hlt. specialize (Hlt _ Ha).
  apply elem_of_seq. lia.
Qed.

Lemma addrs_columns fc bc ts :
  addrs (columns vdefault fc bc ts) = fc ++ addrs ts ++ bc.
Proof.
  unfold columns. rewrite addrs_cons, addrs_app. simpl.
  unfold addrs at 2. simpl. by rewrite app_nil_r.
Qed.

Lemma addrs_length_ge ts :
  Forall (fun c : @column V => (1 <= length (cnodes c))%nat) ts ->
  (length ts <= length (addrs ts))%nat.
Proof.
  induction 1 as [|c ts Hc _ IH]; [done|].
  rewrite addrs_cons, length_app. simpl. lia.
Qed.

(** Every loop that walks the structure once has fuel enough in [brk s]. *)
Lemma inv_fuel s fc bc ts :
  SL_Inv vdefault s fc bc ts ->
  (length ts + 2 * SkipListLayers s <= brk s)%nat.
Proof.
  intros I.
  pose proof (NoDup_bounded _ _ (inv_nodup _ _ _ _ _ I) (inv_brk _ _ _ _ _ I)) as H.
  rewrite addrs_columns, !length_app in H.
  rewrite (inv_fc _ _ _ _ _ I), (inv_bc _ _ _ _ _ I) in H.
  assert (length ts <= length (addrs ts))%nat; [|lia].
  apply addrs_length_ge. eapply Forall_impl; [apply (inv_heights _ _ _ _ _ I)|].
  simpl. intros. lia.
Qed.

Lemma inv_top s fc bc ts :
  SL_Inv vdefault s fc bc ts ->
  exists tf tb, fc !! (SkipListLayers s - 1)%nat = Some tf
    /\ bc !! (SkipListLayers s - 1)%nat = Some tb
    /\ topFront s = Some tf /\ topBack s = Some tb.
Proof.
  intros I. pose proof (inv_layers _ _ _ _ _ I).
  destruct (lookup_lt_is_Some_2 fc (SkipListLayers s - 1)) as [tf Hf].
  { rewrite (inv_fc _ _ _ _ _ I). lia. }
  destruct (lookup_lt_is_Some_2 bc (SkipListLayers s - 1)) as [tb Hb].
  { rewrite (inv_bc _ _ _ _ _ I). lia. }
  exists tf, tb. split_and!; [done..| |].
  - rewrite (inv_topFront _ _ _ _ _ I), last_lookup, (inv_fc _ _ _ _ _ I).
    by replace (pred (SkipListLayers s)) with (SkipListLayers s - 1)%nat by lia.
  - rewrite (inv_topBack _ _ _ _ _ I), last_lookup, (inv_bc _ _ _ _ _ I).
    by replace (pred (SkipListLayers s)) with (SkipListLayers s - 1)%nat by lia.
Qed.

(** [findNode] returns the base node of the first tower with key [k], and
    throws [std::out_of_range] when no tower has that key. *)
Lemma findNode_spec s fc bc ts k fuel :
  SL_Inv vdefault s fc bc ts ->
  match findNode fuel k s with
  | Ok r =>
      exists tsA c tsB b,
        ts = tsA ++ c :: tsB /\ ckey c = k
        /\ Forall (fun t => ckey t <> k) tsA
        /\ cnodes c !! 0%nat = Some b /\ r = Some b
  | Throw OutOfRange => Forall (fun t => ckey t <> k) ts
  | Timeout => (fuel < brk s)%nat
  | _ => False
  end.
Proof.
  intros I. unfold findNode.
  destruct (inv_top _ _ _ _ I) as (tf & tb & Htf & _ & -> & _).
  pose proof (inv_fuel _ _ _ _ I) as Hfuel.
  pose proof (inv_layers _ _ _ _ _ I) as HL.
  pose proof (descend_spec s fc bc ts k I fuel [] (sentinel vdefault fc) [] ts
                (SkipListLayers s - 1) tf eq_refl eq_refl Htf (Forall_nil_2 _)) as Hd.
  destruct (descend fuel (heap s) k (Some tf)) as [r| | |]; simpl; try done; [|lia].
  destruct Hd as (pre & c & ts1 & ts2 & b & Hts & Hpre & Hb & -> & Hlow).
  pose proof (scan_spec s fc bc ts k I fuel pre c ts1 ts2 b Hts Hpre Hb) as Hs.
  destruct (scan fuel (heap s) k (Some b)) as [r|[]| |]; try done.
  - destruct Hs as (tsA & c' & tsB & b' & -> & Hk & Hne & Hb' & ->).
    exists (ts1 ++ tsA), c', tsB, b'. split_and!; try done.
    + rewrite Hts. list_eq.
    + rewrite Forall_app. split; [|done].
      eapply Forall_impl; [exact Hlow|]. simpl. intros. lia.
  - rewrite Hts, Forall_app. split; [|done].
    eapply Forall_impl; [exact Hlow|]. simpl. intros. lia.
  - rewrite Hts, length_app in Hfuel. lia.
Qed.

End Search.

(** ** The loops that write *)

(** Reading a heap built by stores. *)
Ltac heap_lookup :=
  repeat first
    [ rewrite lookup_insert_eq
    | rewrite lookup_delete_eq
    | rewrite lookup_insert_ne by (first [lia | congruence | done])
    | rewrite lookup_delete_ne by (first [lia | congruence | done]) ];
  try eassumption; try reflexivity.
Ltac step_store := erewrite store_Some by heap_lookup; simpl.
Ltac step_load := erewrite load_Some by heap_lookup; simpl.

Section Update.

Context {V : Type}.
Variable vdefault : V.
Implicit Types (s : @SkipList V) (c : @column V) (ts : list (@column V)).
Implicit Types (h : gmap nat (@Node V)).

Lemma vchain_frame h h' c :
  (forall a, a ∈ cnodes c -> vagree h h' a) -> vchain h c -> vchain h' c.
Proof.
  intros Hag [Hs Hp]. split.
  - eapply seg_frame; [|done]. intros a Ha n Hn.
    destruct (Hag a Ha n Hn) as (n' & ? & ? & ? & ? & ?). eauto.
  - intros a Ha. destruct (Hp a Ha) as (n & Hn & Hk & Hv).
    destruct (Hag a Ha n Hn) as (n' & ? & ? & ? & ? & ?).
    exists n'. split_and!; congruence.
Qed.

Lemma hchain_frame h h' (cols : list (@column V)) i :
  (forall a, a ∈ layer i cols -> hagree h h' a) ->
  hchain h cols i -> hchain h' cols i.
Proof. apply seg_frame. Qed.

Lemma vagree_same h h' a : h' !! a = h !! a -> vagree h h' a.
Proof. intros H n Hn. exists n. by rewrite H. Qed.

Lemma hagree_same h h' a : h' !! a = h !! a -> hagree h h' a.
Proof. intros H n Hn. exists n. by rewrite H. Qed.

(** A column grows by one node on top. *)
Lemma vchain_snoc h h' k v l t a :
  vchain h (mkColumn k v (l ++ [t])) ->
  (forall b, b ∈ l -> vagree h h' b) ->
  (forall n, h !! t = Some n ->
     exists n', h' !! t = Some n' /\ key n' = key n /\ value n' = value n
       /\ down n' = down n /\ up n' = Some a) ->
  (exists n, h' !! a = Some n /\ key n = k /\ value n = v
     /\ down n = Some t /\ up n = None) ->
  vchain h' (mkColumn k v (l ++ [t; a])).
Proof.
  intros [Hs Hp] Hag Ht (na & Hna & Hka & Hva & Hda & Hua). simpl in *.
  split; simpl.
  - eapply seg_snoc; [done| | |by eauto].
    + intros b Hb n Hn. destruct (Hag b Hb n Hn) as (n' & ? & ? & ? & ? & ?). eauto.
    + intros n Hn. destruct (Ht n Hn) as (n' & ? & ? & ? & ? & ?). eauto.
  - unfold payload in *. simpl in *.
    intros b. rewrite elem_of_app, !elem_of_cons, elem_of_nil.
    intros [Hb|[->|[->|[]]]].
    + destruct (Hp b) as (n & Hn & ? & ?); [rewrite elem_of_app; auto|].
      destruct (Hag b Hb n Hn) as (n' & ? & ? & ? & ? & ?).
      exists n'. split_and!; congruence.
    + destruct (Hp t) as (n & Hn & ? & ?).
      { rewrite elem_of_app, list_elem_of_singleton. auto. }
      destruct (Ht n Hn) as (n' & ? & ? & ? & ? & ?).
      exists n'. split_and!; congruence.
    + eauto.
Qed.

Lemma last_snoc_view (l : list addr) t :
  last l = Some t -> exists l0, l = l0 ++ [t].
Proof. by intros ?%last_Some. Qed.

Lemma layer_sentinel_grow i l a (A : list (@column V)) :
  (i < length l)%nat ->
  layer i (sentinel vdefault (l ++ [a]) :: A) = layer i (sentinel vdefault l :: A).
Proof. intros Hi. rewrite !layer_cons. simpl. by rewrite lookup_app_l. Qed.

Lemma layer_columns_grow i fc bc a1 a2 ts :
  (i < length fc)%nat -> (i < length bc)%nat ->
  layer i (columns vdefault (fc ++ [a1]) (bc ++ [a2]) ts)
  = layer i (columns vdefault fc bc ts).
Proof.
  intros Hf Hb. unfold columns.
  rewrite layer_sentinel_grow by done. rewrite !layer_cons, !layer_app.
  f_equal. f_equal. rewrite !layer_one. simpl. by rewrite lookup_app_l.
Qed.

Lemma grow_spec s fc bc ts :
  SL_Inv vdefault s fc bc ts ->
  exists s',
    grow vdefault s = Ok s'
    /\ SL_Inv vdefault s' (fc ++ [brk s]) (bc ++ [S (brk s)]) ts
    /\ brk s' = S (S (brk s))
    /\ SkipListLayers s' = S (SkipListLayers s)
    /\ SkipListSize s' = SkipListSize s.
Proof.
  intros I.
  destruct (inv_top _ _ _ _ _ I) as (tf & tb & Htf & Htb & Htf' & Htb').
  pose proof (inv_layers _ _ _ _ _ I) as HL.
  pose proof (inv_fc _ _ _ _ _ I) as Hlf.
  pose proof (inv_bc _ _ _ _ _ I) as Hlb.
  assert (sentinel vdefault fc ∈ columns vdefault fc bc ts) as Hfin
    by apply list_elem_of_here.
  assert (sentinel vdefault bc ∈ columns vdefault fc bc ts) as Hbin.
  { unfold columns. rewrite elem_of_cons, elem_of_app, list_elem_of_singleton. auto. }
  destruct (inv_vlookup _ _ _ _ _ _ _ _ I Hfin Htf) as (ntf & Hntf & Hkf & Hvf & Hdf & Huf).
  destruct (inv_vlookup _ _ _ _ _ _ _ _ I Hbin Htb) as (ntb & Hntb & Hkb & Hvb & Hdb & Hub).
  pose proof (inv_brk _ _ _ _ _ I) as Hbrk. rewrite Forall_forall in Hbrk.
  pose proof (inv_nodup _ _ _ _ _ I) as Hnd.
  rewrite addrs_columns in Hbrk, Hnd.
  assert (tf ∈ fc) as Htfin by (apply list_elem_of_lookup; eauto).
  assert (tb ∈ bc) as Htbin by (apply list_elem_of_lookup; eauto).
  assert (tf < brk s)%nat as Htflt.
  { apply Hbrk. rewrite !elem_of_app. auto. }
  assert (tb < brk s)%nat as Htblt.
  { apply Hbrk. rewrite !elem_of_app. auto. }
  pose proof Hnd as Hnd'. rewrite !NoDup_app in Hnd'.
  destruct Hnd' as (Hndf & Hdf1 & Hndt & Hdt & Hndb).
  assert (tf <> tb) as Hne.
  { intros ->. eapply Hdf1; [done|]. rewrite elem_of_app. auto. }
  unfold grow, alloc. simpl. rewrite Htf', Htb'.
  do 6 step_store.
  eexists. split; [reflexivity|]. simpl.
  match goal with |- context [mkSkipList ?h _ _ _ _ _ _ _] => set (h' := h) end.
  assert (h' !! brk s
          = Some (mkNode kdefault vdefault (Some (S (brk s))) None (Some tf) None))
    as Ha1 by (subst h'; heap_lookup).
  assert (h' !! S (brk s)
          = Some (mkNode kdefault vdefault None None (Some tb) (Some (brk s))))
    as Ha2 by (subst h'; heap_lookup).
  assert (h' !! tf = Some (set_up ntf (Some (brk s)))) as Htf2
    by (subst h'; heap_lookup).
  assert (h' !! tb = Some (set_up ntb (Some (S (brk s))))) as Htb2
    by (subst h'; heap_lookup).
  assert (forall b, (b < brk s)%nat -> b <> tf -> b <> tb ->
            h' !! b = heap s !! b) as Hoth
    by (intros; subst h'; heap_lookup).
  clearbody h'.
  assert (forall b, (b < brk s)%nat -> hagree (heap s) h' b) as Hh.
  { intros b Hb. destruct (decide (b = tf)) as [->|?]; [|destruct (decide (b = tb)) as [->|?]].
    - intros m Hm. simplify_eq. eexists. split; [done|]. done.
    - intros m Hm. simplify_eq. eexists. split; [done|]. done.
    - apply hagree_same. by apply Hoth. }
  assert (forall b, (b < brk s)%nat -> b <> tf -> b <> tb ->
            vagree (heap s) h' b) as Hv.
  { intros b ? ? ?. apply vagree_same. by apply Hoth. }
  split_and!; [|done..].
  pose proof (inv_v _ _ _ _ _ I) as Hvs. unfold columns in Hvs.
  rewrite Forall_cons, Forall_app, Forall_singleton in Hvs.
  destruct Hvs as (Hvf0 & Hvt & Hvb0).
  destruct (last_snoc_view fc tf) as [fc0 ->].
  { by rewrite <- (inv_topFront _ _ _ _ _ I). }
  destruct (last_snoc_view bc tb) as [bc0 ->].
  { by rewrite <- (inv_topBack _ _ _ _ _ I). }
  assert (addrs (columns vdefault ((fc0 ++ [tf]) ++ [brk s])
                   ((bc0 ++ [tb]) ++ [S (brk s)]) ts)
          ≡ₚ brk s :: S (brk s) :: ((fc0 ++ [tf]) ++ addrs ts ++ bc0 ++ [tb]))
    as Hperm.
  { rewrite addrs_columns. solve_Permutation. }
  constructor; simpl.
  - lia.
  - rewrite length_app. simpl. lia.
  - rewrite length_app. simpl. lia.
  - eapply Forall_impl; [apply (inv_heights _ _ _ _ _ I)|]. simpl. intros; lia.
  - rewrite Hperm, !NoDup_cons, elem_of_cons. split_and!; [|  |done].
    + intros [?|Hin%Hbrk]; lia.
    + intros Hin%Hbrk. lia.
  - rewrite Hperm, !Forall_cons. split_and!; [lia..|].
    rewrite Forall_forall. intros x Hx%Hbrk. lia.
  - unfold columns. rewrite Forall_cons, Forall_app, Forall_singleton.
    split_and!.
    + unfold sentinel. rewrite <- app_assoc. simpl.
      eapply vchain_snoc; [exact Hvf0| | |].
      * intros b Hb. apply Hv.
        -- apply Hbrk. rewrite !elem_of_app. auto.
        -- intros ->. apply NoDup_app in Hndf as (_ & Hd & _).
           eapply Hd; [done|]. apply list_elem_of_here.
        -- intros ->. eapply Hdf1; [|rewrite elem_of_app; right; exact Htbin].
           rewrite elem_of_app. auto.
      * intros m Hm. simplify_eq. eexists. split; [done|]. done.
      * eexists. split; [done|]. done.
    + rewrite Forall_forall in Hvt |- *. intros c Hc.
      eapply vchain_frame; [|by apply Hvt].
      intros a Ha.
      assert (a ∈ addrs ts) as Hin. { apply elem_of_addrs. eauto. }
      apply Hv.
      * apply Hbrk. rewrite !elem_of_app. auto.
      * intros ->. eapply Hdf1; [done|]. rewrite elem_of_app. auto.
      * intros ->. by eapply Hdt.
    + unfold sentinel. rewrite <- app_assoc. simpl.
      eapply vchain_snoc; [exact Hvb0| | |].
      * intros b Hb. apply Hv.
        -- apply Hbrk. rewrite !elem_of_app. auto.
        -- intros ->. eapply Hdf1; [done|]. rewrite !elem_of_app. auto.
        -- intros ->. apply NoDup_app in Hndb as (_ & Hd & _).
           eapply Hd; [done|]. apply list_elem_of_here.
      * intros m Hm. simplify_eq. eexists. split; [done|]. done.
      * eexists. split; [done|]. done.
  - intros i Hi. destruct (decide (i < SkipListLayers s)%nat) as [Hlt|Hge].
    + unfold hchain. rewrite layer_columns_grow by lia.
      eapply hchain_frame; [|by apply (inv_h _ _ _ _ _ I)].
      intros a Ha%layer_addrs. rewrite addrs_columns in Ha. by apply Hh, Hbrk.
    + assert (i = SkipListLayers s) as -> by lia.
      unfold hchain, columns. rewrite layer_cons, layer_app, layer_one. simpl.
      rewrite !lookup_app_r by lia. rewrite Hlf, Hlb, Nat.sub_diag. simpl.
      rewrite layer_short.
      2:{ eapply Forall_impl; [apply (inv_heights _ _ _ _ _ I)|]. simpl. intros; lia. }
      simpl. split_and!; [|  |done].
      * eexists. split; [exact Ha1|]. done.
      * eexists. split; [exact Ha2|]. done.
  - rewrite (inv_front _ _ _ _ _ I). destruct fc0; done.
  - rewrite (inv_back _ _ _ _ _ I). destruct bc0; done.
  - by rewrite last_snoc.
  - by rewrite last_snoc.
  - apply (inv_sorted _ _ _ _ _ I).
  - apply (inv_size _ _ _ _ _ I).
Qed.

Lemma addrs_columns_insert fc bc ts1 c ts2 :
  addrs (columns vdefault fc bc (ts1 ++ c :: ts2))
  ≡ₚ cnodes c ++ addrs (columns vdefault fc bc (ts1 ++ ts2)).
Proof.
  rewrite !addrs_columns, !addrs_app, addrs_cons. solve_Permutation.
Qed.

Lemma sorted_insert ts1 ts2 c :
  ascending (keys_of (ts1 ++ ts2)) ->
  Forall (fun t => ckey t < ckey c) ts1 ->
  Forall (fun t => ckey c <= ckey t) ts2 ->
  ascending (keys_of (ts1 ++ c :: ts2)).
Proof.
  unfold ascending, keys_of. rewrite !map_app. simpl.
  rewrite !StronglySorted_app, StronglySorted_cons.
  intros (H12 & H1 & H2) Hlow Hhigh. split_and!; [|done| |done].
  - intros x1 x2 (t1 & -> & Ht1)%list_elem_of_fmap Hx2.
    rewrite Forall_forall in Hlow. specialize (Hlow _ Ht1).
    apply elem_of_cons in Hx2 as [->|Hx2]; [lia|]. apply H12; [|done].
    by apply list_elem_of_fmap_2.
  - by rewrite Forall_fmap.
Qed.

Lemma link_base_spec s fc bc ts ts1 ts2 pre c x k v :
  SL_Inv vdefault s fc bc ts ->
  ts = ts1 ++ ts2 ->
  sentinel vdefault fc :: ts1 = pre ++ [c] ->
  cnodes c !! 0%nat = Some x ->
  Forall (fun t => ckey t < k) ts1 ->
  Forall (fun t => k <= ckey t) ts2 ->
  exists s',
    link_base k v s (Some x) = Ok s'
    /\ SL_Inv vdefault s' fc bc (ts1 ++ mkColumn k v [brk s] :: ts2)
    /\ brk s' = S (brk s)
    /\ SkipListLayers s' = SkipListLayers s
    /\ SkipListSize s' = S (SkipListSize s)
    /\ exists n, heap s' !! x = Some n /\ next n = Some (brk s).
Proof.
  intros I Hts Hpre Hx Hlow Hhigh.
  pose proof (inv_layers _ _ _ _ _ I) as HL.
  destruct (left_column_in _ fc bc _ _ _ _ _ Hts Hpre) as [Hsplit Hc].
  destruct (inv_hlookup _ _ _ _ _ _ _ _ _ _ I Hsplit Hx) as (nx & Hnx & _ & Hnxt).
  pose proof (inv_brk _ _ _ _ _ I) as Hbrk. rewrite Forall_forall in Hbrk.
  pose proof (inv_nodup _ _ _ _ _ I) as Hnd.
  assert (0 < SkipListLayers s)%nat as H0L by lia.
  pose proof (inv_h _ _ _ _ _ I _ H0L) as Hh0. unfold hchain in Hh0.
  pose proof (NoDup_layer 0 _ Hnd) as Hnd0.
  rewrite Hsplit, layer_app, layer_cons, Hx in Hh0, Hnd0.
  assert (0 < length bc)%nat as Hlb by (rewrite (inv_bc _ _ _ _ _ I); lia).
  destruct (layer_right vdefault bc ts2 _ Hlb) as (b0 & Hb0 & Hlay).
  destruct (layer 0 (ts2 ++ [sentinel vdefault bc])) as [|y Y] eqn:Hrest.
  { by destruct (layer 0 ts2). }
  simpl in Hnxt.
  destruct (seg_middle previous next (heap s) None (layer 0 pre ++ [x]) y Y None)
    as (ny & Hny & _).
  { by rewrite <- app_assoc. }
  assert (x <> y) as Hxy.
  { intros ->. apply NoDup_app in Hnd0 as (_ & _ & Hnd0).
    apply NoDup_cons in Hnd0 as [Hnd0 _]. apply Hnd0, list_elem_of_here. }
  assert (forall b, b ∈ layer 0 (columns vdefault fc bc ts) -> (b < brk s)%nat) as Hlt0.
  { intros b Hb%layer_addrs. by apply Hbrk. }
  rewrite Hsplit, layer_app, layer_cons, Hx, Hrest in Hlt0.
  assert (x < brk s)%nat as Hxlt.
  { apply Hlt0. rewrite elem_of_app, elem_of_cons. auto. }
  assert (y < brk s)%nat as Hylt.
  { apply Hlt0. rewrite elem_of_app, !elem_of_cons. auto. }
  unfold link_base, alloc. simpl.
  step_store. step_load. rewrite Hnxt. step_store. step_load. rewrite Hnxt.
  do 2 step_store.
  eexists. split; [reflexivity|]. simpl.
  match goal with |- context [mkSkipList ?h _ _ _ _ _ _ _] => set (h' := h) end.
  assert (h' !! brk s = Some (mkNode k v (Some y) None None (Some x))) as Ha
    by (subst h'; heap_lookup).
  assert (h' !! x = Some (set_next nx (Some (brk s)))) as Hx2
    by (subst h'; heap_lookup).
  assert (h' !! y = Some (set_previous ny (Some (brk s)))) as Hy2
    by (subst h'; heap_lookup).
  assert (forall b, (b < brk s)%nat -> b <> x -> b <> y ->
            h' !! b = heap s !! b) as Hoth
    by (intros; subst h'; heap_lookup).
  clearbody h'.
  assert (forall b, (b < brk s)%nat -> vagree (heap s) h' b) as Hv.
  { intros b Hb. destruct (decide (b = x)) as [->|?]; [|destruct (decide (b = y)) as [->|?]].
    - intros m Hm. simplify_eq. eexists. split; [done|]. done.
    - intros m Hm. simplify_eq. eexists. split; [done|]. done.
    - apply vagree_same. by apply Hoth. }
  split_and!; [|done..|by eauto].
  assert (columns vdefault fc bc (ts1 ++ mkColumn k v [brk s] :: ts2)
          = pre ++ c :: mkColumn k v [brk s] :: (ts2 ++ [sentinel vdefault bc]))
    as Hsplit'.
  { rewrite (columns_split _ _ _ _ _ _ _ Hpre). list_eq. }
  constructor; simpl.
  - done.
  - apply (inv_fc _ _ _ _ _ I).
  - apply (inv_bc _ _ _ _ _ I).
  - pose proof (inv_heights _ _ _ _ _ I) as Hh. rewrite Hts in Hh.
    rewrite Forall_app in Hh |- *. destruct Hh. split; [done|].
    constructor; [simpl; lia|done].
  - rewrite addrs_columns_insert. simpl. apply NoDup_cons. split.
    + intros Hin. rewrite <- Hts in Hin. apply Hbrk in Hin. lia.
    + by rewrite <- Hts.
  - rewrite addrs_columns_insert. simpl. constructor; [lia|].
    rewrite <- Hts. rewrite Forall_forall. intros b Hb%Hbrk. lia.
  - pose proof (inv_v _ _ _ _ _ I) as Hvs.
    rewrite Hsplit in Hvs. rewrite Hsplit'.
    rewrite Forall_app, Forall_cons in Hvs. rewrite Forall_app, !Forall_cons.
    destruct Hvs as (Hv1 & Hv2 & Hv3).
    assert (forall cs, Forall (vchain (heap s)) cs ->
              (forall c0, c0 ∈ cs -> c0 ∈ columns vdefault fc bc ts) ->
              Forall (vchain h') cs) as Hfr.
    { intros cs Hcs Hsub. rewrite Forall_forall in Hcs |- *. intros c0 Hc0.
      eapply vchain_frame; [|by apply Hcs]. intros b Hb. apply Hv, Hbrk.
      apply elem_of_addrs. exists c0. split; [by apply Hsub|done]. }
    split; [|split; [|split]].
    + apply Hfr; [done|]. intros c0 Hc0. rewrite Hsplit, elem_of_app. auto.
    + eapply vchain_frame; [|done]. intros b Hb. apply Hv, Hbrk.
      apply elem_of_addrs. eauto.
    + split; simpl.
      * split; [|done]. eexists. split; [exact Ha|]. done.
      * intros b Hb%list_elem_of_singleton. subst b. eexists. split; [exact Ha|]. done.
    + apply Hfr; [done|]. intros c0 Hc0. rewrite Hsplit, elem_of_app, elem_of_cons. auto.
  - intros i Hi. unfold hchain. rewrite Hsplit'.
    rewrite layer_app, !layer_cons. simpl.
    destruct i as [|i].
    + rewrite Hx. simpl. rewrite Hrest.
      eapply seg_insert; [exact Hh0| | | |].
      * intros b Hb. apply hagree_same. 
        assert (b ∈ layer 0 pre ++ x :: y :: Y) as Hb'.
        { rewrite elem_of_app in Hb |- *. rewrite !elem_of_cons. tauto. }
        apply Hoth.
        -- by apply Hlt0.
        -- intros ->. apply NoDup_app in Hnd0 as (_ & Hd & Hnd0).
           apply NoDup_cons in Hnd0 as [Hn1 Hnd0]. apply NoDup_cons in Hnd0 as [Hn2 _].
           apply elem_of_app in Hb as [Hb|Hb].
           ++ eapply Hd; [done|]. apply list_elem_of_here.
           ++ apply Hn1. by apply list_elem_of_further.
        -- intros ->. apply NoDup_app in Hnd0 as (_ & Hd & Hnd0).
           apply NoDup_cons in Hnd0 as [Hn1 Hnd0]. apply NoDup_cons in Hnd0 as [Hn2 _].
           apply elem_of_app in Hb as [Hb|Hb].
           ++ eapply Hd; [done|]. apply list_elem_of_further, list_elem_of_here.
           ++ by apply Hn2.
      * intros m Hm. simplify_eq. eexists. split; [done|]. done.
      * intros m Hm. simplify_eq. eexists. split; [done|]. done.
      * eexists. split; [exact Ha|]. done.
    + assert (S i < SkipListLayers s)%nat as Hi' by done.
      pose proof (inv_h _ _ _ _ _ I _ Hi') as Hhi. unfold hchain in Hhi.
      rewrite Hsplit, layer_app, layer_cons in Hhi.
      eapply seg_frame; [|exact Hhi].
      intros b Hb.
      assert (b ∈ layer (S i) (columns vdefault fc bc ts)) as Hb'.
      { by rewrite Hsplit, layer_app, layer_cons. }
      assert (forall z, z ∈ layer 0 (columns vdefault fc bc ts) -> b <> z) as Hz.
      { intros z Hz ->. by pose proof (layer_disjoint _ _ _ _ Hnd Hb' Hz). }
      apply hagree_same, Hoth.
      * apply Hbrk. by eapply layer_addrs.
      * apply Hz. rewrite Hsplit, layer_app, layer_cons, Hx, elem_of_app, elem_of_cons. auto.
      * apply Hz. rewrite Hsplit, layer_app, layer_cons, Hx, Hrest, elem_of_app, !elem_of_cons.
        auto.
  - apply (inv_front _ _ _ _ _ I).
  - apply (inv_back _ _ _ _ _ I).
  - apply (inv_topFront _ _ _ _ _ I).
  - apply (inv_topBack _ _ _ _ _ I).
  - apply (sorted_insert ts1 ts2 (mkColumn k v [brk s])); [|done..].
    rewrite <- Hts. apply (inv_sorted _ _ _ _ _ I).
  - rewrite (inv_size _ _ _ _ _ I), Hts, !length_app. simpl. lia.
Qed.

Lemma last_ptr_app_cons p (l1 : list addr) x l2 :
  last_ptr p (l1 ++ x :: l2) = last_ptr (Some x) l2.
Proof. unfold last_ptr. rewrite last_app_cons, last_cons. by destruct (last l2). Qed.

Lemma last_layer_view (l1 : list addr) x l2 :
  last (l1 ++ x :: l2) = last_ptr (Some x) l2.
Proof. unfold last_ptr. rewrite last_app_cons, last_cons. by destruct (last l2). Qed.

Lemma layer_length_le i (cols : list (@column V)) :
  (length (layer i cols) <= length cols)%nat.
Proof.
  induction cols as [|c cols IH]; [done|].
  rewrite layer_cons. destruct (cnodes c !! i); simpl; lia.
Qed.

(** Walking back along a layer ends at the nearest node with an upward
    link. *)
Lemma walk_back_spec h X x Y :
  (forall y, y ∈ Y -> exists n, h !! y = Some n /\ up n = None) ->
  (exists n u, h !! x = Some n /\ up n = Some u) ->
  forall fuel p q,
    seg previous next h p (X ++ x :: Y) q ->
    match walk_back fuel h (last_ptr (Some x) Y) with
    | Ok r => r = Some x
    | Timeout => (fuel <= length Y)%nat
    | _ => False
    end.
Proof.
  intros HY (nx & u & Hnx & Hux).
  induction Y as [|y Y IH] using rev_ind; intros fuel p q Hs.
  - destruct fuel as [|fuel]; simpl; [lia|].
    rewrite last_ptr_nil. rewrite (load_Some _ _ _ Hnx). simpl. by rewrite Hux.
  - destruct fuel as [|fuel]; simpl; [lia|].
    rewrite last_ptr_snoc.
    destruct (HY y) as (ny & Hny & Huy).
    { rewrite elem_of_app, list_elem_of_singleton. auto. }
    rewrite (load_Some _ _ _ Hny). simpl. rewrite Huy. simpl.
    assert (X ++ x :: Y ++ [y] = (X ++ x :: Y) ++ y :: []) as Heq by list_eq.
    rewrite Heq in Hs.
    destruct (seg_middle _ _ _ _ _ _ _ _ Hs) as (ny' & ? & Hp & _). simplify_eq.
    rewrite Hp, last_ptr_app_cons.
    apply seg_app in Hs as [Hs _].
    assert (forall y0, y0 ∈ Y -> exists n, h !! y0 = Some n /\ up n = None) as HY'.
    { intros y0 Hy0. apply HY. rewrite elem_of_app. auto. }
    specialize (IH HY' fuel _ _ Hs).
    destruct (walk_back fuel h (last_ptr (Some x) Y)); try done.
    rewrite length_app. simpl. lia.
Qed.

Lemma addrs_columns_extend fc bc ts1 k v nodes a ts2 :
  addrs (columns vdefault fc bc (ts1 ++ mkColumn k v (nodes ++ [a]) :: ts2))
  ≡ₚ a :: addrs (columns vdefault fc bc (ts1 ++ mkColumn k v nodes :: ts2)).
Proof. rewrite !addrs_columns_insert. simpl. solve_Permutation. Qed.

Lemma layer_extend i k (v : V) nodes a :
  i <> length nodes ->
  layer i [mkColumn k v (nodes ++ [a])] = layer i [mkColumn k v nodes].
Proof.
  intros Hi. rewrite !layer_one. simpl.
  destruct (decide (i < length nodes)%nat).
  - by rewrite lookup_app_l.
  - rewrite !lookup_ge_None_2; [done|lia|]. rewrite length_app. simpl. lia.
Qed.

(** One promotion: the tower of [k] gets a node on the next layer, linked in
    right of the nearest taller column on its left. *)
Lemma link_up_spec s fc bc ts ts1 ts2 k v nodes0 t r wfuel :
  SL_Inv vdefault s fc bc ts ->
  ts = ts1 ++ mkColumn k v (nodes0 ++ [t]) :: ts2 ->
  last (layer (length nodes0) (sentinel vdefault fc :: ts1)) = Some r ->
  (S (S (length nodes0)) < SkipListLayers s)%nat ->
  match link_up wfuel k v s (Some r) (Some t) with
  | Ok (s', rt, rt2) =>
      exists r',
        rt = Some r' /\ rt2 = Some (brk s)
        /\ SL_Inv vdefault s' fc bc
             (ts1 ++ mkColumn k v ((nodes0 ++ [t]) ++ [brk s]) :: ts2)
        /\ last (layer (S (length nodes0)) (sentinel vdefault fc :: ts1))
           = Some r'
        /\ brk s' = S (brk s)
        /\ SkipListLayers s' = SkipListLayers s
        /\ SkipListSize s' = SkipListSize s
  | Timeout => (wfuel <= length ts1)%nat
  | _ => False
  end.
Proof.
  intros I Hts Hr HjL.
  set (j0 := length nodes0) in *.
  set (col := mkColumn k v (nodes0 ++ [t])) in *.
  set (lcols := sentinel vdefault fc :: ts1) in *.
  set (rcols := ts2 ++ [sentinel vdefault bc]).
  assert (columns vdefault fc bc ts = lcols ++ col :: rcols) as Hcols.
  { unfold columns, lcols, rcols. rewrite Hts. list_eq. }
  pose proof (inv_brk _ _ _ _ _ I) as Hbrk. rewrite Forall_forall in Hbrk.
  pose proof (inv_nodup _ _ _ _ _ I) as Hnd.
  pose proof (inv_fc _ _ _ _ _ I) as Hlf.
  pose proof (inv_bc _ _ _ _ _ I) as Hlb.
  (* the nearest taller column on the left *)
  destruct (lookup_lt_is_Some_2 fc (S j0)) as [fj Hfj]; [lia|].
  destruct (snoc_view fj (layer (S j0) ts1)) as (R & u & HRu).
  assert (layer (S j0) lcols = R ++ [u]) as Hlj.
  { unfold lcols. rewrite layer_cons. simpl. by rewrite Hfj. }
  destruct (layer_last _ _ _ _ Hlj) as (B1 & cs & B2 & HB & HB2 & Hu & HB1).
  assert (exists x, cnodes cs !! j0 = Some x) as [x Hx].
  { apply lookup_lt_is_Some_2. apply lookup_lt_Some in Hu. lia. }
  assert (columns vdefault fc bc ts = B1 ++ cs :: (B2 ++ col :: rcols)) as Hcols2.
  { rewrite Hcols, HB. list_eq. }
  assert (forall c0, c0 ∈ lcols ++ rcols -> c0 ∈ columns vdefault fc bc ts) as Hsub.
  { intros c0. rewrite Hcols, !elem_of_app, elem_of_cons. tauto. }
  assert (cs ∈ columns vdefault fc bc ts) as Hcsin.
  { rewrite Hcols2, elem_of_app, elem_of_cons. auto. }
  destruct (inv_vlookup _ _ _ _ _ _ _ _ I Hcsin Hx) as (nx & Hnx & _ & _ & _ & Hux).
  rewrite Hu in Hux.
  assert (forall y, y ∈ layer j0 B2 ->
            exists n, heap s !! y = Some n /\ up n = None) as HY.
  { intros y (cy & Hcy & Hy)%elem_of_layer.
    assert (cy ∈ columns vdefault fc bc ts) as Hcyin.
    { rewrite Hcols2, !elem_of_app, !elem_of_cons, elem_of_app. auto. }
    destruct (inv_vlookup _ _ _ _ _ _ _ _ I Hcyin Hy) as (ny & Hny & _ & _ & _ & Huy).
    exists ny. split; [done|]. rewrite Huy. apply lookup_ge_None_2.
    apply layer_nil_short in HB2. rewrite Forall_forall in HB2. by apply HB2. }
  assert (last_ptr (Some x) (layer j0 B2) = Some r) as Hlast.
  { rewrite <- Hr, HB, layer_app, layer_cons, Hx. symmetry. apply last_layer_view. }
  assert (j0 < SkipListLayers s)%nat as Hj0L by lia.
  pose proof (inv_h _ _ _ _ _ I _ Hj0L) as Hh0. unfold hchain in Hh0.
  rewrite Hcols2, layer_app, layer_cons, Hx, layer_app in Hh0.
  assert (layer j0 B1 ++ x :: layer j0 B2 ++ layer j0 (col :: rcols)
          = (layer j0 B1 ++ x :: layer j0 B2) ++ layer j0 (col :: rcols))
    as Heq by list_eq.
  rewrite Heq in Hh0. apply seg_app in Hh0 as [Hh0 _].
  pose proof (walk_back_spec (heap s) _ x _ HY
                (ex_intro _ nx (ex_intro _ u (conj Hnx Hux))) wfuel _ _ Hh0) as Hw.
  unfold link_up. rewrite <- Hlast.
  destruct (walk_back wfuel (heap s) (last_ptr (Some x) (layer j0 B2)))
    as [rr| | |]; simpl; try done.
  2:{ pose proof (layer_length_le j0 B2).
      assert (length lcols = S (length ts1)) as Hll by done.
      rewrite HB, length_app in Hll. simpl in Hll. lia. }
  subst rr.
  (* the nodes the links go through *)
  destruct (inv_hlookup _ _ _ _ _ _ _ _ _ _ I Hcols2 Hu) as (nu & Hnu & _ & Hnun).
  assert (cnodes col !! S j0 = None) as Hcolj.
  { apply lookup_ge_None_2. unfold col. simpl. rewrite length_app. simpl.
    fold j0. lia. }
  rewrite layer_app, HB2, layer_cons, Hcolj in Hnun. simpl in Hnun.
  assert (S j0 < length bc)%nat as Hjb by lia.
  destruct (layer_right vdefault bc ts2 _ Hjb) as (bj & Hbj & Hlay).
  fold rcols in Hlay.
  destruct (layer (S j0) rcols) as [|y Y] eqn:Hrest.
  { by destruct (layer (S j0) ts2). }
  simpl in Hnun.
  assert (layer (S j0) (columns vdefault fc bc ts) = R ++ u :: y :: Y) as HLj.
  { rewrite Hcols, layer_app, Hlj, layer_cons, Hcolj, Hrest. list_eq. }
  assert (S j0 < SkipListLayers s)%nat as HjL' by lia.
  pose proof (inv_h _ _ _ _ _ I _ HjL') as Hhj. unfold hchain in Hhj.
  pose proof (NoDup_layer (S j0) _ Hnd) as Hndj.
  rewrite HLj in Hhj, Hndj.
  destruct (seg_middle previous next (heap s) None (R ++ [u]) y Y None)
    as (ny & Hny & _).
  { by rewrite <- app_assoc. }
  assert (col ∈ columns vdefault fc bc ts) as Hcolin.
  { rewrite Hcols, elem_of_app, elem_of_cons. auto. }
  assert (cnodes col !! j0 = Some t) as Ht.
  { unfold col. simpl. rewrite lookup_app_r by (fold j0; lia).
    by rewrite Nat.sub_diag. }
  destruct (inv_vlookup _ _ _ _ _ _ _ _ I Hcolin Ht) as (nt & Hnt & Hkt & Hvt & Hdt & Hut).
  assert (forall b, b ∈ layer (S j0) (columns vdefault fc bc ts) -> (b < brk s)%nat)
    as Hltj.
  { intros b Hb%layer_addrs. by apply Hbrk. }
  assert (u ∈ layer (S j0) (columns vdefault fc bc ts)) as Huin.
  { rewrite HLj, elem_of_app, elem_of_cons. auto. }
  assert (y ∈ layer (S j0) (columns vdefault fc bc ts)) as Hyin.
  { rewrite HLj, elem_of_app, !elem_of_cons. auto. }
  assert (t ∈ layer j0 (columns vdefault fc bc ts)) as Htin.
  { apply elem_of_layer. eauto. }
  assert (x ∈ layer j0 (columns vdefault fc bc ts)) as Hxin.
  { apply elem_of_layer. eauto. }
  assert (u < brk s)%nat as Hult by auto.
  assert (y < brk s)%nat as Hylt by auto.
  assert (t < brk s)%nat as Htlt.
  { apply Hbrk. by eapply layer_addrs. }
  assert (x < brk s)%nat as Hxlt.
  { apply Hbrk. by eapply layer_addrs. }
  assert (u <> y) as Huy.
  { intros ->. apply NoDup_app in Hndj as (_ & _ & Hndj).
    apply NoDup_cons in Hndj as [Hndj _]. apply Hndj, list_elem_of_here. }
  assert (t <> u) as Htu.
  { intros ->. pose proof (layer_disjoint _ _ _ _ Hnd Htin Huin). lia. }
  assert (t <> y) as Hty.
  { intros ->. pose proof (layer_disjoint _ _ _ _ Hnd Htin Hyin). lia. }
  step_load. rewrite Hux. do 2 step_store. step_load. rewrite Hnun.
  do 2 step_store. step_load. rewrite Hnun. do 2 step_store.
  exists u. split; [done|]. split; [done|]. unfold with_heap. simpl.
  match goal with |- context [mkSkipList ?h _ _ _ _ _ _ _] => set (h' := h) end.
  assert (h' !! brk s = Some (mkNode k v (Some y) None (Some t) (Some u))) as Ha
    by (subst h'; heap_lookup).
  assert (h' !! u = Some (set_next nu (Some (brk s)))) as Hu2
    by (subst h'; heap_lookup).
  assert (h' !! y = Some (set_previous ny (Some (brk s)))) as Hy2
    by (subst h'; heap_lookup).
  assert (h' !! t = Some (set_up nt (Some (brk s)))) as Ht2
    by (subst h'; heap_lookup).
  assert (forall b, (b < brk s)%nat -> b <> u -> b <> y -> b <> t ->
            h' !! b = heap s !! b) as Hoth
    by (intros; subst h'; heap_lookup).
  clearbody h'.
  assert (forall b, (b < brk s)%nat -> b <> t -> vagree (heap s) h' b) as Hv.
  { intros b Hb Hbt.
    destruct (decide (b = u)) as [->|?]; [|destruct (decide (b = y)) as [->|?]].
    - intros m Hm. simplify_eq. eexists. split; [done|]. done.
    - intros m Hm. simplify_eq. eexists. split; [done|]. done.
    - apply vagree_same. by apply Hoth. }
  assert (forall b, (b < brk s)%nat -> b <> u -> b <> y -> hagree (heap s) h' b) as Hh.
  { intros b Hb Hbu Hby. destruct (decide (b = t)) as [->|?].
    - intros m Hm. simplify_eq. eexists. split; [done|]. done.
    - apply hagree_same. by apply Hoth. }
  split; [|split; [by rewrite Hlj, last_snoc|done]].
  assert (columns vdefault fc bc
            (ts1 ++ mkColumn k v ((nodes0 ++ [t]) ++ [brk s]) :: ts2)
          = lcols ++ mkColumn k v ((nodes0 ++ [t]) ++ [brk s]) :: rcols) as Hcols'.
  { unfold columns, lcols, rcols. list_eq. }
  assert (forall c0 b, c0 ∈ lcols ++ rcols -> b ∈ cnodes c0 ->
            (b < brk s)%nat /\ b <> t) as Hside.
  { intros c0 b Hc0 Hb. split.
    - apply Hbrk, elem_of_addrs. exists c0. split; [by apply Hsub|done].
    - intros ->. rewrite Hcols in Hnd.
      eapply (column_disjoint lcols col rcols t Hnd).
      + apply list_elem_of_lookup. eauto.
      + apply elem_of_addrs. eauto. }
  assert (forall cl, Forall (vchain (heap s)) cl ->
            (forall c0, c0 ∈ cl -> c0 ∈ lcols ++ rcols) ->
            Forall (vchain h') cl) as Hfr.
  { intros cl Hcs Hin. rewrite Forall_forall in Hcs |- *. intros c0 Hc0.
    eapply vchain_frame; [|by apply Hcs]. intros b Hb.
    destruct (Hside c0 b (Hin _ Hc0) Hb). by apply Hv. }
  constructor; simpl.
  - apply (inv_layers _ _ _ _ _ I).
  - done.
  - done.
  - pose proof (inv_heights _ _ _ _ _ I) as Hhs. rewrite Hts in Hhs.
    rewrite Forall_app, Forall_cons in Hhs. rewrite Forall_app, Forall_cons.
    destruct Hhs as (? & ? & ?). split; [done|split; [|done]].
    simpl. rewrite !length_app. simpl. fold j0. lia.
  - rewrite addrs_columns_extend, NoDup_cons. fold col. rewrite <- Hts.
    split; [|done]. intros Hin%Hbrk. lia.
  - rewrite addrs_columns_extend, Forall_cons. fold col. rewrite <- Hts.
    split; [lia|]. rewrite Forall_forall. intros b Hb%Hbrk. lia.
  - pose proof (inv_v _ _ _ _ _ I) as Hvs. rewrite Hcols in Hvs.
    rewrite Forall_app, Forall_cons in Hvs. rewrite Hcols', Forall_app, Forall_cons.
    destruct Hvs as (Hv1 & Hv2 & Hv3). split; [|split].
    + apply Hfr; [done|]. intros c0 Hc0. rewrite elem_of_app. auto.
    + rewrite <- app_assoc. simpl. eapply vchain_snoc; [exact Hv2| | |].
      * intros b Hb. apply Hv.
        -- apply Hbrk, elem_of_addrs. exists col. split; [done|].
           unfold col. simpl. rewrite elem_of_app. auto.
        -- intros ->. rewrite Hcols in Hnd. apply NoDup_column in Hnd.
           unfold col in Hnd. simpl in Hnd.
           apply NoDup_app in Hnd as (_ & Hd & _).
           eapply Hd; [done|]. apply list_elem_of_here.
      * intros m Hm. simplify_eq. eexists. split; [done|]. done.
      * eexists. split; [exact Ha|]. done.
    + apply Hfr; [done|]. intros c0 Hc0. rewrite elem_of_app. auto.
  - intros i Hi. unfold hchain. rewrite Hcols'.
    destruct (decide (i = S j0)) as [->|Hne].
    + rewrite layer_app, Hlj, layer_cons. simpl.
      rewrite lookup_app_r by (rewrite length_app; simpl; fold j0; lia).
      rewrite length_app. simpl. fold j0.
      replace (S j0 - (j0 + 1))%nat with 0%nat by lia. simpl.
      rewrite Hrest, <- app_assoc. simpl.
      eapply seg_insert; [exact Hhj| | | |].
      * intros b Hb. apply Hh.
        -- apply Hltj. rewrite HLj. rewrite elem_of_app in Hb |- *.
           rewrite !elem_of_cons. tauto.
        -- intros ->. apply NoDup_app in Hndj as (_ & Hd & Hndj).
           apply NoDup_cons in Hndj as [Hn1 Hndj].
           apply elem_of_app in Hb as [Hb|Hb].
           ++ eapply Hd; [done|]. apply list_elem_of_here.
           ++ apply Hn1. by apply list_elem_of_further.
        -- intros ->. apply NoDup_app in Hndj as (_ & Hd & Hndj).
           apply NoDup_cons in Hndj as [Hn1 Hndj]. apply NoDup_cons in Hndj as [Hn2 _].
           apply elem_of_app in Hb as [Hb|Hb].
           ++ eapply Hd; [done|]. apply list_elem_of_further, list_elem_of_here.
           ++ by apply Hn2.
      * intros m Hm. simplify_eq. eexists. split; [done|]. done.
      * intros m Hm. simplify_eq. eexists. split; [done|]. done.
      * eexists. split; [exact Ha|]. done.
    + assert (layer i (lcols ++ mkColumn k v ((nodes0 ++ [t]) ++ [brk s]) :: rcols)
              = layer i (columns vdefault fc bc ts)) as Hsame.
      { rewrite Hcols, !layer_app.
        change (mkColumn k v ((nodes0 ++ [t]) ++ [brk s]) :: rcols)
          with ([mkColumn k v ((nodes0 ++ [t]) ++ [brk s])] ++ rcols).
        change (col :: rcols) with ([col] ++ rcols).
        rewrite !layer_app, layer_extend; [done|].
        rewrite length_app. simpl. fold j0. lia. }
      rewrite Hsame. eapply seg_frame; [|by apply (inv_h _ _ _ _ _ I)].
      intros b Hb. apply Hh.
      * apply Hbrk. by eapply layer_addrs.
      * intros ->. by pose proof (layer_disjoint _ _ _ _ Hnd Hb Huin).
      * intros ->. by pose proof (layer_disjoint _ _ _ _ Hnd Hb Hyin).
  - apply (inv_front _ _ _ _ _ I).
  - apply (inv_back _ _ _ _ _ I).
  - apply (inv_topFront _ _ _ _ _ I).
  - apply (inv_topBack _ _ _ _ _ I).
  - pose proof (inv_sorted _ _ _ _ _ I) as Hs. rewrite Hts in Hs.
    unfold keys_of in *. rewrite map_app in Hs |- *. exact Hs.
  - rewrite (inv_size _ _ _ _ _ I), Hts, !length_app. done.
Qed.

Lemma cap_reached_iff s :
  cap_reached s = true <-> SkipListLayers s = layer_cap (SkipListSize s).
Proof.
  unfold cap_reached, layer_cap.
  destruct (SkipListSize s <=? 16)%nat eqn:Hle.
  - apply Nat.leb_le in Hle.
    assert ((16 <? SkipListSize s)%nat = false) as -> by (apply Nat.ltb_ge; lia).
    simpl. rewrite orb_false_r. apply Nat.eqb_eq.
  - apply Nat.leb_gt in Hle.
    assert ((16 <? SkipListSize s)%nat = true) as -> by (by apply Nat.ltb_lt).
    simpl. apply Nat.eqb_eq.
Qed.

Lemma layer_cap_ge n : (13 <= layer_cap n)%nat.
Proof.
  unfold layer_cap. destruct (n <=? 16)%nat eqn:Hle; [done|].
  apply Nat.leb_gt in Hle.
  assert (Nat.log2_up 17 <= Nat.log2_up n)%nat as H
    by (apply Nat.log2_up_le_mono; lia).
  change (Nat.log2_up 17) with 5%nat in H. lia.
Qed.

Lemma layer_cap_mono n m : (n <= m)%nat -> (layer_cap n <= layer_cap m)%nat.
Proof.
  intros Hnm. pose proof (layer_cap_ge m) as Hm. unfold layer_cap in *.
  destruct (n <=? 16)%nat eqn:Hn; [done|].
  apply Nat.leb_gt in Hn.
  assert ((m <=? 16)%nat = false) as -> by (apply Nat.leb_gt; lia).
  pose proof (Nat.log2_up_le_mono n m Hnm). lia.
Qed.

Lemma promote_S fuel wfuel k v s flips rt rt2 j :
  promote vdefault (S fuel) wfuel k v s flips rt rt2 j
  = if flipCoin k flips then
      do s <- (if (j =? SkipListLayers s - 1)%nat then grow vdefault s
               else Ok s);
      do r <- link_up wfuel k v s rt rt2;
      let '(s, rt, rt2) := r in
      if cap_reached s then Ok s
      else promote vdefault fuel wfuel k v s (S flips) rt rt2 (S j)
    else Ok s.
Proof. reflexivity. Qed.

(** The promotion loop keeps the invariant; it returns when the walk back
    has fuel for the columns on the left and the loop has fuel up to the
    cap. *)
Lemma promote_spec k v ts1 ts2 wfuel :
  forall fuel s fc bc nodes0 t r flips,
    SL_Inv vdefault s fc bc (ts1 ++ mkColumn k v (nodes0 ++ [t]) :: ts2) ->
    last (layer (length nodes0) (sentinel vdefault fc :: ts1)) = Some r ->
    match promote vdefault fuel wfuel k v s flips (Some r) (Some t)
            (S (length nodes0)) with
    | Ok s' =>
        exists fc' bc' nodes',
          SL_Inv vdefault s' fc' bc' (ts1 ++ mkColumn k v nodes' :: ts2)
          /\ SkipListSize s' = SkipListSize s
          /\ (SkipListLayers s <= SkipListLayers s')%nat
          /\ (capped s (S (length nodes0)) ->
              (SkipListLayers s' <= layer_cap (SkipListSize s'))%nat)
    | Timeout =>
        (wfuel <= length ts1)%nat
        \/ ~ capped s (S (length nodes0))
        \/ (fuel + S (length nodes0) <= layer_cap (SkipListSize s))%nat
    | _ => False
    end.
Proof.
  induction fuel as [|fuel IH]; intros s fc bc nodes0 t r flips I Hr.
  { simpl. destruct (decide (capped s (S (length nodes0)))) as [[Hc1 Hc2]|]; [|tauto].
    right. right.
    pose proof (inv_heights _ _ _ _ _ I) as Hh.
    rewrite Forall_app, Forall_cons in Hh. destruct Hh as (_ & Hh & _).
    simpl in Hh. rewrite length_app in Hh. simpl in Hh. lia. }
  rewrite promote_S. destruct (flipCoin k flips).
  2:{ exists fc, bc, (nodes0 ++ [t]). split_and!; [done..|]. by intros []. }
  pose proof (inv_heights _ _ _ _ _ I) as Hh.
  rewrite Forall_app, Forall_cons in Hh. destruct Hh as (_ & Hh & _).
  simpl in Hh. rewrite length_app in Hh. simpl in Hh.
  assert (exists s1 fc1 bc1,
            (if (S (length nodes0) =? SkipListLayers s - 1)%nat
             then grow vdefault s else Ok s) = Ok s1
            /\ SL_Inv vdefault s1 fc1 bc1 (ts1 ++ mkColumn k v (nodes0 ++ [t]) :: ts2)
            /\ last (layer (length nodes0) (sentinel vdefault fc1 :: ts1)) = Some r
            /\ (S (S (length nodes0)) < SkipListLayers s1)%nat
            /\ SkipListSize s1 = SkipListSize s
            /\ (SkipListLayers s <= SkipListLayers s1)%nat
            /\ (capped s (S (length nodes0)) ->
                (SkipListLayers s1 <= layer_cap (SkipListSize s))%nat))
    as (s1 & fc1 & bc1 & -> & I1 & Hr1 & HjL & Hsz1 & HL1 & Hcap1).
  { destruct (S (length nodes0) =? SkipListLayers s - 1)%nat eqn:Htop.
    - apply Nat.eqb_eq in Htop.
      destruct (grow_spec _ _ _ _ I) as (s1 & Hg & I1 & _ & HL1 & Hs1).
      exists s1, (fc ++ [brk s]), (bc ++ [S (brk s)]).
      split_and!; [done..| | | | |].
      + rewrite layer_sentinel_grow; [done|]. rewrite (inv_fc _ _ _ _ _ I). lia.
      + lia.
      + done.
      + lia.
      + intros [Hc1 Hc2]. rewrite HL1. lia.
    - apply Nat.eqb_neq in Htop.
      exists s, fc, bc. split_and!; [done..|lia|done|lia|by intros []]. }
  simpl.
  pose proof (link_up_spec s1 fc1 bc1 _ ts1 ts2 k v nodes0 t r wfuel I1 eq_refl Hr1 HjL)
    as Hl.
  destruct (link_up wfuel k v s1 (Some r) (Some t)) as [[[s2 rt] rt2]| | |];
    simpl; try done; [|by left].
  destruct Hl as (r' & -> & -> & I2 & Hr2 & _ & HL2 & Hsz2).
  destruct (cap_reached s2) eqn:Hcap.
  - apply cap_reached_iff in Hcap.
    exists fc1, bc1, ((nodes0 ++ [t]) ++ [brk s1]).
    split_and!; [done|congruence|lia|]. intros _. lia.
  - assert (SkipListLayers s2 <> layer_cap (SkipListSize s2)) as Hncap.
    { intros Heq%cap_reached_iff. congruence. }
    assert (length (nodes0 ++ [t]) = S (length nodes0)) as Hlen.
    { rewrite length_app. simpl. lia. }
    rewrite <- Hlen in Hr2.
    specialize (IH s2 fc1 bc1 (nodes0 ++ [t]) (brk s1) r' (S flips) I2 Hr2).
    rewrite Hlen in IH.
    assert (capped s (S (length nodes0)) -> capped s2 (S (S (length nodes0)))) as Hpre.
    { intros Hc. specialize (Hcap1 Hc). split.
      - rewrite Hsz2, Hsz1, HL2. done.
      - intros Heq. by destruct Hncap. }
    destruct (promote vdefault fuel wfuel k v s2 (S flips) (Some r') (Some (brk s1))
                (S (S (length nodes0)))) as [s'| | |]; try done.
    + destruct IH as (fc' & bc' & nodes' & I' & Hsz' & HL' & Hcap').
      exists fc', bc', nodes'. split_and!; [done|congruence|lia|].
      intros Hc. apply Hcap'. by apply Hpre.
    + destruct IH as [?|[Hn|Hf]]; [by left| |].
      * right. left. intros Hc. by apply Hn, Hpre.
      * right. right. rewrite Hsz2, Hsz1 in Hf. lia.
Qed.

(** [insert] always links a new tower in at the place of [k] and returns
    [true]; it returns when the fuel covers the walk over the structure and
    the layer count has not passed the cap. *)
Lemma insert_spec s fc bc ts k v fuel :
  SL_Inv vdefault s fc bc ts ->
  match insert vdefault fuel k v s with
  | Ok (b, s') =>
      b = true
      /\ exists fc' bc' ts1 ts2 nodes',
           ts = ts1 ++ ts2
           /\ Forall (fun t => ckey t < k) ts1
           /\ Forall (fun t => k <= ckey t) ts2
           /\ SL_Inv vdefault s' fc' bc' (ts1 ++ mkColumn k v nodes' :: ts2)
           /\ SkipListSize s' = S (SkipListSize s)
           /\ (SkipListLayers s <= SkipListLayers s')%nat
           /\ ((SkipListLayers s <= layer_cap (SkipListSize s))%nat ->
               (SkipListLayers s' <= layer_cap (SkipListSize s'))%nat)
  | Timeout =>
      (fuel < brk s)%nat
      \/ ~ (SkipListLayers s <= layer_cap (SkipListSize s))%nat
      \/ (fuel <= layer_cap (S (SkipListSize s)))%nat
  | _ => False
  end.
Proof.
  intros I. unfold insert.
  destruct (inv_top _ _ _ _ _ I) as (tf & tb & Htf & _ & -> & _).
  pose proof (inv_fuel _ _ _ _ _ I) as Hfuel.
  pose proof (inv_layers _ _ _ _ _ I) as HL.
  pose proof (descend_spec _ s fc bc ts k I fuel [] (sentinel vdefault fc) [] ts
                (SkipListLayers s - 1) tf eq_refl eq_refl Htf (Forall_nil_2 _)) as Hd.
  destruct (descend fuel (heap s) k (Some tf)) as [r| | |]; simpl; try done;
    [|left; lia].
  destruct Hd as (pre0 & c0 & ts10 & ts20 & b0 & Hts0 & Hpre0 & Hb0 & -> & Hlow0).
  pose proof (insert_scan_spec _ s fc bc ts k I fuel pre0 c0 ts10 ts20 b0
                Hts0 Hpre0 Hb0 Hlow0) as Hs.
  destruct (insert_scan fuel (heap s) k (Some b0)) as [[r|]| | |]; simpl; try done.
  2:{ left. rewrite Hts0, length_app in Hfuel. lia. }
  destruct Hs as (pre & c & ts1 & ts2 & x & Hts & Hpre & Hx & -> & Hlow & Hhigh).
  destruct (link_base_spec s fc bc ts ts1 ts2 pre c x k v I Hts Hpre Hx Hlow Hhigh)
    as (s2 & -> & I2 & Hbrk2 & HL2 & Hsz2 & n & Hn & Hnn).
  simpl. rewrite (load_Some _ _ _ Hn). simpl. rewrite Hnn.
  assert (last (layer (length (@nil nat)) (sentinel vdefault fc :: ts1)) = Some x)
    as Hr.
  { cbn [length]. rewrite Hpre, layer_app, layer_one, Hx. apply last_snoc. }
  pose proof (promote_spec k v ts1 ts2 fuel fuel s2 fc bc [] (brk s) x 0%nat I2 Hr)
    as Hp.
  simpl in Hp.
  assert (capped s2 1 <-> (SkipListLayers s <= layer_cap (SkipListSize s2))%nat) as Hcap.
  { unfold capped. rewrite HL2. pose proof (layer_cap_ge (SkipListSize s2)).
    split; [tauto|]. intros ?. split; [done|lia]. }
  assert ((SkipListLayers s <= layer_cap (SkipListSize s))%nat ->
          (SkipListLayers s <= layer_cap (SkipListSize s2))%nat) as Hmono.
  { intros ?. etrans; [done|]. apply layer_cap_mono. lia. }
  destruct (promote vdefault fuel fuel k v s2 0 (Some x) (Some (brk s)) 1)
    as [s'| | |]; simpl; try done.
  - split; [done|].
    destruct Hp as (fc' & bc' & nodes' & I' & Hsz' & HL' & Hcap').
    exists fc', bc', ts1, ts2, nodes'. split_and!; [done..|lia|lia|].
    intros Hc. apply Hcap', Hcap, Hmono, Hc.
  - destruct Hp as [?|[Hn'|?]].
    + left. rewrite Hts, length_app in Hfuel. lia.
    + right. left. intros Hc. apply Hn', Hcap, Hmono, Hc.
    + right. right. rewrite Hsz2 in *. lia.
Qed.

Lemma layer_sub l (A B : list (@column V)) c b :
  b ∈ layer l (A ++ B) -> b ∈ layer l (A ++ c :: B).
Proof.
  rewrite !layer_app, layer_cons, !elem_of_app.
  destruct (cnodes c !! l); [rewrite elem_of_cons|]; tauto.
Qed.

Lemma unlink_S fuel h tmp :
  unlink (S fuel) h tmp
  = match tmp with
    | None => Ok h
    | Some a =>
        do n <- load h tmp;
        do h <- store set_next h (previous n) (next n);
        do h <- store set_previous h (next n) (previous n);
        do n <- load h tmp;
        unlink fuel (delete a h) (up n)
    end.
Proof. reflexivity. Qed.

(** [erase]'s loop takes the tower [c] out of every layer it reaches. *)
Lemma unlink_spec s fc bc ts tsA c tsB :
  SL_Inv vdefault s fc bc ts ->
  ts = tsA ++ c :: tsB ->
  forall fuel i h,
    (forall l, (l < SkipListLayers s)%nat ->
       seg previous next h None
         (layer l (if (l <? i)%nat
                   then (sentinel vdefault fc :: tsA) ++ tsB ++ [sentinel vdefault bc]
                   else (sentinel vdefault fc :: tsA) ++ c :: tsB ++ [sentinel vdefault bc]))
         None) ->
    Forall (vchain h) ((sentinel vdefault fc :: tsA) ++ tsB ++ [sentinel vdefault bc]) ->
    (forall l a, (i <= l)%nat -> cnodes c !! l = Some a ->
       exists n, h !! a = Some n /\ up n = cnodes c !! S l) ->
    (i <= length (cnodes c))%nat ->
    match unlink fuel h (cnodes c !! i) with
    | Ok h' =>
        (forall l, (l < SkipListLayers s)%nat ->
           seg previous next h' None
             (layer l ((sentinel vdefault fc :: tsA) ++ tsB ++ [sentinel vdefault bc]))
             None)
        /\ Forall (vchain h')
             ((sentinel vdefault fc :: tsA) ++ tsB ++ [sentinel vdefault bc])
    | Timeout => (fuel + i <= length (cnodes c))%nat
    | _ => False
    end.
Proof.
  intros I Hts.
  set (A := sentinel vdefault fc :: tsA).
  set (B := tsB ++ [sentinel vdefault bc]).
  assert (columns vdefault fc bc ts = A ++ c :: B) as Hcols.
  { unfold columns, A, B. rewrite Hts. list_eq. }
  pose proof (inv_nodup _ _ _ _ _ I) as Hnd. rewrite Hcols in Hnd.
  assert (c ∈ columns vdefault fc bc ts) as Hcin.
  { rewrite Hcols, elem_of_app, elem_of_cons. auto. }
  pose proof (inv_col_length _ _ _ _ _ _ I Hcin) as Hclen.
  induction fuel as [|fuel IH]; intros i h Hh Hv Hc Hile.
  { simpl. lia. }
  rewrite unlink_S. destruct (cnodes c !! i) as [a|] eqn:Ha.
  2:{ split; [|done]. intros l Hl. specialize (Hh l Hl).
      destruct (l <? i)%nat eqn:Hli; [done|].
      apply Nat.ltb_ge in Hli. apply lookup_ge_None in Ha.
      rewrite layer_app, layer_cons, lookup_ge_None_2 in Hh by lia.
      by rewrite layer_app. }
  assert (i < SkipListLayers s)%nat as HiL.
  { apply lookup_lt_Some in Ha. lia. }
  destruct (Hc i a (le_n _) Ha) as (n & Hn & Hup).
  pose proof (Hh i HiL) as Hhi. rewrite Nat.ltb_irrefl in Hhi.
  pose proof (NoDup_layer i _ Hnd) as Hndi.
  rewrite layer_app, layer_cons, Ha in Hhi, Hndi.
  destruct (lookup_lt_is_Some_2 fc i) as [fi Hfi].
  { rewrite (inv_fc _ _ _ _ _ I). lia. }
  destruct (snoc_view fi (layer i tsA)) as (X & xp & HX).
  assert (layer i A = X ++ [xp]) as HlA.
  { unfold A. rewrite layer_cons. simpl. by rewrite Hfi. }
  assert (i < length bc)%nat as Hib by (rewrite (inv_bc _ _ _ _ _ I); lia).
  destruct (layer_right vdefault bc tsB _ Hib) as (bi & Hbi & HlB).
  fold B in HlB.
  destruct (layer i B) as [|yn Y] eqn:HlB'.
  { by destruct (layer i tsB). }
  rewrite HlA in Hhi, Hndi. rewrite <- app_assoc in Hhi, Hndi. simpl in Hhi, Hndi.
  destruct (seg_middle previous next h None (X ++ [xp]) a (yn :: Y) None)
    as (n' & Hn' & Hnp & Hnn).
  { by rewrite <- app_assoc. }
  rewrite last_ptr_snoc in Hnp. simpl in Hnn. simplify_eq.
  destruct (seg_middle _ _ _ _ X xp (a :: yn :: Y) None Hhi) as (nxp & Hnxp & _).
  destruct (seg_middle previous next h None (X ++ [xp; a]) yn Y None)
    as (nyn & Hnyn & _).
  { by rewrite <- app_assoc. }
  assert (xp <> a /\ yn <> a /\ xp <> yn) as (Hxa & Hya & Hxy).
  { apply NoDup_app in Hndi as (_ & _ & Hndi).
    apply NoDup_cons in Hndi as [H1 Hndi]. apply NoDup_cons in Hndi as [H2 _].
    split; [|split]; intros Heq.
    - apply H1. rewrite Heq. apply list_elem_of_here.
    - apply H2. rewrite Heq. apply list_elem_of_here.
    - apply H1. rewrite Heq. apply list_elem_of_further, list_elem_of_here. }
  rewrite (load_Some _ _ _ Hn). cbn [rbind]. rewrite Hnp, Hnn.
  erewrite store_Some by heap_lookup. cbn [rbind].
  erewrite store_Some by heap_lookup. cbn [rbind].
  erewrite load_Some by heap_lookup. cbn [rbind]. rewrite Hup.
  match goal with |- context [unlink fuel ?h0 _] => set (h' := h0) end.
  assert (h' !! a = None) as Ha' by (subst h'; heap_lookup).
  assert (h' !! xp = Some (set_next nxp (Some yn))) as Hxp'
    by (subst h'; heap_lookup).
  assert (h' !! yn = Some (set_previous nyn (Some xp))) as Hyn'
    by (subst h'; heap_lookup).
  assert (forall b, b <> a -> b <> xp -> b <> yn -> h' !! b = h !! b) as Hoth
    by (intros; subst h'; heap_lookup).
  clearbody h'.
  assert (forall b, b <> a -> vagree h h' b) as Hvag.
  { intros b Hba.
    destruct (decide (b = xp)) as [->|?]; [|destruct (decide (b = yn)) as [->|?]].
    - intros m Hm. simplify_eq. eexists. split; [done|]. done.
    - intros m Hm. simplify_eq. eexists. split; [done|]. done.
    - apply vagree_same. by apply Hoth. }
  assert (a ∈ layer i (A ++ c :: B) /\ xp ∈ layer i (A ++ c :: B)
          /\ yn ∈ layer i (A ++ c :: B)) as (Hain & Hxin & Hyin).
  { rewrite layer_app, layer_cons, Ha, HlA, HlB', <- app_assoc. simpl.
    rewrite !elem_of_app, !elem_of_cons. auto 10. }
  assert (forall l b, l <> i -> b ∈ layer l (A ++ c :: B) -> hagree h h' b) as Hhag.
  { intros l b Hli Hb. apply hagree_same, Hoth.
    - intros ->. by pose proof (layer_disjoint _ _ _ _ Hnd Hb Hain).
    - intros ->. by pose proof (layer_disjoint _ _ _ _ Hnd Hb Hxin).
    - intros ->. by pose proof (layer_disjoint _ _ _ _ Hnd Hb Hyin). }
  assert (forall l, (l < SkipListLayers s)%nat ->
            seg previous next h' None
              (layer l (if (l <? S i)%nat then A ++ B else A ++ c :: B)) None) as Hh'.
  { intros l Hl. specialize (Hh l Hl).
    destruct (decide (l = i)) as [->|Hli].
    - assert ((i <? S i)%nat = true) as -> by (apply Nat.ltb_lt; lia).
      rewrite layer_app, HlA, HlB', <- app_assoc. simpl.
      eapply seg_remove; [exact Hhi| | |].
      + intros b Hb. apply hagree_same.
        apply NoDup_app in Hndi as (_ & Hd & Hndi).
        apply NoDup_cons in Hndi as [H1 Hndi]. apply NoDup_cons in Hndi as [H2 Hndi].
        apply NoDup_cons in Hndi as [H3 _].
        apply elem_of_app in Hb as [Hb|Hb]; apply Hoth; intros ->.
        * eapply Hd; [done|]. apply list_elem_of_further, list_elem_of_here.
        * eapply Hd; [done|]. apply list_elem_of_here.
        * eapply Hd; [done|]. do 2 apply list_elem_of_further. apply list_elem_of_here.
        * apply H2. by apply list_elem_of_further.
        * apply H1. by do 2 apply list_elem_of_further.
        * by apply H3.
      + intros m Hm. simplify_eq. eexists. split; [done|]. done.
      + intros m Hm. simplify_eq. eexists. split; [done|]. done.
    - destruct (Nat.ltb_spec l i), (Nat.ltb_spec l (S i)); try lia.
      + eapply seg_frame; [|exact Hh]. intros b Hb.
        eapply (Hhag l); [done|]. by apply layer_sub.
      + eapply seg_frame; [|exact Hh]. intros b Hb. by eapply (Hhag l). }
  assert (Forall (vchain h') (A ++ B)) as Hv'.
  { rewrite Forall_forall in Hv |- *. intros c0 Hc0.
    eapply vchain_frame; [|by apply Hv]. intros b Hb. apply Hvag. intros ->.
    eapply (column_disjoint A c B a Hnd).
    - apply list_elem_of_lookup. eauto.
    - apply elem_of_addrs. eauto. }
  assert (forall l a0, (S i <= l)%nat -> cnodes c !! l = Some a0 ->
            exists n0, h' !! a0 = Some n0 /\ up n0 = cnodes c !! S l) as Hc'.
  { intros l a0 Hl Ha0.
    assert (i <= l)%nat as Hil by lia.
    destruct (Hc l a0 Hil Ha0) as (n0 & Hn0 & Hu0).
    assert (a0 <> a) as Hne.
    { intros ->. pose proof (NoDup_lookup _ _ _ _ (NoDup_column _ _ _ Hnd) Ha Ha0). lia. }
    destruct (Hvag a0 Hne n0 Hn0) as (n' & ? & _ & _ & _ & Hu').
    exists n'. split; [done|congruence]. }
  assert (S i <= length (cnodes c))%nat as Hile'.
  { apply lookup_lt_Some in Ha. lia. }
  specialize (IH (S i) h' Hh' Hv' Hc' Hile').
  destruct (unlink fuel h' (cnodes c !! S i)); try done. lia.
Qed.

(** [erase] removes the first tower with key [k], and throws
    [std::out_of_range], changing nothing, when there is none. *)
Lemma erase_spec s fc bc ts k fuel :
  SL_Inv vdefault s fc bc ts ->
  match erase fuel k s with
  | Ok s' =>
      exists tsA c tsB,
        ts = tsA ++ c :: tsB /\ ckey c = k
        /\ Forall (fun t => ckey t <> k) tsA
        /\ SL_Inv vdefault s' fc bc (tsA ++ tsB)
        /\ SkipListSize s' = (SkipListSize s - 1)%nat
        /\ SkipListLayers s' = SkipListLayers s
        /\ brk s' = brk s
  | Throw OutOfRange => Forall (fun t => ckey t <> k) ts
  | Timeout => (fuel < brk s)%nat
  | _ => False
  end.
Proof.
  intros I. unfold erase.
  pose proof (findNode_spec _ s fc bc ts k fuel I) as Hf.
  destruct (findNode fuel k s) as [r|[]| |]; simpl; try done.
  destruct Hf as (tsA & c & tsB & b & Hts & Hk & Hne & Hb & ->).
  rewrite <- Hb.
  assert (columns vdefault fc bc ts
          = (sentinel vdefault fc :: tsA) ++ c :: tsB ++ [sentinel vdefault bc])
    as Hcols.
  { unfold columns. rewrite Hts. list_eq. }
  assert (columns vdefault fc bc (tsA ++ tsB)
          = (sentinel vdefault fc :: tsA) ++ tsB ++ [sentinel vdefault bc])
    as Hcols'.
  { unfold columns. list_eq. }
  assert (c ∈ columns vdefault fc bc ts) as Hcin.
  { rewrite Hcols, elem_of_app. right. apply list_elem_of_here. }
  pose proof (inv_v _ _ _ _ _ I) as Hv. rewrite Hcols in Hv.
  rewrite Forall_app in Hv. destruct Hv as (Hv1 & Hv2).
  apply Forall_cons in Hv2 as [Hvc Hv2].
  assert (forall l, (l < SkipListLayers s)%nat ->
            seg previous next (heap s) None
              (layer l (if (l <? 0)%nat
                        then (sentinel vdefault fc :: tsA) ++ tsB ++ [sentinel vdefault bc]
                        else (sentinel vdefault fc :: tsA) ++ c :: tsB
                               ++ [sentinel vdefault bc])) None) as Hh0.
  { intros l Hl. change (l <? 0)%nat with false. cbv iota.
    rewrite <- Hcols. by apply (inv_h _ _ _ _ _ I). }
  assert (Forall (vchain (heap s))
            ((sentinel vdefault fc :: tsA) ++ tsB ++ [sentinel vdefault bc])) as Hv0.
  { by rewrite Forall_app. }
  assert (forall l a, (0 <= l)%nat -> cnodes c !! l = Some a ->
            exists n, heap s !! a = Some n /\ up n = cnodes c !! S l) as Hc0.
  { intros l a _ Ha.
    destruct (vchain_lookup _ _ _ _ Hvc Ha) as (n & Hn & _ & _ & _ & Hup). eauto. }
  pose proof (unlink_spec s fc bc ts tsA c tsB I Hts fuel 0%nat (heap s)
                Hh0 Hv0 Hc0 (Nat.le_0_l _)) as Hu.
  pose proof (inv_col_length _ _ _ _ _ _ I Hcin) as Hclen.
  pose proof (inv_fuel _ _ _ _ _ I) as Hfuel.
  destruct (unlink fuel (heap s) (cnodes c !! 0%nat)) as [h'| | |]; simpl; try done;
    [|lia].
  destruct Hu as [Hh' Hv'].
  exists tsA, c, tsB. split_and!; [done..| |done|done|done].
  pose proof (inv_heights _ _ _ _ _ I) as Hhs. rewrite Hts in Hhs.
  rewrite Forall_app, Forall_cons in Hhs. destruct Hhs as (Hh1 & _ & Hh2).
  pose proof (inv_nodup _ _ _ _ _ I) as Hnd. rewrite Hcols in Hnd.
  pose proof (inv_brk _ _ _ _ _ I) as Hbrk. rewrite Hcols in Hbrk.
  constructor; simpl.
  - apply (inv_layers _ _ _ _ _ I).
  - apply (inv_fc _ _ _ _ _ I).
  - apply (inv_bc _ _ _ _ _ I).
  - rewrite Forall_app. done.
  - rewrite Hcols'. by eapply NoDup_addrs_remove.
  - rewrite Hcols'. rewrite Forall_forall in Hbrk |- *. intros x Hx. apply Hbrk.
    apply elem_of_addrs in Hx as (cx & Hcx & Hx). apply elem_of_addrs.
    exists cx. split; [|done]. rewrite elem_of_app in Hcx |- *.
    destruct Hcx; [by left|right; by apply list_elem_of_further].
  - by rewrite Hcols'.
  - intros l Hl. unfold hchain. rewrite Hcols'. by apply Hh'.
  - apply (inv_front _ _ _ _ _ I).
  - apply (inv_back _ _ _ _ _ I).
  - apply (inv_topFront _ _ _ _ _ I).
  - apply (inv_topBack _ _ _ _ _ I).
  - pose proof (inv_sorted _ _ _ _ _ I) as Hs. rewrite Hts in Hs.
    unfold ascending, keys_of in *. rewrite map_app in Hs |- *. simpl in Hs.
    rewrite StronglySorted_app in Hs |- *. rewrite StronglySorted_cons in Hs.
    destruct Hs as (H12 & H1 & _ & H2). split_and!; [|done..].
    intros x1 x2 Hx1 Hx2. apply H12; [done|]. by apply list_elem_of_further.
  - rewrite (inv_size _ _ _ _ _ I), Hts, !length_app. simpl. lia.
Qed.

(** The constructor builds the two sentinel layers. *)
Lemma new_inv : SL_Inv vdefault (SkipList_new vdefault) [0; 2]%nat [1; 3]%nat [].
Proof.
  assert (heap (SkipList_new vdefault) !! 0%nat
          = Some (mkNode kdefault vdefault (Some 1%nat) (Some 2%nat) None None)) as H0
    by (unfold SkipList_new; simpl; heap_lookup).
  assert (heap (SkipList_new vdefault) !! 1%nat
          = Some (mkNode kdefault vdefault None (Some 3%nat) None (Some 0%nat))) as H1
    by (unfold SkipList_new; simpl; heap_lookup).
  assert (heap (SkipList_new vdefault) !! 2%nat
          = Some (mkNode kdefault vdefault (Some 3%nat) None (Some 0%nat) None)) as H2
    by (unfold SkipList_new; simpl; heap_lookup).
  assert (heap (SkipList_new vdefault) !! 3%nat
          = Some (mkNode kdefault vdefault None None (Some 1%nat) (Some 2%nat))) as H3
    by (unfold SkipList_new; simpl; heap_lookup).
  constructor.
  - simpl. lia.
  - done.
  - done.
  - constructor.
  - unfold columns, addrs. simpl. repeat (constructor; [set_solver|]). constructor.
  - unfold columns, addrs. simpl. repeat (constructor; [lia|]). constructor.
  - unfold columns. simpl. repeat constructor; simpl.
    all: try (eexists; split; [eassumption|done]).
    all: intros a Ha; simpl in Ha;
      rewrite !elem_of_cons, elem_of_nil in Ha;
      destruct Ha as [->|[->|[]]]; eexists; (split; [eassumption|done]).
  - intros i Hi. simpl in Hi. unfold hchain, columns, layer.
    destruct i as [|[|i]]; [| |lia]; simpl.
    all: split_and!; try done; eexists; (split; [eassumption|done]).
  - done.
  - done.
  - done.
  - done.
  - constructor.
  - done.
Qed.

End Update.

(** ** The queries on a well-formed container *)

Section Queries.

Context {V : Type}.
Variable vdefault : V.
Implicit Types (s : @SkipList V) (c : @column V) (ts : list (@column V)).

Lemma ptr_eqb_refl (p : ptr) : ptr_eqb p p = true.
Proof. destruct p; simpl; [apply Nat.eqb_refl|done]. Qed.

Lemma base_not_back s fc bc ts ts1 c ts2 a b0 :
  SL_Inv vdefault s fc bc ts -> ts = ts1 ++ c :: ts2 ->
  cnodes c !! 0%nat = Some a -> bc !! 0%nat = Some b0 -> a <> b0.
Proof.
  intros I Hts Ha Hb ->.
  pose proof (inv_nodup _ _ _ _ _ I) as Hnd.
  assert (columns vdefault fc bc ts
          = (sentinel vdefault fc :: ts1) ++ c :: (ts2 ++ [sentinel vdefault bc]))
    as Hcols.
  { unfold columns. rewrite Hts. list_eq. }
  rewrite Hcols in Hnd.
  eapply (column_disjoint _ c _ b0 Hnd).
  - apply list_elem_of_lookup. eauto.
  - apply elem_of_addrs. exists (sentinel vdefault bc). split.
    + rewrite !elem_of_app, list_elem_of_singleton. auto.
    + apply list_elem_of_lookup. eauto.
Qed.

(** [allKeysInOrder]'s loop appends the keys of the towers right of its
    start, in order. *)
Lemma collect_spec s fc bc ts :
  SL_Inv vdefault s fc bc ts ->
  forall fuel pre c ts1 ts2 tmp n acc,
    ts = ts1 ++ ts2 ->
    sentinel vdefault fc :: ts1 = pre ++ [c] ->
    cnodes c !! 0%nat = Some tmp ->
    heap s !! tmp = Some n ->
    match collect fuel (heap s) (back s) (next n) acc with
    | Ok ks => ks = acc ++ keys_of ts2
    | Timeout => (fuel <= length ts2)%nat
    | _ => False
    end.
Proof.
  intros I. induction fuel as [|fuel IH]; intros pre c ts1 ts2 tmp n acc Hts Hpre Hi Hn.
  { simpl. lia. }
  simpl.
  destruct (base_right _ _ _ _ _ _ _ _ _ _ I Hts Hpre Hi)
    as (n' & b0 & Hn' & _ & _ & Hb0 & Hr).
  simplify_eq.
  destruct (sentinel_base _ _ _ _ _ I) as (f0 & b0' & _ & Hb0' & _ & Hback).
  simplify_eq. rewrite Hback in IH |- *.
  destruct ts2 as [|c' B2].
  - destruct Hr as (-> & _). rewrite ptr_eqb_refl. by rewrite app_nil_r.
  - destruct Hr as (a & na & x & Ha & -> & Hna & Hka & Hnax).
    assert (a <> b0) as Hab by (eapply base_not_back; eauto).
    simpl. apply Nat.eqb_neq in Hab. rewrite Hab.
    rewrite (load_Some _ _ _ Hna). simpl.
    assert (sentinel vdefault fc :: ts1 ++ [c'] = (pre ++ [c]) ++ [c']) as Hpre'.
    { rewrite app_comm_cons, Hpre. list_eq. }
    assert (ts1 ++ c' :: B2 = (ts1 ++ [c']) ++ B2) as Hts' by list_eq.
    specialize (IH _ _ _ _ _ _ (acc ++ [key na]) Hts' Hpre' Ha Hna).
    destruct (collect fuel (heap s) (Some b0) (next na) (acc ++ [key na]));
      try done.
    + cbv beta iota in IH. rewrite IH, Hka. rewrite <- app_assoc. done.
    + simpl. lia.
Qed.

Lemma allKeysInOrder_spec s fc bc ts fuel :
  SL_Inv vdefault s fc bc ts ->
  match allKeysInOrder fuel s with
  | Ok ks => ks = keys_of ts
  | Timeout => (fuel < brk s)%nat
  | _ => False
  end.
Proof.
  intros I. unfold allKeysInOrder.
  destruct (sentinel_base _ _ _ _ _ I) as (f0 & b0 & Hf0 & _ & -> & _).
  assert (sentinel vdefault fc ∈ columns vdefault fc bc ts) as Hfin
    by apply list_elem_of_here.
  destruct (inv_vlookup _ _ _ _ _ _ _ _ I Hfin Hf0) as (n & Hn & _).
  rewrite (load_Some _ _ _ Hn). simpl.
  pose proof (collect_spec s fc bc ts I fuel [] (sentinel vdefault fc) [] ts f0 n []
                eq_refl eq_refl Hf0 Hn) as Hc.
  pose proof (inv_fuel _ _ _ _ _ I). pose proof (inv_layers _ _ _ _ _ I).
  destruct (collect fuel (heap s) (back s) (next n) []); try done. lia.
Qed.

Lemma stored_keys_spec s fc bc ts :
  SL_Inv vdefault s fc bc ts -> stored_keys s = keys_of ts.
Proof.
  intros I. unfold stored_keys.
  pose proof (allKeysInOrder_spec s fc bc ts (brk s) I) as H.
  destruct (allKeysInOrder (brk s) s); try done. lia.
Qed.

(** [find] returns the value of the first tower with key [k]. *)
Lemma find_spec s fc bc ts k fuel :
  SL_Inv vdefault s fc bc ts ->
  match find fuel k s with
  | Ok v =>
      exists tsA c tsB,
        ts = tsA ++ c :: tsB /\ ckey c = k
        /\ Forall (fun t => ckey t <> k) tsA /\ v = cval c
  | Throw OutOfRange => Forall (fun t => ckey t <> k) ts
  | Timeout => (fuel < brk s)%nat
  | _ => False
  end.
Proof.
  intros I. unfold find.
  pose proof (findNode_spec _ s fc bc ts k fuel I) as Hf.
  destruct (findNode fuel k s) as [r|[]| |]; simpl; try done.
  destruct Hf as (tsA & c & tsB & b & Hts & Hk & Hne & Hb & ->).
  assert (c ∈ columns vdefault fc bc ts) as Hcin.
  { unfold columns. rewrite Hts, elem_of_cons, !elem_of_app, elem_of_cons. auto. }
  destruct (inv_vlookup _ _ _ _ _ _ _ _ I Hcin Hb) as (n & Hn & _ & Hv & _).
  rewrite (load_Some _ _ _ Hn). simpl.
  exists tsA, c, tsB. done.
Qed.

(** [height] returns the number of nodes of the first tower with key [k]. *)
Lemma height_spec s fc bc ts k fuel :
  SL_Inv vdefault s fc bc ts ->
  match height fuel k s with
  | Ok h =>
      exists tsA c tsB,
        ts = tsA ++ c :: tsB /\ ckey c = k
        /\ Forall (fun t => ckey t <> k) tsA /\ h = length (cnodes c)
  | Throw OutOfRange => Forall (fun t => ckey t <> k) ts
  | Timeout => (fuel < brk s)%nat
  | _ => False
  end.
Proof.
  intros I. unfold height.
  pose proof (findNode_spec _ s fc bc ts k fuel I) as Hf.
  destruct (findNode fuel k s) as [r|[]| |]; simpl; try done.
  destruct Hf as (tsA & c & tsB & b & Hts & Hk & Hne & Hb & ->).
  assert (c ∈ columns vdefault fc bc ts) as Hcin.
  { unfold columns. rewrite Hts, elem_of_cons, !elem_of_app, elem_of_cons. auto. }
  pose proof (inv_v _ _ _ _ _ I) as Hv. rewrite Forall_forall in Hv.
  pose proof (climb_spec (heap s) c (Hv _ Hcin) fuel 0%nat b 1%nat Hb) as Hc.
  pose proof (inv_col_length _ _ _ _ _ _ I Hcin) as Hlen.
  pose proof (inv_fuel _ _ _ _ _ I) as Hfuel.
  destruct (climb fuel (heap s) 1 (Some b)); try done.
  - exists tsA, c, tsB. split_and!; [done..|]. lia.
  - lia.
Qed.

(** The first tower with key [k] is where it is. *)
Lemma first_tower_unique (ts1 ts2 tsA tsB : list (@column V)) c1 c2 k :
  ts1 ++ c1 :: ts2 = tsA ++ c2 :: tsB ->
  ckey c1 = k -> ckey c2 = k ->
  Forall (fun t => ckey t <> k) ts1 ->
  Forall (fun t => ckey t <> k) tsA ->
  ts1 = tsA /\ c1 = c2 /\ ts2 = tsB.
Proof.
  revert tsA. induction ts1 as [|t ts1 IH]; intros tsA Heq Hk1 Hk2 H1 HA.
  - destruct tsA as [|t' tsA]; simpl in Heq.
    + by simplify_eq.
    + simplify_eq. apply Forall_cons in HA as [HA _]. done.
  - destruct tsA as [|t' tsA]; simpl in Heq.
    + simplify_eq. apply Forall_cons in H1 as [H1 _]. done.
    + simplify_eq. apply Forall_cons in H1 as [_ H1]. apply Forall_cons in HA as [_ HA].
      destruct (IH _ H0 eq_refl Hk2 H1 HA) as (-> & -> & ->). done.
Qed.

Lemma not_in_keys ts k :
  Forall (fun t : @column V => ckey t <> k) ts <-> k ∉ keys_of ts.
Proof.
  unfold keys_of. rewrite Forall_forall, list_elem_of_fmap. split.
  - intros H (t & -> & Ht). by apply (H t).
  - intros H t Ht Heq. apply H. exists t. auto.
Qed.

Lemma in_keys_split ts k :
  k ∈ keys_of ts ->
  exists tsA c tsB, ts = tsA ++ c :: tsB /\ ckey c = k
    /\ Forall (fun t : @column V => ckey t <> k) tsA.
Proof.
  induction ts as [|t ts IH]; [by intros ?%elem_of_nil|].
  unfold keys_of. simpl. intros Hin.
  destruct (decide (ckey t = k)) as [Heq|Hne].
  - exists [], t, ts. done.
  - apply elem_of_cons in Hin as [?|Hin]; [done|].
    destruct (IH Hin) as (tsA & c & tsB & -> & Hk & HA).
    exists (t :: tsA), c, tsB. split_and!; [done..|]. by constructor.
Qed.

End Queries.

(** ** Reachable states *)

Section Reachable.

Context {V : Type}.
Variable vdefault : V.
Implicit Types (s : @SkipList V) (c : @column V) (ts : list (@column V)).

Lemma reachable_wf s : reachable vdefault s -> well_formed vdefault s.
Proof.
  induction 1 as [|fuel k v s b s' _ (fc & bc & ts & I) Hins
                  |fuel k s s' _ (fc & bc & ts & I) Her].
  - exists [0; 2]%nat, [1; 3]%nat, []. apply new_inv.
  - pose proof (insert_spec vdefault s fc bc ts k v fuel I) as Hs.
    rewrite Hins in Hs.
    destruct Hs as (_ & fc' & bc' & ts1 & ts2 & nodes' & _ & _ & _ & I' & _).
    by exists fc', bc', (ts1 ++ mkColumn k v nodes' :: ts2).
  - pose proof (erase_spec vdefault s fc bc ts k fuel I) as Hs.
    rewrite Her in Hs. destruct Hs as (tsA & c & tsB & _ & _ & _ & I' & _).
    by exists fc, bc, (tsA ++ tsB).
Qed.

Lemma inserted_reachable kvs s : inserted vdefault kvs s -> reachable vdefault s.
Proof.
  induction 1; [apply reach_new|by eapply reach_insert].
Qed.

Lemma keys_of_insert ts1 ts2 c :
  keys_of (ts1 ++ c :: ts2) ≡ₚ ckey c :: keys_of (ts1 ++ ts2).
Proof. unfold keys_of. rewrite !map_app. simpl. solve_Permutation. Qed.

(** What a run of inserts leaves: the layer count within the cap, one
    tower per call. *)
Lemma inserted_inv kvs s :
  inserted vdefault kvs s ->
  exists fc bc ts,
    SL_Inv vdefault s fc bc ts
    /\ (SkipListLayers s <= layer_cap (SkipListSize s))%nat
    /\ keys_of ts ≡ₚ kvs.*1
    /\ SkipListSize s = length kvs.
Proof.
  induction 1 as [|fuel kvs k v s b s' _ (fc & bc & ts & I & Hcap & Hperm & Hsz) Hins].
  - exists [0; 2]%nat, [1; 3]%nat, []. split_and!; [apply new_inv| |done..].
    simpl. pose proof (layer_cap_ge 0). lia.
  - pose proof (insert_spec vdefault s fc bc ts k v fuel I) as Hs.
    rewrite Hins in Hs.
    destruct Hs as (_ & fc' & bc' & ts1 & ts2 & nodes' & Hts & _ & _ & I' & Hsz' & _ & Hcap').
    exists fc', bc', (ts1 ++ mkColumn k v nodes' :: ts2).
    split_and!; [done|by apply Hcap'| |].
    + rewrite keys_of_insert, <- Hts, Hperm, fmap_app. simpl. solve_Permutation.
    + rewrite Hsz', Hsz, length_app. simpl. lia.
Qed.

(** On a container built by inserts alone every insert returns. *)
Lemma inserted_insert_returns kvs s k v fuel :
  inserted vdefault kvs s ->
  (brk s + layer_cap (S (SkipListSize s)) < fuel)%nat ->
  exists s', insert vdefault fuel k v s = Ok (true, s').
Proof.
  intros Hi Hfuel.
  destruct (inserted_inv _ _ Hi) as (fc & bc & ts & I & Hcap & _).
  pose proof (insert_spec vdefault s fc bc ts k v fuel I) as Hs.
  destruct (insert vdefault fuel k v s) as [[b s']| | |]; try done.
  - destruct Hs as (-> & _). eauto.
  - destruct Hs as [?|[?|?]]; lia.
Qed.

Lemma sorted_le_NoDup_lt (l : list N) :
  StronglySorted N.le l -> NoDup l -> StronglySorted N.lt l.
Proof.
  induction 1 as [|x l Hs IH Hx]; [constructor|].
  intros [Hnx Hnd]%NoDup_cons. constructor; [by apply IH|].
  rewrite Forall_forall in Hx |- *. intros y Hy. specialize (Hx y Hy).
  assert (x <> y) by (by intros ->). lia.
Qed.

End Reachable.

(** ** The promotion function *)

Section FlipCoin.

Lemma xorWith_start {A} (f : A -> N) l a :
  xorWith f l a = N.lxor a (xorWith f l 0).
Proof.
  unfold xorWith. revert a. induction l as [|x l IH]; intros a; simpl.
  - by rewrite N.lxor_0_r.
  - rewrite (IH (N.lxor a (f x))), (IH (N.lxor 0 (f x))).
    rewrite N.lxor_0_l. by rewrite N.lxor_assoc.
Qed.

Lemma xorWith_perm {A} (f : A -> N) (l l' : list A) a :
  l ≡ₚ l' -> xorWith f l a = xorWith f l' a.
Proof.
  unfold xorWith. intros Hp. revert a.
  induction Hp as [|x l l' _ IH|x y l|l l' l'' _ IH1 _ IH2]; intros a; simpl.
  - done.
  - apply IH.
  - f_equal. rewrite !N.lxor_assoc. f_equal. apply N.lxor_comm.
  - by rewrite IH1.
Qed.

Lemma xorWith_twice {A} (f : A -> N) x (l : list A) a :
  xorWith f (x :: x :: l) a = xorWith f l a.
Proof.
  unfold xorWith. simpl. f_equal.
  by rewrite N.lxor_assoc, N.lxor_nilpotent, N.lxor_0_r.
Qed.

(** A list in which every character occurs an even number of times folds
    to zero. *)
Lemma xorWith_even {A} (eq_dec : forall x y : A, {x = y} + {x <> y})
    (f : A -> N) (l : list A) :
  (forall x, Nat.Even (count_occ eq_dec l x)) -> xorWith f l 0 = 0.
Proof.
  remember (length l) as n eqn:Hn. revert l Hn.
  induction n as [n IH] using lt_wf_ind. intros l Hn Hev.
  destruct l as [|x l]; [done|].
  assert (x ∈ l) as Hin.
  { specialize (Hev x). rewrite count_occ_cons_eq in Hev by done.
    apply list_elem_of_In, (count_occ_In eq_dec).
    destruct (count_occ eq_dec l x); [|lia].
    destruct Hev as [m Hm]. lia. }
  apply list_elem_of_split in Hin as (l1 & l2 & ->).
  rewrite (xorWith_perm f _ (x :: x :: l1 ++ l2)) by solve_Permutation.
  rewrite xorWith_twice. apply (IH (length (l1 ++ l2))); [|done|].
  - subst n. simpl. rewrite !length_app. simpl. lia.
  - intros y. specialize (Hev y). rewrite count_occ_app.
    destruct (eq_dec x y) as [->|Hne].
    + rewrite count_occ_cons_eq, count_occ_app, count_occ_cons_eq in Hev by done.
      replace (S (count_occ eq_dec l1 y + S (count_occ eq_dec l2 y)))
        with (S (S (count_occ eq_dec l1 y + count_occ eq_dec l2 y))) in Hev by lia.
      destruct Hev as [m Hm]. exists (m - 1)%nat. lia.
    + by rewrite count_occ_cons_neq, count_occ_app, count_occ_cons_neq in Hev by done.
Qed.

Lemma to_uint8_0 : to_uint8 0 = 0.
Proof. reflexivity. Qed.

Lemma zero_hash_never_promotes hash i :
  hash = 0 -> negb (N.land hash (bitToSelect i) =? 0) = false.
Proof. intros ->. by rewrite N.land_0_l. Qed.

Lemma stringHash_xorWith key :
  stringHash key
  = xorWith (fun c => to_uint8 (N_of_ascii c)) (String.list_ascii_of_string key) 0.
Proof.
  unfold stringHash, xorFold, stringBytes, xorWith.
  generalize 0. induction (String.list_ascii_of_string key) as [|c l IH]; intros a.
  - done.
  - simpl. apply IH.
Qed.

End FlipCoin.

(** ** The properties of the specification *)

Section Claims.

Context {V : Type}.
Variable vdefault : V.
Implicit Types (s : @SkipList V) (c : @column V) (ts : list (@column V)).

Lemma run_reachable fuel ops s s' :
  reachable vdefault s -> run vdefault fuel ops s = Ok s' ->
  reachable vdefault s'.
Proof.
  revert s. induction ops as [|[k v|k] ops IH]; intros s Hs; simpl.
  - by intros [= <-].
  - destruct (insert vdefault fuel k v s) as [[b s1]| | |] eqn:Hi; simpl; try done.
    apply IH. by eapply reach_insert.
  - destruct (erase fuel k s) as [s1| | |] eqn:He; simpl; try done.
    apply IH. by eapply reach_erase.
Qed.

(** After [insert(k, v)] has returned, [find(k)] gives [v]: the new tower
    is the first one with key [k]. *)
Lemma find_after_insert s fuel k v b s' fuel' :
  reachable vdefault s ->
  insert vdefault fuel k v s = Ok (b, s') ->
  (brk s' <= fuel')%nat ->
  b = true /\ find fuel' k s' = Ok v.
Proof.
  intros (fc & bc & ts & I)%reachable_wf Hins Hfuel.
  pose proof (insert_spec vdefault s fc bc ts k v fuel I) as Hs.
  rewrite Hins in Hs.
  destruct Hs as (-> & fc' & bc' & ts1 & ts2 & nodes' & Hts & Hlow & _ & I' & _).
  split; [done|].
  pose proof (find_spec vdefault s' fc' bc' _ k fuel' I') as Hf.
  assert (Forall (fun t => ckey t <> k) ts1) as Hne.
  { eapply Forall_impl; [exact Hlow|]. simpl. intros. lia. }
  destruct (find fuel' k s') as [v'|[]| |]; try done.
  - destruct Hf as (tsA & c & tsB & Heq & Hk & HA & ->).
    destruct (first_tower_unique _ _ _ _ _ _ _ Heq eq_refl Hk Hne HA)
      as (_ & <- & _). done.
  - apply Forall_app in Hf as [_ Hf]. apply Forall_cons in Hf as [Hf _]. done.
  - lia.
Qed.

(** X30. With [unsigned int] keys, for every sequence of [n] inserts with
    pairwise distinct keys on a new container, all the calls return, and in
    the state they leave [size()] is [n] and [allKeysInOrder()] is strictly
    ascending and holds exactly the inserted keys. *)
Theorem distinct_unsigned_inserts (kvs : list (N * V)) :
  NoDup kvs.*1 ->
  (exists s, inserted vdefault kvs s)
  /\ forall s, inserted vdefault kvs s ->
       size s = length kvs
       /\ exists ks,
            (forall fuel, (brk s <= fuel)%nat -> allKeysInOrder fuel s = Ok ks)
            /\ StronglySorted N.lt ks
            /\ ks ≡ₚ kvs.*1.
Proof.
  intros Hnd. split.
  - clear Hnd. induction kvs as [|[k v] kvs [s Hs]] using rev_ind.
    + eexists. constructor.
    + destruct (inserted_insert_returns vdefault kvs s k v
                  (S (brk s + layer_cap (S (SkipListSize s)))) Hs) as [s' Hs'];
        [lia|].
      exists s'. by eapply inserted_snoc.
  - intros s Hs.
    destruct (inserted_inv vdefault kvs s Hs) as (fc & bc & ts & I & _ & Hperm & Hsz).
    split; [done|]. exists (keys_of ts). split_and!; [|  |done].
    + intros fuel Hfuel.
      pose proof (allKeysInOrder_spec vdefault s fc bc ts fuel I) as Ha.
      destruct (allKeysInOrder fuel s); try done; [by subst|lia].
    + apply sorted_le_NoDup_lt; [apply (inv_sorted _ _ _ _ _ I)|].
      by rewrite Hperm.
Qed.

(** C8. In every reachable state, [height(k)] of a stored key is at least 1
    and at most [layers()], and [height(k)] of a key that is not stored
    throws [std::out_of_range]. *)
Theorem C8_height_bounds s k fuel :
  reachable vdefault s ->
  (brk s <= fuel)%nat ->
  (contains s k ->
     exists h, height fuel k s = Ok h /\ (1 <= h <= layers s)%nat)
  /\ (~ contains s k -> height fuel k s = Throw OutOfRange).
Proof.
  intros (fc & bc & ts & I)%reachable_wf Hfuel.
  unfold contains. rewrite (stored_keys_spec vdefault s fc bc ts I).
  pose proof (height_spec vdefault s fc bc ts k fuel I) as Hh.
  split.
  - intros Hin. destruct (height fuel k s) as [h|[]| |]; try done.
    + exists h. split; [done|].
      destruct Hh as (tsA & c & tsB & Hts & _ & _ & ->).
      pose proof (inv_heights _ _ _ _ _ I) as Hhs. rewrite Hts in Hhs.
      apply Forall_app in Hhs as [_ Hhs]. apply Forall_cons in Hhs as [Hhs _].
      unfold layers. lia.
    + by apply not_in_keys in Hh.
    + lia.
  - intros Hnin. destruct (height fuel k s) as [h|[]| |]; try done.
    + destruct Hh as (tsA & c & tsB & -> & <- & _). destruct Hnin.
      unfold keys_of. rewrite map_app. simpl.
      rewrite elem_of_app, elem_of_cons. auto.
    + lia.
Qed.

(** C10. In a reachable state that does not hold [k], when [insert(k, v)]
    returns it returns [true], and [find(k)] then gives [v]. *)
Theorem C10_insert_then_find s fuel k v b s' fuel' :
  reachable vdefault s ->
  ~ contains s k ->
  insert vdefault fuel k v s = Ok (b, s') ->
  (brk s' <= fuel')%nat ->
  b = true /\ find fuel' k s' = Ok v.
Proof. intros Hr _. by apply find_after_insert. Qed.

End Claims.

(** C9. A key whose bytes XOR to zero fails every promotion attempt: the
    integer key 0, every integer key whose four bytes XOR to zero, every
    string in which each character occurs an even number of times, and the
    empty string. *)
Theorem C9_zero_hash_never_promotes :
  (forall i, flipCoin 0 i = false)
  /\ (forall key i, intHash key = 0 -> flipCoin key i = false)
  /\ (forall key i,
        (forall c, Nat.Even
                     (count_occ ascii_dec (String.list_ascii_of_string key) c)) ->
        flipCoinString key i = false)
  /\ (forall i, flipCoinString String.EmptyString i = false).
Proof.
  split_and!.
  - intros i. by apply zero_hash_never_promotes.
  - intros key i H. unfold flipCoin. by apply zero_hash_never_promotes.
  - intros key i H. unfold flipCoinString. apply zero_hash_never_promotes.
    rewrite stringHash_xorWith. by apply (xorWith_even ascii_dec).
  - intros i. by apply zero_hash_never_promotes.
Qed.

(** ** The code on concrete inputs *)

Lemma state_after_reachable ops s :
  run 0 200 ops (SkipList_new 0) = Ok s -> reachable 0 s.
Proof. apply run_reachable, reach_new. Qed.

(** C6. The scenario of the specification: the keys 0, 5, 3, 9, 1 inserted
    in that order into a new container. *)
Theorem C6_scenario :
  run 0 200 scenario_ops (SkipList_new 0) = Ok (state_after scenario_ops)
  /\ allKeysInOrder 200 (state_after scenario_ops) = Ok [0; 1; 3; 5; 9]
  /\ nextKey 200 0 (state_after scenario_ops) = Ok 1
  /\ previousKey 200 9 (state_after scenario_ops) = Ok 5
  /\ isSmallestKey 200 0 (state_after scenario_ops) = Ok true
  /\ isLargestKey 200 9 (state_after scenario_ops) = Ok true
  /\ run 0 200 (scenario_ops ++ [Erase 3]) (SkipList_new 0)
     = Ok (state_after (scenario_ops ++ [Erase 3]))
  /\ erase 200 3 (state_after scenario_ops)
     = Ok (state_after (scenario_ops ++ [Erase 3]))
  /\ find 200 3 (state_after (scenario_ops ++ [Erase 3])) = Throw OutOfRange
  /\ allKeysInOrder 200 (state_after (scenario_ops ++ [Erase 3]))
     = Ok [0; 1; 5; 9].
Proof. split_and!; vm_compute; reflexivity. Qed.

(** C1. Inserting a key that is already stored returns [true] and puts a
    second tower for it into the container. *)
Theorem C1_duplicate_insert_returns_true :
  insert 0 200 5 10 (SkipList_new 0) = Ok (true, state_after five_ops)
  /\ stored_keys (state_after five_ops) = [5]
  /\ insert 0 200 5 20 (state_after five_ops)
     = Ok (true, state_after five_twice_ops)
  /\ size (state_after five_twice_ops) = 2%nat
  /\ find 200 5 (state_after five_ops) = Ok 10
  /\ find 200 5 (state_after five_twice_ops) = Ok 20.
Proof. split_and!; vm_compute; reflexivity. Qed.

(** C2. When a key has been inserted twice, [erase] takes one of its towers
    out and the queries for the key still succeed. *)
Theorem C2_erase_leaves_duplicate :
  reachable 0 (state_after five_twice_ops)
  /\ erase 200 5 (state_after five_twice_ops)
     = Ok (state_after (five_twice_ops ++ [Erase 5]))
  /\ size (state_after (five_twice_ops ++ [Erase 5])) = 1%nat
  /\ find 200 5 (state_after (five_twice_ops ++ [Erase 5])) = Ok 10
  /\ height 200 5 (state_after (five_twice_ops ++ [Erase 5])) = Ok 2%nat.
Proof.
  split; [apply (state_after_reachable five_twice_ops)|split_and!];
    vm_compute; reflexivity.
Qed.

(** C4. A reachable state whose base layer holds two nodes for one key. *)
Theorem C4_base_layer_duplicate :
  reachable 0 (state_after five_twice_ops)
  /\ allKeysInOrder 200 (state_after five_twice_ops) = Ok [5; 5].
Proof.
  split; [apply (state_after_reachable five_twice_ops)|];
    vm_compute; reflexivity.
Qed.

(** C5. At the largest and at the smallest key [nextKey] and [previousKey]
    throw [std::runtime_error], not the [std::out_of_range] that a missing
    key gives. *)
Theorem C5_boundary_throws_runtime_error :
  reachable 0 (state_after five_ops)
  /\ nextKey 200 5 (state_after five_ops) = Throw RuntimeError
  /\ previousKey 200 5 (state_after five_ops) = Throw RuntimeError
  /\ nextKey 200 7 (state_after five_ops) = Throw OutOfRange
  /\ previousKey 200 7 (state_after five_ops) = Throw OutOfRange.
Proof.
  split; [apply (state_after_reachable five_ops)|split_and!];
    vm_compute; reflexivity.
Qed.

(** *** The theorems at concrete inputs *)

Lemma distinct_unsigned_inserts_witness :
  NoDup [(1, 10); (2, 20)].*1
  /\ ((exists s, inserted 0 [(1, 10); (2, 20)] s)
      /\ forall s, inserted 0 [(1, 10); (2, 20)] s ->
           size s = length [(1, 10); (2, 20)]
           /\ exists ks,
                (forall fuel, (brk s <= fuel)%nat -> allKeysInOrder fuel s = Ok ks)
                /\ StronglySorted N.lt ks
                /\ ks ≡ₚ [(1, 10); (2, 20)].*1).
Proof.
  assert (NoDup [(1, 10); (2, 20)].*1) as H.
  { simpl. apply NoDup_cons. split; [|apply NoDup_singleton].
    rewrite list_elem_of_singleton. discriminate. }
  split; [exact H|]. exact (distinct_unsigned_inserts 0 [(1, 10); (2, 20)] H).
Defined.

Lemma C8_height_bounds_witness :
  reachable 0 (state_after five_ops)
  /\ (brk (state_after five_ops) <= 200)%nat
  /\ ((contains (state_after five_ops) 5 ->
         exists h, height 200 5 (state_after five_ops) = Ok h
                   /\ (1 <= h <= layers (state_after five_ops))%nat)
      /\ (~ contains (state_after five_ops) 5 ->
          height 200 5 (state_after five_ops) = Throw OutOfRange)).
Proof.
  assert (reachable 0 (state_after five_ops)) as Hr.
  { apply (state_after_reachable five_ops). vm_compute. reflexivity. }
  assert (brk (state_after five_ops) <= 200)%nat as Hf.
  { vm_compute. lia. }
  split; [exact Hr|]. split; [exact Hf|].
  exact (C8_height_bounds 0 (state_after five_ops) 5 200 Hr Hf).
Defined.

Lemma C10_insert_then_find_witness :
  reachable 0 (SkipList_new 0)
  /\ ~ contains (SkipList_new 0) 5
  /\ insert 0 200 5 10 (SkipList_new 0) = Ok (true, state_after five_ops)
  /\ (brk (state_after five_ops) <= 200)%nat
  /\ (true = true /\ find 200 5 (state_after five_ops) = Ok 10).
Proof.
  assert (~ contains (SkipList_new 0) 5) as Hn.
  { unfold contains. vm_compute. intros H. inversion H. }
  assert (insert 0 200 5 10 (SkipList_new 0) = Ok (true, state_after five_ops))
    as Hi by (vm_compute; reflexivity).
  assert (brk (state_after five_ops) <= 200)%nat as Hf by (vm_compute; lia).
  split; [apply reach_new|]. split; [exact Hn|]. split; [exact Hi|].
  split; [exact Hf|].
  exact (C10_insert_then_find 0 (SkipList_new 0) 200 5 10 true
           (state_after five_ops) 200 (reach_new 0) Hn Hi Hf).
Defined.

Lemma C9_zero_hash_never_promotes_witness :
  intHash 16843009 = 0
  /\ flipCoin 16843009 3 = false
  /\ (forall c, Nat.Even
                  (count_occ ascii_dec
                     (String.list_ascii_of_string
                        (String.String "a"%char
                           (String.String "a"%char String.EmptyString))) c))
  /\ flipCoinString
       (String.String "a"%char (String.String "a"%char String.EmptyString)) 3
     = false.
Proof.
  assert (intHash 16843009 = 0) as H1 by reflexivity.
  assert (forall c, Nat.Even
                      (count_occ ascii_dec
                         (String.list_ascii_of_string
                            (String.String "a"%char
                               (String.String "a"%char String.EmptyString))) c))
    as H2.
  { intros c. cbn [String.list_ascii_of_string count_occ].
    destruct (ascii_dec "a" c); [exists 1%nat|exists 0%nat]; reflexivity. }
  split; [exact H1|]. split.
  - exact (proj1 (proj2 C9_zero_hash_never_promotes) 16843009 3%nat H1).
  - split; [exact H2|].
    exact (proj1 (proj2 (proj2 C9_zero_hash_never_promotes)) _ 3%nat H2).
Defined.

(** ** Further properties of the queries *)

Section Neighbours.

Context {V : Type}.
Variable vdefault : V.
Implicit Types (s : @SkipList V) (c : @column V) (ts : list (@column V)).

Lemma keys_of_app ts1 ts2 : keys_of (ts1 ++ ts2) = keys_of ts1 ++ keys_of ts2.
Proof. apply map_app. Qed.

(** The first occurrence of a key splits a list in one way only. *)
Lemma first_occurrence_unique (l1 l2 l1' l2' : list N) k :
  l1 ++ k :: l2 = l1' ++ k :: l2' -> k ∉ l1 -> k ∉ l1' ->
  l1 = l1' /\ l2 = l2'.
Proof.
  revert l1'. induction l1 as [|x l1 IH]; intros l1' Heq H1 H1'.
  - destruct l1' as [|y l1']; simpl in Heq; [by simplify_eq|].
    simplify_eq. destruct H1'. apply list_elem_of_here.
  - destruct l1' as [|y l1']; simpl in Heq.
    + simplify_eq. destruct H1. apply list_elem_of_here.
    + simplify_eq. rewrite not_elem_of_cons in H1, H1'.
      destruct (IH _ H0) as [-> ->]; tauto.
Qed.

(** What lies left of a base node. *)
Lemma base_left s fc bc ts tsA c tsB b :
  SL_Inv vdefault s fc bc ts ->
  ts = tsA ++ c :: tsB ->
  cnodes c !! 0%nat = Some b ->
  exists n, heap s !! b = Some n
    /\ match last tsA with
       | None =>
           exists f0 nf, previous n = Some f0 /\ heap s !! f0 = Some nf
             /\ previous nf = None
       | Some c0 =>
           exists a na x, previous n = Some a /\ heap s !! a = Some na
             /\ key na = ckey c0 /\ previous na = Some x
       end.
Proof.
  intros I Hts Hb.
  assert (columns vdefault fc bc ts
          = (sentinel vdefault fc :: tsA) ++ c :: (tsB ++ [sentinel vdefault bc]))
    as Hcols.
  { unfold columns. rewrite Hts. list_eq. }
  destruct (inv_hlookup _ _ _ _ _ _ _ _ _ _ I Hcols Hb) as (n & Hn & Hp & _).
  exists n. split; [done|].
  destruct (sentinel_base _ _ _ _ _ I) as (f0 & b0 & Hf0 & _).
  destruct tsA as [|c0 tsA _] using rev_ind.
  - simpl. rewrite layer_one in Hp. simpl in Hp. rewrite Hf0 in Hp.
    assert (columns vdefault fc bc ts
            = [] ++ sentinel vdefault fc :: (ts ++ [sentinel vdefault bc]))
      as Hcols0 by done.
    destruct (inv_hlookup _ _ _ _ _ _ _ _ 0%nat f0 I Hcols0 Hf0) as (nf & Hnf & Hpf & _).
    exists f0, nf. done.
  - rewrite last_snoc.
    destruct (tower_base _ s fc bc ts c0 I) as [a Ha].
    { rewrite Hts, !elem_of_app, list_elem_of_singleton. auto. }
    assert (columns vdefault fc bc ts
            = (sentinel vdefault fc :: tsA) ++ c0 :: (c :: tsB ++ [sentinel vdefault bc]))
      as Hcols1.
    { unfold columns. rewrite Hts. list_eq. }
    destruct (inv_hlookup _ _ _ _ _ _ _ _ _ _ I Hcols1 Ha) as (na & Hna & Hpa & _).
    assert (c0 ∈ columns vdefault fc bc ts) as Hc0in.
    { rewrite Hcols1, elem_of_app. right. apply list_elem_of_here. }
    destruct (inv_vlookup _ _ _ _ _ _ _ _ I Hc0in Ha) as (na' & ? & Hka & _).
    simplify_eq.
    rewrite app_comm_cons, layer_app, layer_one, Ha, last_ptr_snoc in Hp.
    rewrite layer_cons in Hpa. simpl in Hpa. rewrite Hf0 in Hpa.
    exists a, na. destruct (layer 0 tsA) as [|z zs] using rev_ind.
    + exists f0. done.
    + exists z. split_and!; [done..|].
      rewrite Hpa, app_comm_cons. apply last_ptr_snoc.
Qed.

(** [nextKey] returns the key right of the first occurrence of [k], and
    throws [std::runtime_error] when that is the last key. *)
Lemma nextKey_spec s fc bc ts k fuel :
  SL_Inv vdefault s fc bc ts ->
  match nextKey fuel k s with
  | Ok k' => exists l1 l2, keys_of ts = l1 ++ k :: k' :: l2 /\ k ∉ l1
  | Throw RuntimeError => exists l1, keys_of ts = l1 ++ [k] /\ k ∉ l1
  | Throw OutOfRange => k ∉ keys_of ts
  | Timeout => (fuel < brk s)%nat
  | Crash => False
  end.
Proof.
  intros I. unfold nextKey.
  pose proof (findNode_spec _ s fc bc ts k fuel I) as Hf.
  destruct (findNode fuel k s) as [r|[]| |]; simpl; try done.
  2:{ by apply not_in_keys. }
  destruct Hf as (tsA & c & tsB & b & Hts & Hk & Hne & Hb & ->).
  assert (ts = (tsA ++ [c]) ++ tsB) as Hts' by (rewrite Hts; list_eq).
  destruct (base_right _ s fc bc ts (tsA ++ [c]) tsB (sentinel vdefault fc :: tsA)
              c b I Hts' (app_comm_cons _ _ _) Hb)
    as (n & b0 & Hn & _ & _ & Hb0 & Hr).
  rewrite (load_Some _ _ _ Hn). simpl.
  apply not_in_keys in Hne.
  destruct tsB as [|c' B2].
  - destruct Hr as (Hnx & nb & Hnb & Hnbx).
    rewrite Hnx, (load_Some _ _ _ Hnb). simpl. rewrite Hnbx. simpl.
    exists (keys_of tsA). split; [|done].
    rewrite Hts, keys_of_app. simpl. by rewrite Hk.
  - destruct Hr as (a & na & x & Ha & Hnx & Hna & Hka & Hnax).
    rewrite Hnx, (load_Some _ _ _ Hna). simpl. rewrite Hnax, Hka. simpl.
    exists (keys_of tsA), (keys_of B2). split; [|done].
    rewrite Hts, keys_of_app. simpl. by rewrite Hk.
Qed.

(** [previousKey] returns the key left of the first occurrence of [k], and
    throws [std::runtime_error] when there is none. *)
Lemma previousKey_spec s fc bc ts k fuel :
  SL_Inv vdefault s fc bc ts ->
  match previousKey fuel k s with
  | Ok k' => exists l1 l2, keys_of ts = (l1 ++ [k']) ++ k :: l2 /\ k ∉ l1 ++ [k']
  | Throw RuntimeError => exists l2, keys_of ts = k :: l2
  | Throw OutOfRange => k ∉ keys_of ts
  | Timeout => (fuel < brk s)%nat
  | Crash => False
  end.
Proof.
  intros I. unfold previousKey.
  pose proof (findNode_spec _ s fc bc ts k fuel I) as Hf.
  destruct (findNode fuel k s) as [r|[]| |]; simpl; try done.
  2:{ by apply not_in_keys. }
  destruct Hf as (tsA & c & tsB & b & Hts & Hk & Hne & Hb & ->).
  destruct (base_left s fc bc ts tsA c tsB b I Hts Hb) as (n & Hn & Hl).
  rewrite (load_Some _ _ _ Hn). simpl.
  apply not_in_keys in Hne.
  destruct tsA as [|c0 tsA _] using rev_ind.
  - simpl in Hl. destruct Hl as (f0 & nf & Hp & Hnf & Hpf).
    rewrite Hp, (load_Some _ _ _ Hnf). simpl. rewrite Hpf. simpl.
    exists (keys_of tsB). rewrite Hts. simpl. by rewrite Hk.
  - rewrite last_snoc in Hl. destruct Hl as (a & na & x & Hp & Hna & Hka & Hpa).
    rewrite Hp, (load_Some _ _ _ Hna). simpl. rewrite Hpa, Hka. simpl.
    exists (keys_of tsA), (keys_of tsB). split.
    + rewrite Hts, !keys_of_app. simpl. by rewrite Hk.
    + by rewrite keys_of_app in Hne.
Qed.

(** [isSmallestKey] compares [k] with the first key, once [k] is found. *)
Lemma isSmallestKey_spec s fc bc ts k fuel :
  SL_Inv vdefault s fc bc ts ->
  match isSmallestKey fuel k s with
  | Ok b => k ∈ keys_of ts /\ b = bool_decide (head (keys_of ts) = Some k)
  | Throw OutOfRange => k ∉ keys_of ts
  | Timeout => (fuel < brk s)%nat
  | _ => False
  end.
Proof.
  intros I. unfold isSmallestKey.
  pose proof (findNode_spec _ s fc bc ts k fuel I) as Hf.
  destruct (findNode fuel k s) as [r|[]| |]; simpl; try done.
  2:{ by apply not_in_keys. }
  destruct Hf as (tsA & c & tsB & b & Hts & Hk & Hne & Hb & ->).
  assert (k ∈ keys_of ts) as Hin.
  { rewrite Hts, keys_of_app. simpl. rewrite Hk, elem_of_app, elem_of_cons. auto. }
  destruct (sentinel_base _ _ _ _ _ I) as (f0 & b0 & Hf0 & _ & -> & _).
  destruct (base_right _ s fc bc ts [] ts [] (sentinel vdefault fc) f0 I
              eq_refl eq_refl Hf0) as (n & b0' & Hn & _ & _ & _ & Hr).
  rewrite (load_Some _ _ _ Hn). simpl.
  destruct ts as [|c' B2]; [by destruct tsA|].
  destruct Hr as (a & na & x & Ha & Hnx & Hna & Hka & Hnax).
  rewrite Hnx, (load_Some _ _ _ Hna). simpl. rewrite Hka.
  split; [done|]. simpl.
  destruct (N.eqb_spec (ckey c') k) as [->|Hnk].
  - by rewrite bool_decide_eq_true_2.
  - rewrite bool_decide_eq_false_2; [done|]. congruence.
Qed.

(** [isLargestKey] compares [k] with the last key, once [k] is found. *)
Lemma isLargestKey_spec s fc bc ts k fuel :
  SL_Inv vdefault s fc bc ts ->
  match isLargestKey fuel k s with
  | Ok b => k ∈ keys_of ts /\ b = bool_decide (last (keys_of ts) = Some k)
  | Throw OutOfRange => k ∉ keys_of ts
  | Timeout => (fuel < brk s)%nat
  | _ => False
  end.
Proof.
  intros I. unfold isLargestKey.
  pose proof (findNode_spec _ s fc bc ts k fuel I) as Hf.
  destruct (findNode fuel k s) as [r|[]| |]; simpl; try done.
  2:{ by apply not_in_keys. }
  destruct Hf as (tsA & c & tsB & b & Hts & Hk & Hne & Hb & ->).
  assert (k ∈ keys_of ts) as Hin.
  { rewrite Hts, keys_of_app. simpl. rewrite Hk, elem_of_app, elem_of_cons. auto. }
  destruct (sentinel_base _ _ _ _ _ I) as (f0 & b0 & Hf0 & Hb0 & _ & ->).
  destruct (inv_hlookup _ _ _ _ _ _ _ _ 0%nat b0 I (back_column _ fc bc ts) Hb0)
    as (nb & Hnb & Hpb & _).
  rewrite (load_Some _ _ _ Hnb). simpl.
  destruct ts as [|c' ts' _] using rev_ind; [by destruct tsA|].
  destruct (tower_base _ s fc bc _ c' I) as [a Ha].
  { rewrite elem_of_app, list_elem_of_singleton. auto. }
  rewrite app_comm_cons, layer_app, layer_one, Ha, last_ptr_snoc in Hpb.
  assert (c' ∈ columns vdefault fc bc (ts' ++ [c'])) as Hc'in.
  { unfold columns. rewrite elem_of_cons, !elem_of_app, list_elem_of_singleton. auto. }
  destruct (inv_vlookup _ _ _ _ _ _ _ _ I Hc'in Ha) as (na & Hna & Hka & _).
  rewrite Hpb, (load_Some _ _ _ Hna). simpl. rewrite Hka.
  split; [done|]. rewrite keys_of_app. simpl. rewrite last_snoc.
  destruct (N.eqb_spec (ckey c') k) as [->|Hnk].
  - by rewrite bool_decide_eq_true_2.
  - rewrite bool_decide_eq_false_2; [done|]. congruence.
Qed.

End Neighbours.

(** ** What the operations do to the stored keys *)

Section Effects.

Context {V : Type}.
Variable vdefault : V.
Implicit Types (s : @SkipList V) (c : @column V) (ts : list (@column V)).

(** X1. The constructor gives an empty container with two layers, in which
    no key is found. *)
Theorem new_container_is_empty k fuel :
  (brk (SkipList_new vdefault) <= fuel)%nat ->
  size (SkipList_new vdefault) = 0%nat
  /\ empty (SkipList_new vdefault) = true
  /\ layers (SkipList_new vdefault) = 2%nat
  /\ allKeysInOrder fuel (SkipList_new vdefault) = Ok []
  /\ find fuel k (SkipList_new vdefault) = Throw OutOfRange
  /\ height fuel k (SkipList_new vdefault) = Throw OutOfRange
  /\ erase fuel k (SkipList_new vdefault) = Throw OutOfRange.
Proof.
  intros Hfuel. pose proof (new_inv vdefault) as I.
  split_and!; try done.
  - pose proof (allKeysInOrder_spec vdefault _ _ _ _ fuel I) as H.
    destruct (allKeysInOrder fuel (SkipList_new vdefault)); try done;
      [by subst|lia].
  - pose proof (find_spec vdefault _ _ _ _ k fuel I) as H.
    destruct (find fuel k (SkipList_new vdefault)) as [?|[]| |]; try done.
    + by destruct H as ([] & ? & ? & ? & _).
    + lia.
  - pose proof (height_spec vdefault _ _ _ _ k fuel I) as H.
    destruct (height fuel k (SkipList_new vdefault)) as [?|[]| |]; try done.
    + by destruct H as ([] & ? & ? & ? & _).
    + lia.
  - pose proof (erase_spec vdefault _ _ _ _ k fuel I) as H.
    destruct (erase fuel k (SkipList_new vdefault)) as [?|[]| |]; try done.
    + by destruct H as ([] & ? & ? & ? & _).
    + lia.
Qed.


(** X3. In a reachable state an [erase] that returns has taken the first
    occurrence of the key out of the key sequence; the key count has gone
    down by one and the layer count is what it was. *)
Theorem erase_effect s fuel k s' :
  reachable vdefault s ->
  erase fuel k s = Ok s' ->
  size s' = (size s - 1)%nat
  /\ layers s' = layers s
  /\ exists l1 l2,
       stored_keys s = l1 ++ k :: l2
       /\ (k ∉ l1)
       /\ stored_keys s' = l1 ++ l2.
Proof.
  intros (fc & bc & ts & I)%reachable_wf Her.
  pose proof (erase_spec vdefault s fc bc ts k fuel I) as Hs.
  rewrite Her in Hs.
  destruct Hs as (tsA & c & tsB & Hts & Hk & Hne & I' & Hsz & HL & _).
  split_and!; [done..|].
  exists (keys_of tsA), (keys_of tsB).
  rewrite (stored_keys_spec vdefault _ _ _ _ I), (stored_keys_spec vdefault _ _ _ _ I').
  rewrite Hts, !keys_of_app. simpl. rewrite Hk. split_and!; [done| |done].
  by apply not_in_keys.
Qed.

(** X4. In a reachable state, with fuel for one walk over the structure,
    [erase] returns when the key is stored and throws [std::out_of_range]
    when it is not. *)
Theorem erase_returns_iff_stored s fuel k :
  reachable vdefault s ->
  (brk s <= fuel)%nat ->
  (contains s k -> exists s', erase fuel k s = Ok s')
  /\ (~ contains s k -> erase fuel k s = Throw OutOfRange).
Proof.
  intros (fc & bc & ts & I)%reachable_wf Hfuel.
  unfold contains. rewrite (stored_keys_spec vdefault _ _ _ _ I).
  pose proof (erase_spec vdefault s fc bc ts k fuel I) as Hs.
  destruct (erase fuel k s) as [s'|[]| |]; try done; try lia.
  - split; [eauto|]. intros Hn. destruct Hn.
    destruct Hs as (tsA & c & tsB & -> & <- & _).
    rewrite keys_of_app. simpl. rewrite elem_of_app, elem_of_cons. auto.
  - apply not_in_keys in Hs. split; [done|]. done.
Qed.

(** X5. In a reachable state, with fuel for one walk over the structure,
    [find] returns a value when the key is stored and throws
    [std::out_of_range] when it is not. *)
Theorem find_returns_iff_stored s fuel k :
  reachable vdefault s ->
  (brk s <= fuel)%nat ->
  (contains s k -> exists v, find fuel k s = Ok v)
  /\ (~ contains s k -> find fuel k s = Throw OutOfRange).
Proof.
  intros (fc & bc & ts & I)%reachable_wf Hfuel.
  unfold contains. rewrite (stored_keys_spec vdefault _ _ _ _ I).
  pose proof (find_spec vdefault s fc bc ts k fuel I) as Hs.
  destruct (find fuel k s) as [v|[]| |]; try done; try lia.
  - split; [eauto|]. intros Hn. destruct Hn.
    destruct Hs as (tsA & c & tsB & -> & <- & _).
    rewrite keys_of_app. simpl. rewrite elem_of_app, elem_of_cons. auto.
  - apply not_in_keys in Hs. split; [done|]. done.
Qed.

(** X6. In a reachable state [size()] is the number of keys that
    [allKeysInOrder()] reports, and [empty()] holds exactly when there is
    none. *)
Theorem size_counts_keys s :
  reachable vdefault s ->
  size s = length (stored_keys s)
  /\ (empty s = true <-> stored_keys s = []).
Proof.
  intros (fc & bc & ts & I)%reachable_wf.
  rewrite (stored_keys_spec vdefault _ _ _ _ I).
  unfold size, empty, keys_of. rewrite (inv_size _ _ _ _ _ I), length_map.
  split; [done|]. rewrite Nat.eqb_eq. by destruct ts.
Qed.

(** X7. In a reachable state [allKeysInOrder()] returns, with fuel for one
    walk, a sequence in ascending order. *)
Theorem keys_ascending s fuel :
  reachable vdefault s ->
  (brk s <= fuel)%nat ->
  exists ks, allKeysInOrder fuel s = Ok ks /\ StronglySorted N.le ks.
Proof.
  intros (fc & bc & ts & I)%reachable_wf Hfuel.
  pose proof (allKeysInOrder_spec vdefault s fc bc ts fuel I) as Ha.
  destruct (allKeysInOrder fuel s) as [ks| | |]; try done; [|lia].
  exists ks. split; [done|]. subst ks. apply (inv_sorted _ _ _ _ _ I).
Qed.

(** X8. In a reachable state there are at least two layers and the top one
    is spare: every height that [height] returns is below [layers()]. *)
Theorem top_layer_is_spare s fuel k h :
  reachable vdefault s ->
  height fuel k s = Ok h ->
  (2 <= layers s)%nat /\ (1 <= h < layers s)%nat.
Proof.
  intros (fc & bc & ts & I)%reachable_wf Hh.
  split; [apply (inv_layers _ _ _ _ _ I)|].
  pose proof (height_spec vdefault s fc bc ts k fuel I) as Hs.
  rewrite Hh in Hs. destruct Hs as (tsA & c & tsB & Hts & _ & _ & ->).
  pose proof (inv_heights _ _ _ _ _ I) as Hhs. rewrite Hts in Hhs.
  apply Forall_app in Hhs as [_ Hhs]. apply Forall_cons in Hhs as [Hhs _].
  done.
Qed.

(** X9. [layers()] never decreases along any sequence of inserts and
    erases that return. *)
Theorem layers_never_decrease s fuel ops s' :
  reachable vdefault s ->
  run vdefault fuel ops s = Ok s' ->
  (layers s <= layers s')%nat.
Proof.
  revert s. induction ops as [|[k v|k] ops IH]; intros s Hr; simpl.
  - by intros [= <-].
  - destruct (insert vdefault fuel k v s) as [[b s1]| | |] eqn:Hi; simpl; try done.
    intros Hrun. destruct (reachable_wf _ _ Hr) as (fc & bc & ts & I).
    pose proof (insert_spec vdefault s fc bc ts k v fuel I) as Hs.
    rewrite Hi in Hs. destruct Hs as (_ & ? & ? & ? & ? & ? & _ & _ & _ & _ & _ & HL & _).
    etrans; [exact HL|]. apply IH; [|done]. by eapply reach_insert.
  - destruct (erase fuel k s) as [s1| | |] eqn:He; simpl; try done.
    intros Hrun. destruct (reachable_wf _ _ Hr) as (fc & bc & ts & I).
    pose proof (erase_spec vdefault s fc bc ts k fuel I) as Hs.
    rewrite He in Hs. destruct Hs as (? & ? & ? & _ & _ & _ & _ & _ & HL & _).
    unfold layers at 1. rewrite <- HL. apply IH; [|done]. by eapply reach_erase.
Qed.

End Effects.

(** ** Neighbours, extremes and values *)

Section Values.

Context {V : Type}.
Variable vdefault : V.
Implicit Types (s : @SkipList V) (c : @column V) (ts : list (@column V)).

Lemma first_value_split tsA c tsB k :
  ckey c = k -> Forall (fun t : @column V => ckey t <> k) tsA ->
  first_value k (tsA ++ c :: tsB) = Some (cval c).
Proof.
  intros Hk. induction 1 as [|t tsA Ht _ IH]; simpl.
  - by rewrite Hk, N.eqb_refl.
  - apply N.eqb_neq in Ht. by rewrite Ht.
Qed.

Lemma first_value_none ts k :
  Forall (fun t : @column V => ckey t <> k) ts -> first_value k ts = None.
Proof.
  induction 1 as [|t ts Ht _ IH]; simpl; [done|].
  apply N.eqb_neq in Ht. by rewrite Ht.
Qed.

Lemma first_value_other ts1 c ts2 k :
  ckey c <> k ->
  first_value k (ts1 ++ c :: ts2) = first_value k (ts1 ++ ts2) :> option V.
Proof.
  intros Hk. induction ts1 as [|t ts1 IH]; simpl.
  - apply N.eqb_neq in Hk. by rewrite Hk.
  - by rewrite IH.
Qed.

Lemma find_first_value s fc bc ts k fuel :
  SL_Inv vdefault s fc bc ts -> (brk s <= fuel)%nat ->
  find fuel k s = match first_value k ts with
                  | Some v => Ok v
                  | None => Throw OutOfRange
                  end.
Proof.
  intros I Hfuel. pose proof (find_spec vdefault s fc bc ts k fuel I) as Hs.
  destruct (find fuel k s) as [v|[]| |]; try done; try lia.
  - destruct Hs as (tsA & c & tsB & -> & Hk & Hne & ->).
    by rewrite (first_value_split _ _ _ _ Hk Hne).
  - by rewrite (first_value_none _ _ Hs).
Qed.

(** X10. In a reachable state [nextKey(k)] is the key that follows the
    first occurrence of [k] in [allKeysInOrder()]; when nothing follows it
    throws [std::runtime_error]. *)
Theorem nextKey_is_successor s fuel k l1 l2 :
  reachable vdefault s ->
  (brk s <= fuel)%nat ->
  stored_keys s = l1 ++ k :: l2 ->
  k ∉ l1 ->
  nextKey fuel k s = match l2 with
                     | [] => Throw RuntimeError
                     | k' :: _ => Ok k'
                     end.
Proof.
  intros (fc & bc & ts & I)%reachable_wf Hfuel Hkeys Hnin.
  rewrite (stored_keys_spec vdefault _ _ _ _ I) in Hkeys.
  pose proof (nextKey_spec vdefault s fc bc ts k fuel I) as Hs.
  destruct (nextKey fuel k s) as [k'|[]| |]; try done; try lia.
  - destruct Hs as (m1 & m2 & Heq & Hm). rewrite Hkeys in Heq.
    by destruct (first_occurrence_unique _ _ _ _ _ Heq Hnin Hm) as [_ ->].
  - destruct Hs. rewrite Hkeys, elem_of_app, elem_of_cons. auto.
  - destruct Hs as (m1 & Heq & Hm). rewrite Hkeys in Heq.
    by destruct (first_occurrence_unique _ _ _ _ _ Heq Hnin Hm) as [_ ->].
Qed.

(** X11. In a reachable state [previousKey(k)] is the key that precedes the
    first occurrence of [k] in [allKeysInOrder()]; when nothing precedes it
    throws [std::runtime_error]. *)
Theorem previousKey_is_predecessor s fuel k l1 l2 :
  reachable vdefault s ->
  (brk s <= fuel)%nat ->
  stored_keys s = l1 ++ k :: l2 ->
  k ∉ l1 ->
  previousKey fuel k s = match last l1 with
                         | None => Throw RuntimeError
                         | Some k' => Ok k'
                         end.
Proof.
  intros (fc & bc & ts & I)%reachable_wf Hfuel Hkeys Hnin.
  rewrite (stored_keys_spec vdefault _ _ _ _ I) in Hkeys.
  pose proof (previousKey_spec vdefault s fc bc ts k fuel I) as Hs.
  destruct (previousKey fuel k s) as [k'|[]| |]; try done; try lia.
  - destruct Hs as (m1 & m2 & Heq & Hm). rewrite Hkeys in Heq.
    destruct (first_occurrence_unique _ _ _ _ _ Heq Hnin Hm) as [-> _].
    by rewrite last_snoc.
  - destruct Hs. rewrite Hkeys, elem_of_app, elem_of_cons. auto.
  - destruct Hs as (m2 & Heq). rewrite Hkeys in Heq.
    destruct (first_occurrence_unique l1 l2 [] m2 k Heq Hnin) as [-> _];
      [apply not_elem_of_nil|done].
Qed.

(** X12. In a reachable state [isSmallestKey(k)] tells whether a stored [k]
    is the first key of [allKeysInOrder()], and throws [std::out_of_range]
    when [k] is not stored. *)
Theorem isSmallestKey_is_head s fuel k :
  reachable vdefault s ->
  (brk s <= fuel)%nat ->
  (contains s k ->
     isSmallestKey fuel k s = Ok (bool_decide (head (stored_keys s) = Some k)))
  /\ (~ contains s k -> isSmallestKey fuel k s = Throw OutOfRange).
Proof.
  intros (fc & bc & ts & I)%reachable_wf Hfuel.
  unfold contains. rewrite (stored_keys_spec vdefault _ _ _ _ I).
  pose proof (isSmallestKey_spec vdefault s fc bc ts k fuel I) as Hs.
  destruct (isSmallestKey fuel k s) as [b|[]| |]; try done; try lia.
  destruct Hs as [Hin ->]. done.
Qed.

(** X13. In a reachable state [isLargestKey(k)] tells whether a stored [k]
    is the last key of [allKeysInOrder()], and throws [std::out_of_range]
    when [k] is not stored. *)
Theorem isLargestKey_is_last s fuel k :
  reachable vdefault s ->
  (brk s <= fuel)%nat ->
  (contains s k ->
     isLargestKey fuel k s = Ok (bool_decide (last (stored_keys s) = Some k)))
  /\ (~ contains s k -> isLargestKey fuel k s = Throw OutOfRange).
Proof.
  intros (fc & bc & ts & I)%reachable_wf Hfuel.
  unfold contains. rewrite (stored_keys_spec vdefault _ _ _ _ I).
  pose proof (isLargestKey_spec vdefault s fc bc ts k fuel I) as Hs.
  destruct (isLargestKey fuel k s) as [b|[]| |]; try done; try lia.
  destruct Hs as [Hin ->]. done.
Qed.

(** X14. In a reachable state no operation dereferences a null or dangling
    pointer, whatever the key and the fuel. *)
Theorem reachable_never_crashes s fuel k v :
  reachable vdefault s ->
  insert vdefault fuel k v s <> Crash
  /\ erase fuel k s <> Crash
  /\ find fuel k s <> Crash
  /\ height fuel k s <> Crash
  /\ nextKey fuel k s <> Crash
  /\ previousKey fuel k s <> Crash
  /\ isSmallestKey fuel k s <> Crash
  /\ isLargestKey fuel k s <> Crash
  /\ allKeysInOrder fuel s <> Crash.
Proof.
  intros (fc & bc & ts & I)%reachable_wf. split_and!; intros Hc.
  - pose proof (insert_spec vdefault s fc bc ts k v fuel I) as Hs. by rewrite Hc in Hs.
  - pose proof (erase_spec vdefault s fc bc ts k fuel I) as Hs. by rewrite Hc in Hs.
  - pose proof (find_spec vdefault s fc bc ts k fuel I) as Hs. by rewrite Hc in Hs.
  - pose proof (height_spec vdefault s fc bc ts k fuel I) as Hs. by rewrite Hc in Hs.
  - pose proof (nextKey_spec vdefault s fc bc ts k fuel I) as Hs. by rewrite Hc in Hs.
  - pose proof (previousKey_spec vdefault s fc bc ts k fuel I) as Hs. by rewrite Hc in Hs.
  - pose proof (isSmallestKey_spec vdefault s fc bc ts k fuel I) as Hs. by rewrite Hc in Hs.
  - pose proof (isLargestKey_spec vdefault s fc bc ts k fuel I) as Hs. by rewrite Hc in Hs.
  - pose proof (allKeysInOrder_spec vdefault s fc bc ts fuel I) as Hs. by rewrite Hc in Hs.
Qed.

(** X15. Inserting [k] does not change what [find] gives for any other
    key. *)
Theorem insert_keeps_other_values s fuel k v b s' fuel' k' :
  reachable vdefault s ->
  insert vdefault fuel k v s = Ok (b, s') ->
  k' <> k ->
  (brk s <= fuel')%nat -> (brk s' <= fuel')%nat ->
  find fuel' k' s' = find fuel' k' s.
Proof.
  intros (fc & bc & ts & I)%reachable_wf Hins Hne Hf Hf'.
  pose proof (insert_spec vdefault s fc bc ts k v fuel I) as Hs.
  rewrite Hins in Hs.
  destruct Hs as (_ & fc' & bc' & ts1 & ts2 & nodes' & Hts & _ & _ & I' & _).
  rewrite (find_first_value _ _ _ _ _ _ I Hf), (find_first_value _ _ _ _ _ _ I' Hf').
  rewrite first_value_other, Hts; [done|]. simpl. congruence.
Qed.

(** X16. Erasing [k] does not change what [find] gives for any other
    key. *)
Theorem erase_keeps_other_values s fuel k s' fuel' k' :
  reachable vdefault s ->
  erase fuel k s = Ok s' ->
  k' <> k ->
  (brk s <= fuel')%nat ->
  find fuel' k' s' = find fuel' k' s.
Proof.
  intros (fc & bc & ts & I)%reachable_wf Her Hne Hf.
  pose proof (erase_spec vdefault s fc bc ts k fuel I) as Hs.
  rewrite Her in Hs.
  destruct Hs as (tsA & c & tsB & Hts & Hk & _ & I' & _ & _ & Hbrk).
  assert (brk s' <= fuel')%nat as Hf' by lia.
  rewrite (find_first_value _ _ _ _ _ _ I Hf), (find_first_value _ _ _ _ _ _ I' Hf').
  rewrite Hts, first_value_other; [done|]. congruence.
Qed.


End Values.

(** ** The properties at concrete inputs *)

Lemma five_reachable : reachable 0 (state_after five_ops).
Proof. apply (state_after_reachable five_ops). vm_compute. reflexivity. Qed.

Lemma scenario_reachable : reachable 0 (state_after scenario_ops).
Proof. apply (state_after_reachable scenario_ops). vm_compute. reflexivity. Qed.

Lemma scenario_fuel : (brk (state_after scenario_ops) <= 200)%nat.
Proof. vm_compute. lia. Qed.

Lemma scenario_keys_at_3 :
  stored_keys (state_after scenario_ops) = [0; 1] ++ 3 :: [5; 9].
Proof. vm_compute. reflexivity. Qed.

Lemma not_in_0_1 : 3 ∉ [0; 1].
Proof.
  intros H. repeat (apply elem_of_cons in H as [H|H]; [discriminate|]).
  by apply elem_of_nil in H.
Qed.

Lemma scenario_contains_3 : contains (state_after scenario_ops) 3.
Proof.
  unfold contains. rewrite scenario_keys_at_3.
  apply elem_of_app. right. apply elem_of_cons. by left.
Qed.

Lemma new_container_is_empty_witness :
  (brk (SkipList_new 0) <= 200)%nat
  /\ size (SkipList_new 0) = 0%nat
  /\ empty (SkipList_new 0) = true
  /\ layers (SkipList_new 0) = 2%nat
  /\ allKeysInOrder 200 (SkipList_new 0) = Ok []
  /\ find 200 5 (SkipList_new 0) = Throw OutOfRange
  /\ height 200 5 (SkipList_new 0) = Throw OutOfRange
  /\ erase 200 5 (SkipList_new 0) = Throw OutOfRange.
Proof.
  assert (brk (SkipList_new 0) <= 200)%nat as Hf by (vm_compute; lia).
  split; [exact Hf|]. exact (new_container_is_empty 0 5 200 Hf).
Defined.


Lemma erase_effect_witness :
  reachable 0 (state_after scenario_ops)
  /\ erase 200 3 (state_after scenario_ops)
     = Ok (state_after (scenario_ops ++ [Erase 3]))
  /\ size (state_after (scenario_ops ++ [Erase 3]))
     = (size (state_after scenario_ops) - 1)%nat
  /\ layers (state_after (scenario_ops ++ [Erase 3]))
     = layers (state_after scenario_ops)
  /\ exists l1 l2,
       stored_keys (state_after scenario_ops) = l1 ++ 3 :: l2
       /\ (3 ∉ l1)
       /\ stored_keys (state_after (scenario_ops ++ [Erase 3])) = l1 ++ l2.
Proof.
  assert (erase 200 3 (state_after scenario_ops)
          = Ok (state_after (scenario_ops ++ [Erase 3]))) as He
    by (vm_compute; reflexivity).
  split; [exact scenario_reachable|]. split; [exact He|].
  exact (erase_effect 0 (state_after scenario_ops) 200 3
           (state_after (scenario_ops ++ [Erase 3])) scenario_reachable He).
Defined.

Lemma erase_returns_iff_stored_witness :
  reachable 0 (state_after scenario_ops)
  /\ (brk (state_after scenario_ops) <= 200)%nat
  /\ contains (state_after scenario_ops) 3
  /\ exists s', erase 200 3 (state_after scenario_ops) = Ok s'.
Proof.
  split; [exact scenario_reachable|]. split; [exact scenario_fuel|].
  split; [exact scenario_contains_3|].
  exact (proj1 (erase_returns_iff_stored 0 (state_after scenario_ops) 200 3
                  scenario_reachable scenario_fuel) scenario_contains_3).
Defined.

Lemma find_returns_iff_stored_witness :
  reachable 0 (state_after scenario_ops)
  /\ (brk (state_after scenario_ops) <= 200)%nat
  /\ contains (state_after scenario_ops) 3
  /\ exists v, find 200 3 (state_after scenario_ops) = Ok v.
Proof.
  split; [exact scenario_reachable|]. split; [exact scenario_fuel|].
  split; [exact scenario_contains_3|].
  exact (proj1 (find_returns_iff_stored 0 (state_after scenario_ops) 200 3
                  scenario_reachable scenario_fuel) scenario_contains_3).
Defined.

Lemma size_counts_keys_witness :
  reachable 0 (state_after scenario_ops)
  /\ size (state_after scenario_ops)
     = length (stored_keys (state_after scenario_ops))
  /\ (empty (state_after scenario_ops) = true
      <-> stored_keys (state_after scenario_ops) = []).
Proof.
  split; [exact scenario_reachable|].
  exact (size_counts_keys 0 (state_after scenario_ops) scenario_reachable).
Defined.

Lemma keys_ascending_witness :
  reachable 0 (state_after scenario_ops)
  /\ (brk (state_after scenario_ops) <= 200)%nat
  /\ exists ks, allKeysInOrder 200 (state_after scenario_ops) = Ok ks
                /\ StronglySorted N.le ks.
Proof.
  split; [exact scenario_reachable|]. split; [exact scenario_fuel|].
  exact (keys_ascending 0 (state_after scenario_ops) 200
           scenario_reachable scenario_fuel).
Defined.

Lemma top_layer_is_spare_witness :
  reachable 0 (state_after scenario_ops)
  /\ height 200 3 (state_after scenario_ops) = Ok 3%nat
  /\ (2 <= layers (state_after scenario_ops))%nat
  /\ (1 <= 3 < layers (state_after scenario_ops))%nat.
Proof.
  assert (height 200 3 (state_after scenario_ops) = Ok 3%nat) as Hh
    by (vm_compute; reflexivity).
  split; [exact scenario_reachable|]. split; [exact Hh|].
  exact (top_layer_is_spare 0 (state_after scenario_ops) 200 3 3
           scenario_reachable Hh).
Defined.

Lemma layers_never_decrease_witness :
  reachable 0 (state_after five_ops)
  /\ run 0 200 [Insert 3 30; Erase 5] (state_after five_ops)
     = Ok (state_after (five_ops ++ [Insert 3 30; Erase 5]))
  /\ (layers (state_after five_ops)
      <= layers (state_after (five_ops ++ [Insert 3 30; Erase 5])%N))%nat.
Proof.
  assert (run 0 200 [Insert 3 30; Erase 5] (state_after five_ops)
          = Ok (state_after (five_ops ++ [Insert 3 30; Erase 5]))) as Hrun
    by (vm_compute; reflexivity).
  split; [exact five_reachable|]. split; [exact Hrun|].
  exact (layers_never_decrease 0 (state_after five_ops) 200
           [Insert 3 30; Erase 5]
           (state_after (five_ops ++ [Insert 3 30; Erase 5]))
           five_reachable Hrun).
Defined.

Lemma nextKey_is_successor_witness :
  reachable 0 (state_after scenario_ops)
  /\ (brk (state_after scenario_ops) <= 200)%nat
  /\ stored_keys (state_after scenario_ops) = [0; 1] ++ 3 :: [5; 9]
  /\ (3 ∉ [0; 1])
  /\ nextKey 200 3 (state_after scenario_ops) = Ok 5.
Proof.
  split; [exact scenario_reachable|]. split; [exact scenario_fuel|].
  split; [exact scenario_keys_at_3|]. split; [exact not_in_0_1|].
  exact (nextKey_is_successor 0 (state_after scenario_ops) 200 3 [0; 1] [5; 9]
           scenario_reachable scenario_fuel scenario_keys_at_3 not_in_0_1).
Defined.

Lemma previousKey_is_predecessor_witness :
  reachable 0 (state_after scenario_ops)
  /\ (brk (state_after scenario_ops) <= 200)%nat
  /\ stored_keys (state_after scenario_ops) = [0; 1] ++ 3 :: [5; 9]
  /\ (3 ∉ [0; 1])
  /\ previousKey 200 3 (state_after scenario_ops) = Ok 1.
Proof.
  split; [exact scenario_reachable|]. split; [exact scenario_fuel|].
  split; [exact scenario_keys_at_3|]. split; [exact not_in_0_1|].
  exact (previousKey_is_predecessor 0 (state_after scenario_ops) 200 3
           [0; 1] [5; 9]
           scenario_reachable scenario_fuel scenario_keys_at_3 not_in_0_1).
Defined.

Lemma isSmallestKey_is_head_witness :
  reachable 0 (state_after scenario_ops)
  /\ (brk (state_after scenario_ops) <= 200)%nat
  /\ contains (state_after scenario_ops) 3
  /\ isSmallestKey 200 3 (state_after scenario_ops)
     = Ok (bool_decide (head (stored_keys (state_after scenario_ops)) = Some 3)).
Proof.
  split; [exact scenario_reachable|]. split; [exact scenario_fuel|].
  split; [exact scenario_contains_3|].
  exact (proj1 (isSmallestKey_is_head 0 (state_after scenario_ops) 200 3
                  scenario_reachable scenario_fuel) scenario_contains_3).
Defined.

Lemma isLargestKey_is_last_witness :
  reachable 0 (state_after scenario_ops)
  /\ (brk (state_after scenario_ops) <= 200)%nat
  /\ contains (state_after scenario_ops) 3
  /\ isLargestKey 200 3 (state_after scenario_ops)
     = Ok (bool_decide (last (stored_keys (state_after scenario_ops)) = Some 3)).
Proof.
  split; [exact scenario_reachable|]. split; [exact scenario_fuel|].
  split; [exact scenario_contains_3|].
  exact (proj1 (isLargestKey_is_last 0 (state_after scenario_ops) 200 3
                  scenario_reachable scenario_fuel) scenario_contains_3).
Defined.

Lemma reachable_never_crashes_witness :
  reachable 0 (state_after scenario_ops)
  /\ insert 0 0 3 30 (state_after scenario_ops) <> Crash
  /\ erase 0 3 (state_after scenario_ops) <> Crash
  /\ find 0 3 (state_after scenario_ops) <> Crash
  /\ height 0 3 (state_after scenario_ops) <> Crash
  /\ nextKey 0 3 (state_after scenario_ops) <> Crash
  /\ previousKey 0 3 (state_after scenario_ops) <> Crash
  /\ isSmallestKey 0 3 (state_after scenario_ops) <> Crash
  /\ isLargestKey 0 3 (state_after scenario_ops) <> Crash
  /\ allKeysInOrder 0 (state_after scenario_ops) <> Crash.
Proof.
  split; [exact scenario_reachable|].
  exact (reachable_never_crashes 0 (state_after scenario_ops) 0%nat 3 30
           scenario_reachable).
Defined.

Lemma insert_keeps_other_values_witness :
  reachable 0 (state_after scenario_ops)
  /\ insert 0 200 4 40 (state_after scenario_ops)
     = Ok (true, state_after (scenario_ops ++ [Insert 4 40]))
  /\ 3 <> 4
  /\ (brk (state_after scenario_ops) <= 200)%nat
  /\ (brk (state_after (scenario_ops ++ [Insert 4 40])%N) <= 200)%nat
  /\ find 200 3 (state_after (scenario_ops ++ [Insert 4 40]))
     = find 200 3 (state_after scenario_ops).
Proof.
  assert (insert 0 200 4 40 (state_after scenario_ops)
          = Ok (true, state_after (scenario_ops ++ [Insert 4 40]))) as Hi
    by (vm_compute; reflexivity).
  assert (3 <> 4) as Hne by discriminate.
  assert (brk (state_after (scenario_ops ++ [Insert 4 40])%N) <= 200)%nat as Hf
    by (vm_compute; lia).
  split; [exact scenario_reachable|]. split; [exact Hi|]. split; [exact Hne|].
  split; [exact scenario_fuel|]. split; [exact Hf|].
  exact (insert_keeps_other_values 0 (state_after scenario_ops) 200 4 40 true
           (state_after (scenario_ops ++ [Insert 4 40])) 200 3
           scenario_reachable Hi Hne scenario_fuel Hf).
Defined.

Lemma erase_keeps_other_values_witness :
  reachable 0 (state_after scenario_ops)
  /\ erase 200 3 (state_after scenario_ops)
     = Ok (state_after (scenario_ops ++ [Erase 3]))
  /\ 5 <> 3
  /\ (brk (state_after scenario_ops) <= 200)%nat
  /\ find 200 5 (state_after (scenario_ops ++ [Erase 3]))
     = find 200 5 (state_after scenario_ops).
Proof.
  assert (erase 200 3 (state_after scenario_ops)
          = Ok (state_after (scenario_ops ++ [Erase 3]))) as He
    by (vm_compute; reflexivity).
  assert (5 <> 3) as Hne by discriminate.
  split; [exact scenario_reachable|]. split; [exact He|]. split; [exact Hne|].
  split; [exact scenario_fuel|].
  exact (erase_keeps_other_values 0 (state_after scenario_ops) 200 3
           (state_after (scenario_ops ++ [Erase 3])) 200 5
           scenario_reachable He Hne scenario_fuel).
Defined.


(** ** printSkipList *)

Section Printing.

Context {V : Type}.
Variable vdefault : V.
Implicit Types (s : @SkipList V) (c : @column V) (ts cols : list (@column V)).

Lemma row_keys_cons i c cols :
  row_keys i (c :: cols) =
  match cnodes c !! i with
  | Some _ => ckey c :: row_keys i cols
  | None => row_keys i cols
  end.
Proof. unfold row_keys. simpl. by destruct (cnodes c !! i). Qed.

Lemma row_keys_app i cols1 cols2 :
  row_keys i (cols1 ++ cols2) = row_keys i cols1 ++ row_keys i cols2.
Proof. apply omap_app. Qed.

Lemma row_keys_short i cols :
  Forall (fun c => (length (cnodes c) <= i)%nat) cols -> row_keys i cols = [].
Proof.
  induction 1 as [|c cols Hc _ IH]; [done|].
  rewrite row_keys_cons, IH. by rewrite lookup_ge_None_2.
Qed.

Lemma row_keys_base cols :
  Forall (fun c => (1 <= length (cnodes c))%nat) cols ->
  row_keys 0 cols = keys_of cols.
Proof.
  induction 1 as [|c cols Hc _ IH]; [done|].
  rewrite row_keys_cons, IH.
  destruct (lookup_lt_is_Some_2 (cnodes c) 0%nat) as [a ->]; [lia|done].
Qed.

Lemma row_keys_sublist i cols :
  sublist (row_keys (S i) cols) (row_keys i cols).
Proof.
  induction cols as [|c cols IH]; [constructor|].
  rewrite !row_keys_cons.
  destruct (cnodes c !! S i) as [a|] eqn:E.
  - destruct (lookup_lt_is_Some_2 (cnodes c) i) as [b ->].
    { apply lookup_lt_Some in E. lia. }
    by constructor.
  - destruct (cnodes c !! i); [by constructor|done].
Qed.

Lemma row_keys_columns i fc bc ts :
  (i < length fc)%nat -> (i < length bc)%nat ->
  row_keys i (columns vdefault fc bc ts)
  = kdefault :: row_keys i ts ++ [kdefault].
Proof.
  intros Hf Hb. unfold columns.
  rewrite row_keys_cons, row_keys_app, row_keys_cons. cbn [cnodes sentinel ckey].
  destruct (lookup_lt_is_Some_2 fc i Hf) as [a ->].
  by destruct (lookup_lt_is_Some_2 bc i Hb) as [b ->].
Qed.

Lemma print_row_spec (h : gmap nat (@Node V)) i :
  forall cols p fuel,
    (forall c a, c ∈ cols -> cnodes c !! i = Some a ->
       exists n, h !! a = Some n /\ key n = ckey c) ->
    seg previous next h p (layer i cols) None ->
    (length cols < fuel)%nat ->
    print_row fuel h (hd_ptr (layer i cols) None) = Ok (row_keys i cols).
Proof.
  induction cols as [|c cols IH]; intros p fuel Hkey Hseg Hfuel.
  - destruct fuel; [simpl in Hfuel; lia|done].
  - rewrite layer_cons, row_keys_cons in *.
    destruct (cnodes c !! i) as [a|] eqn:E.
    + destruct fuel as [|fuel]; [lia|]. simpl in Hfuel.
      destruct Hseg as [(n & Hn & _ & Hnext) Hseg].
      destruct (Hkey c a) as (n' & Hn' & Hk); [by left|done|].
      assert (n' = n) as -> by congruence.
      simpl. rewrite (load_Some _ _ _ Hn). cbn [rbind].
      rewrite Hnext, (IH (Some a) fuel); [by rewrite Hk| |done|lia].
      intros c' a' Hc'. apply Hkey. by right.
    + apply (IH p); [|done|simpl in Hfuel; lia].
      intros c' a' Hc'. apply Hkey. by right.
Qed.

Lemma rev_seq_S n : rev (seq 0 (S n)) = n :: rev (seq 0 n).
Proof. by rewrite seq_S, rev_app_distr. Qed.

Lemma print_rows_spec s fc bc ts rfuel :
  SL_Inv vdefault s fc bc ts ->
  (length (columns vdefault fc bc ts) < rfuel)%nat ->
  forall i fuel a,
    fc !! i = Some a -> (S i < fuel)%nat ->
    print_rows fuel rfuel (heap s) (Some a)
    = Ok (map (fun j => row_keys j (columns vdefault fc bc ts))
            (rev (seq 0 (S i)))).
Proof.
  intros I Hr. induction i as [|i IH]; intros fuel a Ha Hfuel.
  all: destruct fuel as [|fuel]; [lia|].
  all: assert (i_lt : forall j b, fc !! j = Some b ->
                  (j < SkipListLayers s)%nat)
         by (intros j b Hb; apply lookup_lt_Some in Hb;
             by rewrite (inv_fc _ _ _ _ _ I) in Hb).
  all: assert (row : forall j b, fc !! j = Some b ->
         print_row rfuel (heap s) (Some b)
         = Ok (row_keys j (columns vdefault fc bc ts))).
  1,3: intros j b Hb;
       replace (Some b) with (hd_ptr (layer j (columns vdefault fc bc ts)) None)
         by (unfold columns; rewrite layer_cons; simpl; by rewrite Hb);
       apply (print_row_spec _ _ _ None); [|apply (inv_h _ _ _ _ _ I), (i_lt _ _ Hb)|done];
       intros c x Hc Hx;
       destruct (inv_vlookup _ _ _ _ _ _ _ _ I Hc Hx) as (n & Hn & Hk & _);
       eauto.
  all: destruct (fun Hc => inv_vlookup _ _ _ _ _ (sentinel vdefault fc) _ a
                            I Hc Ha) as (n & Hn & _ & _ & Hdown & _);
         [by left|].
  all: simpl in Hdown.
  all: rewrite rev_seq_S; cbn [print_rows map]; rewrite (row _ _ Ha);
       cbn [rbind]; rewrite (load_Some _ _ _ Hn); cbn [rbind]; rewrite Hdown.
  - destruct fuel; [lia|]. done.
  - destruct (lookup_lt_is_Some_2 fc i) as [b Hb].
    { apply lookup_lt_Some in Ha. lia. }
    rewrite Hb, (IH fuel b Hb); [|lia]. done.
Qed.

Lemma rows_descend {A} (f : nat -> list A) :
  (forall i, sublist (f (S i)) (f i)) ->
  forall n j a b,
    map f (rev (seq 0 n)) !! j = Some a ->
    map f (rev (seq 0 n)) !! S j = Some b ->
    sublist a b.
Proof.
  intros Hf. induction n as [|n IH]; intros j a b; [done|].
  rewrite rev_seq_S. simpl. destruct j as [|j]; [|apply IH].
  simpl. intros [= <-]. destruct n as [|n]; [done|].
  rewrite rev_seq_S. simpl. intros [= <-]. apply Hf.
Qed.

(** X18. In a reachable state [printSkipList] writes one line per layer,
    from the top layer down; the first line holds only the keys of the two
    sentinels, the last line holds all stored keys between the sentinels'
    keys, and the keys on each line are a subsequence of the keys on the line
    below. *)
Theorem printSkipList_lines s fuel :
  reachable vdefault s ->
  (brk s <= fuel)%nat ->
  exists lines,
    printSkipList fuel s = Ok lines
    /\ length lines = layers s
    /\ head lines = Some [kdefault; kdefault]
    /\ last lines = Some (kdefault :: stored_keys s ++ [kdefault])
    /\ forall j a b,
         lines !! j = Some a -> lines !! S j = Some b -> sublist a b.
Proof.
  intros (fc & bc & ts & I)%reachable_wf Hfuel.
  pose proof (inv_fuel _ _ _ _ _ I) as Hbrk.
  pose proof (inv_layers _ _ _ _ _ I) as HL.
  destruct (inv_top _ _ _ _ _ I) as (tf & tb & Htf & _ & Htop & _).
  unfold printSkipList, layers. rewrite Htop.
  rewrite (print_rows_spec s fc bc ts fuel I) with (i := (SkipListLayers s - 1)%nat);
    [|unfold columns; simpl; rewrite length_app; simpl; lia|done|lia].
  replace (S (SkipListLayers s - 1)) with (SkipListLayers s) by lia.
  assert (forall i, (i < SkipListLayers s)%nat ->
            row_keys i (columns vdefault fc bc ts)
            = kdefault :: row_keys i ts ++ [kdefault]) as Hrow.
  { intros i Hi. apply row_keys_columns.
    - by rewrite (inv_fc _ _ _ _ _ I).
    - by rewrite (inv_bc _ _ _ _ _ I). }
  eexists. split; [done|]. split_and!.
  - by rewrite length_map, length_rev, length_seq.
  - destruct (SkipListLayers s) as [|L] eqn:EL; [lia|].
    rewrite rev_seq_S. cbn [map head]. rewrite Hrow by lia.
    rewrite row_keys_short; [done|].
    eapply Forall_impl; [apply (inv_heights _ _ _ _ _ I)|].
    simpl. intros c Hc. lia.
  - destruct (SkipListLayers s) as [|L] eqn:EL; [lia|].
    cbn [seq]. rewrite <- seq_shift. cbn [rev]. rewrite map_app. cbn [map].
    rewrite last_snoc, Hrow by lia. rewrite row_keys_base.
    + by rewrite (stored_keys_spec vdefault _ _ _ _ I).
    + eapply Forall_impl; [apply (inv_heights _ _ _ _ _ I)|].
      simpl. intros c Hc. lia.
  - apply rows_descend. intros i. apply row_keys_sublist.
Qed.

End Printing.

(** ** The footprint of the updates *)

(** Splits [H : (do x <- m; k) = Ok r] into [m = Ok x] and [k x = Ok r]. *)
Ltac bind_inv H :=
  repeat match type of H with
         | rbind ?m _ = Ok _ =>
             let E := fresh "E" in
             destruct m eqn:E; cbn [rbind] in H; try discriminate H
         end.

Section StoreFootprint.

Context {V : Type}.
Variable vdefault : V.
Implicit Types (s : @SkipList V) (h : gmap nat (@Node V)).

Lemma store_dom f h p q h' :
  store f h p q = Ok h' -> forall a, is_Some (h' !! a) -> is_Some (h !! a).
Proof.
  unfold store. destruct p as [b|]; [|done].
  destruct (h !! b) as [n|] eqn:E; [|done]. intros [= <-] a.
  destruct (decide (a = b)) as [->|Hne].
  - by rewrite E.
  - by rewrite lookup_insert_ne.
Qed.

Lemma store_keeps f h p q h' (P : @Node V -> Prop) :
  (forall n, P n -> P (f n q)) ->
  store f h p q = Ok h' ->
  forall a n, h !! a = Some n -> P n -> exists n', h' !! a = Some n' /\ P n'.
Proof.
  intros Hf. unfold store. destruct p as [b|]; [|done].
  destruct (h !! b) as [m|] eqn:E; [|done]. intros [= <-] a n Ha HP.
  destruct (decide (a = b)) as [->|Hne].
  - rewrite lookup_insert_eq. assert (m = n) as -> by congruence. eauto.
  - rewrite lookup_insert_ne by done. eauto.
Qed.

End StoreFootprint.

(** Pushes the liveness [Ha] of an address back through the stores. *)
Ltac unstore Ha :=
  repeat match goal with
         | E : store _ ?h _ _ = Ok ?h' |- _ =>
             match type of Ha with
             | is_Some (h' !! _) => apply (store_dom _ _ _ _ _ E) in Ha; clear E
             end
         end.

Section Footprint.

Context {V : Type}.
Variable vdefault : V.
Implicit Types (s : @SkipList V) (h : gmap nat (@Node V)).

Lemma grow_dom s s' :
  grow vdefault s = Ok s' ->
  forall a, is_Some (heap s' !! a) ->
    is_Some (heap s !! a) \/ a = brk s \/ a = S (brk s).
Proof.
  unfold grow, alloc. cbn. intros H. bind_inv H. injection H as <-. cbn.
  intros x Hx. unstore Hx.
  destruct (decide (x = S (brk s))) as [->|N1]; [tauto|].
  destruct (decide (x = brk s)) as [->|N2]; [tauto|].
  rewrite !lookup_insert_ne in Hx by done. tauto.
Qed.

Lemma link_base_dom k v s tmp s' :
  link_base k v s tmp = Ok s' ->
  forall a, is_Some (heap s' !! a) -> is_Some (heap s !! a) \/ a = brk s.
Proof.
  unfold link_base, alloc. cbn. intros H. bind_inv H. injection H as <-. cbn.
  intros x Hx. unstore Hx.
  destruct (decide (x = brk s)) as [->|N2]; [tauto|].
  rewrite !lookup_insert_ne in Hx by done. tauto.
Qed.

Lemma link_up_dom wfuel k v s rt rt2 r :
  link_up wfuel k v s rt rt2 = Ok r ->
  forall a, is_Some (heap r.1.1 !! a) -> is_Some (heap s !! a) \/ a = brk s.
Proof.
  unfold link_up, alloc. cbn. intros H. bind_inv H. injection H as <-. cbn.
  intros x Hx. unstore Hx.
  destruct (decide (x = brk s)) as [->|N2]; [tauto|].
  rewrite !lookup_insert_ne in Hx by done. tauto.
Qed.

Lemma unlink_dom :
  forall fuel h (l : list addr) h',
    NoDup l ->
    (forall j a, l !! j = Some a ->
       exists n, h !! a = Some n /\ up n = l !! S j) ->
    unlink fuel h (l !! 0%nat) = Ok h' ->
    forall a, is_Some (h' !! a) -> is_Some (h !! a) /\ a ∉ l.
Proof.
  induction fuel as [|fuel IH]; intros h l h' Hnd Hup; [done|].
  rewrite unlink_S. destruct l as [|a0 l]; simpl.
  { intros [= <-] a Ha. split; [done|apply not_elem_of_nil]. }
  destruct (Hup 0%nat a0 eq_refl) as (n0 & Hn0 & Hup0). simpl in Hup0.
  rewrite (load_Some _ _ _ Hn0). cbn [rbind].
  destruct (store set_next h (previous n0) (next n0)) as [g1| | |] eqn:E0;
    cbn [rbind]; try done.
  destruct (store set_previous g1 (next n0) (previous n0)) as [g0| | |] eqn:E1;
    cbn [rbind]; try done.
  destruct (load g0 (Some a0)) as [n2| | |] eqn:E2; cbn [rbind]; try done.
  intros H.
  assert (forall b m, h !! b = Some m ->
            exists m', g0 !! b = Some m' /\ up m' = up m) as Hkeep.
  { intros b m Hb.
    destruct (store_keeps set_next h (previous n0) (next n0) g1
                (fun x => up x = up m) (fun x Hx => Hx) E0 b m Hb eq_refl)
      as (m1 & Hm1 & Hu1).
    destruct (store_keeps set_previous g1 (next n0) (previous n0) g0
                (fun x => up x = up m) (fun x Hx => Hx) E1 b m1 Hm1 Hu1)
      as (m2 & Hm2 & Hu2).
    eauto. }
  destruct (Hkeep a0 n0 Hn0) as (m0 & Hm0 & Hum0).
  rewrite (load_Some _ _ _ Hm0) in E2. injection E2 as <-.
  rewrite Hum0, Hup0 in H.
  apply NoDup_cons in Hnd as [Hnin Hnd].
  specialize (IH (delete a0 g0) l h' Hnd).
  intros a Ha. destruct IH with (a := a) as [Hlive Hout]; [|done|done|].
  { intros j b Hb. destruct (Hup (S j) b Hb) as (m & Hm & Hu).
    destruct (Hkeep b m Hm) as (m' & Hm' & Hu').
    exists m'. rewrite lookup_delete_ne; [by rewrite Hu'|].
    intros ->. apply Hnin. by eapply list_elem_of_lookup_2. }
  destruct (decide (a = a0)) as [->|Hne].
  { rewrite lookup_delete_eq in Hlive. by destruct Hlive. }
  rewrite lookup_delete_ne in Hlive by done. split.
  - by apply (store_dom _ _ _ _ _ E0), (store_dom _ _ _ _ _ E1).
  - rewrite not_elem_of_cons. done.
Qed.

End Footprint.

(** ** The updates once more: the height built and the nodes alive *)

Section Exact.

Context {V : Type}.
Variable vdefault : V.
Implicit Types (s : @SkipList V) (c : @column V) (ts : list (@column V)).

Lemma promotion_loop_S fuel k size L flips :
  promotion_loop (S fuel) k size L flips
  = if flipCoin k flips then
      let L := if (S flips =? L - 1)%nat then S L else L in
      if (L =? layer_cap size)%nat then Some (S (S flips), L)
      else promotion_loop fuel k size L (S flips)
    else Some (S flips, L).
Proof. reflexivity. Qed.

Lemma cap_reached_eqb s :
  cap_reached s = (SkipListLayers s =? layer_cap (SkipListSize s))%nat.
Proof.
  destruct (cap_reached s) eqn:E.
  - apply cap_reached_iff in E. symmetry. by apply Nat.eqb_eq.
  - symmetry. apply Nat.eqb_neq. intros H%cap_reached_iff. congruence.
Qed.

(** The promotion loop builds the tower that the loop of the counters
    gives, and every node it makes belongs to the structure. *)
Lemma promote_exact k v ts1 ts2 wfuel :
  forall fuel s fc bc nodes0 t r,
    SL_Inv vdefault s fc bc (ts1 ++ mkColumn k v (nodes0 ++ [t]) :: ts2) ->
    no_garbage (heap s)
      (columns vdefault fc bc (ts1 ++ mkColumn k v (nodes0 ++ [t]) :: ts2)) ->
    last (layer (length nodes0) (sentinel vdefault fc :: ts1)) = Some r ->
    match promote vdefault fuel wfuel k v s (length nodes0) (Some r) (Some t)
            (S (length nodes0)) with
    | Ok s' =>
        exists fc' bc' nodes',
          SL_Inv vdefault s' fc' bc' (ts1 ++ mkColumn k v nodes' :: ts2)
          /\ no_garbage (heap s')
               (columns vdefault fc' bc' (ts1 ++ mkColumn k v nodes' :: ts2))
          /\ promotion_loop fuel k (SkipListSize s) (SkipListLayers s)
               (length nodes0)
             = Some (length nodes', SkipListLayers s')
    | Timeout =>
        (wfuel <= length ts1)%nat
        \/ promotion_loop fuel k (SkipListSize s) (SkipListLayers s)
             (length nodes0) = None
    | _ => False
    end.
Proof.
  induction fuel as [|fuel IH]; intros s fc bc nodes0 t r I G Hr.
  { simpl. by right. }
  rewrite promote_S, promotion_loop_S. destruct (flipCoin k (length nodes0)).
  2:{ exists fc, bc, (nodes0 ++ [t]). split_and!; [done..|].
      rewrite length_app. simpl. do 2 f_equal. lia. }
  pose proof (inv_heights _ _ _ _ _ I) as Hh.
  rewrite Forall_app, Forall_cons in Hh. destruct Hh as (_ & Hh & _).
  simpl in Hh. rewrite length_app in Hh. simpl in Hh.
  assert (exists s1 fc1 bc1,
            (if (S (length nodes0) =? SkipListLayers s - 1)%nat
             then grow vdefault s else Ok s) = Ok s1
            /\ SL_Inv vdefault s1 fc1 bc1 (ts1 ++ mkColumn k v (nodes0 ++ [t]) :: ts2)
            /\ no_garbage (heap s1)
                 (columns vdefault fc1 bc1
                    (ts1 ++ mkColumn k v (nodes0 ++ [t]) :: ts2))
            /\ last (layer (length nodes0) (sentinel vdefault fc1 :: ts1)) = Some r
            /\ (S (S (length nodes0)) < SkipListLayers s1)%nat
            /\ SkipListSize s1 = SkipListSize s
            /\ SkipListLayers s1
               = (if (S (length nodes0) =? SkipListLayers s - 1)%nat
                  then S (SkipListLayers s) else SkipListLayers s))
    as (s1 & fc1 & bc1 & -> & I1 & G1 & Hr1 & HjL & Hsz1 & HL1).
  { destruct (S (length nodes0) =? SkipListLayers s - 1)%nat eqn:Htop.
    - apply Nat.eqb_eq in Htop.
      destruct (grow_spec _ _ _ _ _ I) as (s1 & Hg & I1 & _ & HL1 & Hs1).
      exists s1, (fc ++ [brk s]), (bc ++ [S (brk s)]).
      split_and!; [done|done| | |lia|done|done].
      + intros x Hx. rewrite addrs_columns, !elem_of_app, !list_elem_of_singleton.
        destruct (grow_dom _ _ _ Hg x Hx) as [Hold|[->| ->]]; [|tauto..].
        apply G in Hold. rewrite addrs_columns, !elem_of_app in Hold. tauto.
      + rewrite layer_sentinel_grow; [done|]. rewrite (inv_fc _ _ _ _ _ I). lia.
    - apply Nat.eqb_neq in Htop.
      exists s, fc, bc. split_and!; [done..|lia|done|done]. }
  cbn [rbind].
  pose proof (link_up_spec _ s1 fc1 bc1 _ ts1 ts2 k v nodes0 t r wfuel I1 eq_refl Hr1 HjL)
    as Hl.
  destruct (link_up wfuel k v s1 (Some r) (Some t)) as [[[s2 rt] rt2]| | |] eqn:El;
    cbn [rbind]; try done; [|by left].
  destruct Hl as (r' & -> & -> & I2 & Hr2 & _ & HL2 & Hsz2).
  assert (no_garbage (heap s2)
            (columns vdefault fc1 bc1
               (ts1 ++ mkColumn k v ((nodes0 ++ [t]) ++ [brk s1]) :: ts2))) as G2.
  { intros x Hx. rewrite addrs_columns_extend.
    destruct (link_up_dom _ _ _ _ _ _ _ El x Hx) as [Hold| ->].
    - apply elem_of_cons. right. by apply G1.
    - apply elem_of_cons. by left. }
  assert (length (nodes0 ++ [t]) = S (length nodes0)) as Hlen.
  { rewrite length_app. simpl. lia. }
  rewrite cap_reached_eqb, HL2, Hsz2, Hsz1, HL1. cbv zeta.
  destruct (_ =? layer_cap (SkipListSize s))%nat eqn:Hcap.
  - exists fc1, bc1, ((nodes0 ++ [t]) ++ [brk s1]). split_and!; [done..|].
    rewrite length_app, Hlen, HL2, HL1. simpl. do 2 f_equal. lia.
  - rewrite <- Hlen in Hr2.
    specialize (IH s2 fc1 bc1 (nodes0 ++ [t]) (brk s1) r' I2 G2 Hr2).
    rewrite Hlen, Hsz2, Hsz1, HL2, HL1 in IH. done.
Qed.

(** [insert] with the height it builds and without garbage. *)
Lemma insert_exact s fc bc ts k v fuel :
  SL_Inv vdefault s fc bc ts ->
  no_garbage (heap s) (columns vdefault fc bc ts) ->
  match insert vdefault fuel k v s with
  | Ok (b, s') =>
      b = true
      /\ exists fc' bc' ts1 ts2 nodes',
           ts = ts1 ++ ts2
           /\ Forall (fun t => ckey t < k) ts1
           /\ Forall (fun t => k <= ckey t) ts2
           /\ SL_Inv vdefault s' fc' bc' (ts1 ++ mkColumn k v nodes' :: ts2)
           /\ no_garbage (heap s')
                (columns vdefault fc' bc' (ts1 ++ mkColumn k v nodes' :: ts2))
           /\ promotion_loop fuel k (S (SkipListSize s)) (SkipListLayers s) 0
              = Some (length nodes', SkipListLayers s')
  | Timeout =>
      (fuel < brk s)%nat
      \/ promotion_loop fuel k (S (SkipListSize s)) (SkipListLayers s) 0 = None
  | _ => False
  end.
Proof.
  intros I G. unfold insert.
  destruct (inv_top _ _ _ _ _ I) as (tf & tb & Htf & _ & -> & _).
  pose proof (inv_fuel _ _ _ _ _ I) as Hfuel.
  pose proof (inv_layers _ _ _ _ _ I) as HL.
  pose proof (descend_spec _ s fc bc ts k I fuel [] (sentinel vdefault fc) [] ts
                (SkipListLayers s - 1) tf eq_refl eq_refl Htf (Forall_nil_2 _)) as Hd.
  destruct (descend fuel (heap s) k (Some tf)) as [r| | |]; simpl; try done;
    [|left; lia].
  destruct Hd as (pre0 & c0 & ts10 & ts20 & b0 & Hts0 & Hpre0 & Hb0 & -> & Hlow0).
  pose proof (insert_scan_spec _ s fc bc ts k I fuel pre0 c0 ts10 ts20 b0
                Hts0 Hpre0 Hb0 Hlow0) as Hs.
  destruct (insert_scan fuel (heap s) k (Some b0)) as [[r|]| | |]; simpl; try done.
  2:{ left. rewrite Hts0, length_app in Hfuel. lia. }
  destruct Hs as (pre & c & ts1 & ts2 & x & Hts & Hpre & Hx & -> & Hlow & Hhigh).
  destruct (link_base_spec _ s fc bc ts ts1 ts2 pre c x k v I Hts Hpre Hx Hlow Hhigh)
    as (s2 & Hlb & I2 & Hbrk2 & HL2 & Hsz2 & n & Hn & Hnn).
  rewrite Hlb. simpl. rewrite (load_Some _ _ _ Hn). simpl. rewrite Hnn.
  assert (no_garbage (heap s2)
            (columns vdefault fc bc (ts1 ++ mkColumn k v ([] ++ [brk s]) :: ts2)))
    as G2.
  { intros y Hy. rewrite addrs_columns_insert. simpl.
    destruct (link_base_dom _ _ _ _ _ Hlb y Hy) as [Hold| ->].
    - apply elem_of_cons. right. rewrite <- Hts. by apply G.
    - apply elem_of_cons. by left. }
  assert (last (layer (length (@nil nat)) (sentinel vdefault fc :: ts1)) = Some x)
    as Hr.
  { cbn [length]. rewrite Hpre, layer_app, layer_one, Hx. apply last_snoc. }
  pose proof (promote_exact k v ts1 ts2 fuel fuel s2 fc bc [] (brk s) x I2 G2 Hr)
    as Hp.
  cbn [length app] in Hp. rewrite Hsz2, HL2 in Hp.
  destruct (promote vdefault fuel fuel k v s2 0 (Some x) (Some (brk s)) 1)
    as [s'| | |]; simpl; try done.
  - split; [done|].
    destruct Hp as (fc' & bc' & nodes' & I' & G' & Hloop).
    exists fc', bc', ts1, ts2, nodes'. done.
  - destruct Hp as [?|?]; [left|by right].
    rewrite Hts, length_app in Hfuel. lia.
Qed.

(** [erase] deletes every node of the tower it unlinks. *)
Lemma erase_exact s fc bc ts k fuel s' :
  SL_Inv vdefault s fc bc ts ->
  no_garbage (heap s) (columns vdefault fc bc ts) ->
  erase fuel k s = Ok s' ->
  exists tsA c tsB,
    ts = tsA ++ c :: tsB /\ ckey c = k
    /\ Forall (fun t => ckey t <> k) tsA
    /\ SL_Inv vdefault s' fc bc (tsA ++ tsB)
    /\ no_garbage (heap s') (columns vdefault fc bc (tsA ++ tsB)).
Proof.
  intros I G He.
  pose proof (erase_spec _ s fc bc ts k fuel I) as Hs. rewrite He in Hs.
  destruct Hs as (tsA & c & tsB & Hts & Hk & Hne & I' & _).
  exists tsA, c, tsB. split_and!; [done..|].
  unfold erase in He.
  pose proof (findNode_spec _ s fc bc ts k fuel I) as Hf.
  destruct (findNode fuel k s) as [r|[]| |]; simpl in He; try done.
  destruct Hf as (tsA' & c' & tsB' & b & Hts' & Hk' & Hne' & Hb & ->).
  rewrite Hts in Hts'.
  destruct (first_tower_unique _ _ _ _ _ _ _ Hts' Hk Hk' Hne Hne') as (<- & <- & <-).
  rewrite <- Hb in He.
  destruct (unlink fuel (heap s) (cnodes c !! 0%nat)) as [h'| | |] eqn:Eu;
    simpl in He; try done.
  injection He as <-. simpl.
  assert (columns vdefault fc bc ts
          = (sentinel vdefault fc :: tsA) ++ c :: tsB ++ [sentinel vdefault bc])
    as Hcols.
  { unfold columns. rewrite Hts. list_eq. }
  pose proof (inv_nodup _ _ _ _ _ I) as Hnd. rewrite Hcols in Hnd.
  pose proof (inv_v _ _ _ _ _ I) as Hv. rewrite Hcols in Hv.
  rewrite Forall_app in Hv. destruct Hv as (_ & Hv2).
  apply Forall_cons in Hv2 as [Hvc _].
  intros a Ha.
  destruct (unlink_dom fuel (heap s) (cnodes c) h' (NoDup_column _ _ _ Hnd))
    with (a := a) as [Hlive Hout]; [|done|done|].
  { intros j x Hx.
    destruct (vchain_lookup _ _ _ _ Hvc Hx) as (n & Hn & _ & _ & _ & Hup). eauto. }
  apply G in Hlive. rewrite Hts, addrs_columns_insert, elem_of_app in Hlive.
  by destruct Hlive.
Qed.

Lemma new_no_garbage :
  no_garbage (heap (SkipList_new vdefault))
    (columns vdefault [0; 2]%nat [1; 3]%nat []).
Proof.
  intros a Ha. unfold SkipList_new in Ha. simpl in Ha.
  unfold columns, addrs. simpl.
  rewrite !elem_of_cons.
  destruct (decide (a = 0%nat)) as [->|N0]; [tauto|].
  destruct (decide (a = 1%nat)) as [->|N1]; [tauto|].
  destruct (decide (a = 2%nat)) as [->|N2]; [tauto|].
  destruct (decide (a = 3%nat)) as [->|N3]; [tauto|].
  rewrite !lookup_insert_ne, lookup_empty in Ha by done. by destruct Ha.
Qed.

(** Reachable states are well formed and hold no garbage. *)
Lemma reachable_exact s :
  reachable vdefault s ->
  exists fc bc ts,
    SL_Inv vdefault s fc bc ts
    /\ no_garbage (heap s) (columns vdefault fc bc ts).
Proof.
  induction 1 as [|fuel k v s b s' _ (fc & bc & ts & I & G) Hins
                  |fuel k s s' _ (fc & bc & ts & I & G) Her].
  - exists [0; 2]%nat, [1; 3]%nat, []. split; [apply new_inv|apply new_no_garbage].
  - pose proof (insert_exact s fc bc ts k v fuel I G) as Hs.
    rewrite Hins in Hs.
    destruct Hs as (_ & fc' & bc' & ts1 & ts2 & nodes' & _ & _ & _ & I' & G' & _).
    by exists fc', bc', (ts1 ++ mkColumn k v nodes' :: ts2).
  - destruct (erase_exact s fc bc ts k fuel s' I G Her)
      as (tsA & c & tsB & _ & _ & _ & I' & G').
    by exists fc, bc, (tsA ++ tsB).
Qed.

End Exact.

(** ** The flips of a key *)

Section Flips.

Lemma land_pow2_eqb a j : (N.land a (2 ^ j) =? 0) = negb (N.testbit a j).
Proof.
  destruct (N.testbit a j) eqn:E; simpl.
  - apply N.eqb_neq. intros H.
    assert (N.testbit (N.land a (2 ^ j)) j = true) as Hb.
    { by rewrite N.land_spec, E, N.pow2_bits_true. }
    rewrite H, N.bits_0 in Hb. done.
  - apply N.eqb_eq, N.bits_inj. intros n.
    rewrite N.land_spec, N.bits_0, N.pow2_bits_eqb.
    destruct (N.eqb_spec j n) as [<-|]; [by rewrite E|apply andb_false_r].
Qed.

Lemma bitToSelect_pow2 i :
  bitToSelect i = 2 ^ N.of_nat (i mod 8).
Proof.
  unfold bitToSelect, to_uint8, NUMBER_OF_BITS_IN_BYTE.
  rewrite N.shiftl_mul_pow2, N.mul_1_l. apply N.mod_small.
  apply N.pow_lt_mono_r; [lia|].
  pose proof (Nat.mod_upper_bound i 8). lia.
Qed.

Lemma coin_bit hash i :
  negb (N.land hash (bitToSelect i) =? 0)
  = N.testbit hash (N.of_nat (i mod 8)).
Proof. by rewrite bitToSelect_pow2, land_pow2_eqb, negb_involutive. Qed.

Lemma to_uint8_bits a n :
  N.testbit (to_uint8 a) n = (n <? 8) && N.testbit a n.
Proof.
  unfold to_uint8. destruct (N.ltb_spec n 8).
  - by rewrite N.mod_pow2_bits_low.
  - by rewrite N.mod_pow2_bits_high.
Qed.

Lemma intHash_high key n : 8 <= n -> N.testbit (intHash key) n = false.
Proof.
  intros Hn. unfold intHash, flipCoinByteSelector. cbv zeta.
  rewrite !N.lxor_spec, !to_uint8_bits.
  assert ((n <? 8) = false) as -> by (apply N.ltb_ge; lia). done.
Qed.

Lemma all_bits_255 a :
  (forall n, 8 <= n -> N.testbit a n = false) ->
  (forall j, (j < 8)%nat -> N.testbit a (N.of_nat j) = true) ->
  a = 255.
Proof.
  intros Hhigh Hlow. apply N.bits_inj. intros n.
  destruct (N.ltb_spec n 8) as [Hlt|Hge].
  - rewrite <- (N2Nat.id n). rewrite Hlow by lia.
    assert (N.to_nat n < 8)%nat as Hn by lia.
    destruct (N.to_nat n) as [|[|[|[|[|[|[|[|m]]]]]]]]; try reflexivity. lia.
  - rewrite Hhigh by done. symmetry.
    change 255 with (N.ones 8). by apply N.ones_spec_high.
Qed.

Lemma heads_of_255 key i : intHash key = 255 -> flipCoin key i = true.
Proof.
  intros H. unfold flipCoin. cbv zeta. rewrite coin_bit, H.
  change 255 with (N.ones 8). apply N.ones_spec_low.
  pose proof (Nat.mod_upper_bound i 8). lia.
Qed.

Lemma intHash_small key : key < 256 -> intHash key = key.
Proof.
  intros H.
  assert (forallb (fun n => intHash (N.of_nat n) =? N.of_nat n)
            (seq 0 256) = true) as Hall by (vm_compute; reflexivity).
  rewrite forallb_forall in Hall.
  specialize (Hall (N.to_nat key)). rewrite N2Nat.id in Hall.
  apply N.eqb_eq, Hall, in_seq. lia.
Qed.

(** X19. The flip number [i] of a key is bit [i mod 8] of the XOR of its
    four bytes, so the flips repeat with period 8; the XOR is below 256, all
    flips are heads exactly when it is [0xFF], and for a key below 256 it is
    the key itself. *)
Theorem flipCoin_is_hash_bit key i :
  flipCoin key i = N.testbit (intHash key) (N.of_nat (i mod 8))
  /\ flipCoin key (i + 8) = flipCoin key i
  /\ intHash key < 256
  /\ ((forall j, flipCoin key j = true) <-> intHash key = 255)
  /\ (key < 256 -> intHash key = key).
Proof.
  assert (forall j, flipCoin key j
                    = N.testbit (intHash key) (N.of_nat (j mod 8))) as Hbit.
  { intros j. unfold flipCoin. cbv zeta. apply coin_bit. }
  split_and!.
  - apply Hbit.
  - rewrite !Hbit. do 2 f_equal.
    rewrite <- (Nat.Div0.add_mod_idemp_r i 8 8). simpl. by rewrite Nat.add_0_r.
  - destruct (N.ltb_spec (intHash key) 256) as [|Hge]; [done|].
    assert (intHash key <> 0) as Hne by lia.
    pose proof (N.bit_log2 _ Hne) as Hb.
    rewrite intHash_high in Hb; [done|].
    change 8 with (N.log2 256). by apply N.log2_le_mono.
  - split.
    + intros Hall. apply all_bits_255; [apply intHash_high|].
      intros j Hj. rewrite <- (Hall j), Hbit. by rewrite Nat.mod_small.
    + intros H j. by apply heads_of_255.
  - apply intHash_small.
Qed.

End Flips.

(** ** The tower that [insert] builds *)

Section Towers.

Context {V : Type}.
Variable vdefault : V.
Implicit Types (s : @SkipList V) (c : @column V) (ts : list (@column V)).


(** Above the cap, with heads only, the loop of the counters never stops. *)
Lemma promotion_loop_heads k size :
  (forall i, flipCoin k i = true) ->
  forall fuel L flips,
    (layer_cap size < L)%nat -> promotion_loop fuel k size L flips = None.
Proof.
  intros Hheads. induction fuel as [|fuel IH]; intros L flips HL; [done|].
  rewrite promotion_loop_S, Hheads. cbv zeta.
  set (L1 := if (S flips =? L - 1)%nat then S L else L).
  assert (L <= L1)%nat as HL1.
  { unfold L1. destruct (Nat.eqb_spec (S flips) (L - 1)); lia. }
  destruct (Nat.eqb_spec L1 (layer_cap size)) as [Heq|_]; [lia|].
  apply IH. lia.
Qed.




(** X22. In a reachable state whose layer count is above the cap for one
    key more, as an [erase] can leave it, an [insert] of a key whose flips
    are all heads (the XOR of its bytes is [0xFF]) never returns: the cap
    test of the promotion loop is an equality that the growing layer count
    cannot meet any more. *)
Theorem insert_diverges_above_cap s k v :
  reachable vdefault s ->
  intHash k = 255 ->
  (layer_cap (S (size s)) < layers s)%nat ->
  forall fuel, insert vdefault fuel k v s = Timeout.
Proof.
  intros (fc & bc & ts & I & G)%reachable_exact Hhash Hcap fuel.
  pose proof (insert_exact vdefault s fc bc ts k v fuel I G) as Hs.
  pose proof (promotion_loop_heads k (S (size s))
                (fun i => heads_of_255 k i Hhash) fuel (layers s) 0%nat Hcap)
    as Hnone.
  unfold size, layers in Hnone.
  destruct (insert vdefault fuel k v s) as [[b s']|e| |]; try done.
  destruct Hs as (_ & fc' & bc' & ts1 & ts2 & nodes' & _ & _ & _ & _ & _ & Hl).
  congruence.
Qed.

End Towers.

(** ** The destructor and the count of live nodes *)

Section Destructor.

Context {V : Type}.
Variable vdefault : V.
Implicit Types (s : @SkipList V) (c : @column V) (ts : list (@column V)).

Lemma delete_row_spec :
  forall (l : list addr) (h : gmap nat (@Node V)) p fuel,
    NoDup l ->
    seg previous next h p l None ->
    (length l < fuel)%nat ->
    exists h',
      delete_row fuel h (hd_ptr l None) = Ok h'
      /\ forall x, h' !! x = if decide (x ∈ l) then None else h !! x.
Proof.
  induction l as [|a l IH]; intros h p fuel Hnd Hseg Hfuel.
  all: destruct fuel as [|fuel]; [simpl in Hfuel; lia|].
  - exists h. split; [done|]. intros x.
    rewrite decide_False; [done|apply not_elem_of_nil].
  - destruct Hseg as [(n & Hn & _ & Hnext) Hseg].
    apply NoDup_cons in Hnd as [Hnin Hnd]. simpl in Hfuel.
    destruct (IH (delete a h) (Some a) fuel Hnd) as (h' & Hrow & Hh'); [|lia|].
    { eapply seg_frame; [|done]. intros b Hb m Hm.
      exists m. rewrite lookup_delete_ne; [done|]. by intros ->. }
    exists h'. split.
    + simpl. rewrite (load_Some _ _ _ Hn). cbn [rbind]. by rewrite Hnext.
    + intros x. rewrite Hh'.
      destruct (decide (x = a)) as [->|Hne].
      * rewrite (decide_True (P := a ∈ a :: l)) by apply list_elem_of_here.
        destruct (decide (a ∈ l)); [done|apply lookup_delete_eq].
      * rewrite lookup_delete_ne by done.
        destruct (decide (x ∈ l)) as [Hin|Hout].
        -- rewrite decide_True; [done|by apply list_elem_of_further].
        -- rewrite decide_False; [done|]. rewrite not_elem_of_cons. done.
Qed.

Lemma delete_rows_step s fc bc ts rfuel i a h :
  SL_Inv vdefault s fc bc ts ->
  (length (columns vdefault fc bc ts) < rfuel)%nat ->
  fc !! i = Some a ->
  rows_gone s (columns vdefault fc bc ts) (S i) h ->
  exists n h1,
    load h (Some a) = Ok n
    /\ down n = match i with O => None | S j => fc !! j end
    /\ delete_row rfuel h (Some a) = Ok h1
    /\ rows_gone s (columns vdefault fc bc ts) i h1.
Proof.
  intros I Hr Ha [Hgone Hkept].
  set (cols := columns vdefault fc bc ts) in *.
  assert (i < SkipListLayers s)%nat as Hi.
  { apply lookup_lt_Some in Ha. by rewrite (inv_fc _ _ _ _ _ I) in Ha. }
  assert (forall b, b ∈ layer i cols -> h !! b = heap s !! b) as Hsame.
  { intros b Hb. apply Hkept. intros j Hj Hbj.
    pose proof (layer_disjoint _ _ _ _ (inv_nodup _ _ _ _ _ I) Hb Hbj). lia. }
  assert (layer i cols = a :: layer i (ts ++ [sentinel vdefault bc])) as Hl.
  { unfold cols, columns. rewrite layer_cons. simpl. by rewrite Ha. }
  destruct (fun Hc => inv_vlookup _ _ _ _ _ (sentinel vdefault fc) _ a I Hc Ha)
    as (n & Hn & _ & _ & Hdown & _); [by left|]. simpl in Hdown.
  assert (h !! a = Some n) as Hn'.
  { rewrite Hsame; [done|]. rewrite Hl. apply list_elem_of_here. }
  destruct (delete_row_spec (layer i cols) h None rfuel) as (h1 & Hrow & Hh1).
  { apply NoDup_layer, (inv_nodup _ _ _ _ _ I). }
  { eapply seg_frame; [|apply (inv_h _ _ _ _ _ I), Hi].
    intros b Hb m Hm. exists m. by rewrite Hsame. }
  { pose proof (layer_length_le i cols). lia. }
  rewrite Hl in Hrow. simpl in Hrow.
  exists n, h1. split_and!; [by apply load_Some|done|done|]. split.
  - intros x j Hj Hx. rewrite Hh1.
    destruct (decide (x ∈ layer i cols)) as [|Hout]; [done|].
    apply (Hgone x j); [|done].
    destruct (decide (j = i)) as [->|]; [done|lia].
  - intros x Hx. rewrite Hh1, decide_False by (apply Hx; lia).
    apply Hkept. intros j Hj. apply Hx. lia.
Qed.

Lemma delete_rows_spec s fc bc ts rfuel :
  SL_Inv vdefault s fc bc ts ->
  (length (columns vdefault fc bc ts) < rfuel)%nat ->
  forall i fuel a h,
    fc !! i = Some a -> (S i < fuel)%nat ->
    rows_gone s (columns vdefault fc bc ts) (S i) h ->
    exists h',
      delete_rows fuel rfuel h (Some a) = Ok h'
      /\ rows_gone s (columns vdefault fc bc ts) 0 h'.
Proof.
  intros I Hr. induction i as [|i IH]; intros fuel a h Ha Hfuel Hgone.
  all: destruct fuel as [|fuel]; [lia|].
  all: destruct (delete_rows_step s fc bc ts rfuel _ a h I Hr Ha Hgone)
         as (n & h1 & Hload & Hdown & Hrow & Hgone1).
  all: cbn [delete_rows]; rewrite Hload; cbn [rbind]; rewrite Hrow; cbn [rbind];
       rewrite Hdown.
  - exists h1. split; [|done]. destruct fuel; [lia|done].
  - destruct (lookup_lt_is_Some_2 fc i) as [b Hb].
    { apply lookup_lt_Some in Ha. lia. }
    rewrite Hb. apply IH; [done|lia|done].
Qed.

(** The destructor on a well-formed container: every node of the structure
    is deleted once, nothing else is touched. *)
Lemma SkipList_delete_spec s fc bc ts fuel :
  SL_Inv vdefault s fc bc ts ->
  (brk s <= fuel)%nat ->
  exists h',
    SkipList_delete fuel s
    = Ok (mkSkipList h' (brk s) (SkipListSize s) (SkipListLayers s)
            None None None None)
    /\ (forall x, x ∈ addrs (columns vdefault fc bc ts) -> h' !! x = None)
    /\ (forall x, x ∉ addrs (columns vdefault fc bc ts) ->
          h' !! x = heap s !! x).
Proof.
  intros I Hfuel.
  pose proof (inv_fuel _ _ _ _ _ I) as Hbrk.
  pose proof (inv_layers _ _ _ _ _ I) as HL.
  destruct (inv_top _ _ _ _ _ I) as (tf & tb & Htf & _ & Htop & _).
  destruct (delete_rows_spec s fc bc ts fuel I) with
    (i := (SkipListLayers s - 1)%nat) (fuel := fuel) (a := tf) (h := heap s)
    as (h' & Hdel & Hgone & Hkept); [|done|lia| |].
  { unfold columns. simpl. rewrite length_app. simpl. lia. }
  { split; [|done]. intros x j Hj Hx.
    rewrite layer_short in Hx; [by apply elem_of_nil in Hx|].
    apply Forall_forall. intros c Hc.
    pose proof (inv_col_length _ _ _ _ _ _ I Hc). lia. }
  exists h'. unfold SkipList_delete. rewrite Htop, Hdel. split; [done|]. split.
  - intros x (c & Hc & Hx)%elem_of_addrs.
    apply list_elem_of_lookup in Hx as [j Hj].
    apply (Hgone x j); [lia|]. apply elem_of_layer. eauto.
  - intros x Hx. apply Hkept. intros j _ Hin. by apply Hx, (layer_addrs j).
Qed.

(** In a state without garbage the nodes of the structure are the live
    nodes. *)
Lemma live_nodes_addrs s fc bc ts :
  SL_Inv vdefault s fc bc ts ->
  no_garbage (heap s) (columns vdefault fc bc ts) ->
  live_nodes s = length (addrs (columns vdefault fc bc ts)).
Proof.
  intros I G. unfold live_nodes.
  rewrite <- size_dom, <- (size_list_to_set (C := gset nat));
    [|apply (inv_nodup _ _ _ _ _ I)].
  f_equal. apply set_eq. intros x.
  rewrite elem_of_dom, elem_of_list_to_set. split; [apply G|].
  intros (c & Hc & Hx)%elem_of_addrs.
  pose proof (inv_v _ _ _ _ _ I) as Hv. rewrite Forall_forall in Hv.
  destruct (Hv c Hc) as [_ Hp]. destruct (Hp x Hx) as (n & -> & _). done.
Qed.

Lemma live_nodes_towers s fc bc ts :
  SL_Inv vdefault s fc bc ts ->
  no_garbage (heap s) (columns vdefault fc bc ts) ->
  live_nodes s = (2 * SkipListLayers s + length (addrs ts))%nat.
Proof.
  intros I G. rewrite (live_nodes_addrs _ _ _ _ I G), addrs_columns.
  rewrite !length_app, (inv_fc _ _ _ _ _ I), (inv_bc _ _ _ _ _ I). lia.
Qed.

(** X23. The destructor, run in a reachable state with fuel for one walk
    over the nodes, returns without touching a deleted node, leaves no node
    allocated and sets the four sentinel pointers to null. *)
Theorem destructor_frees_all s fuel :
  reachable vdefault s ->
  (brk s <= fuel)%nat ->
  exists s',
    SkipList_delete fuel s = Ok s'
    /\ heap s' = ∅
    /\ front s' = None /\ back s' = None
    /\ topFront s' = None /\ topBack s' = None.
Proof.
  intros (fc & bc & ts & I & G)%(reachable_exact vdefault) Hfuel.
  destruct (SkipList_delete_spec s fc bc ts fuel I Hfuel) as (h' & -> & Hgone & Hkept).
  eexists. split; [done|]. simpl. split_and!; try done.
  apply map_empty. intros x.
  destruct (decide (x ∈ addrs (columns vdefault fc bc ts))) as [Hin|Hout].
  - by apply Hgone.
  - rewrite Hkept by done.
    destruct (heap s !! x) eqn:E; [|done]. destruct Hout. apply G. by rewrite E.
Qed.


(** X25. In a reachable state an [erase] that returns has deleted as many
    nodes as the height of the key was, and allocated none. *)
Theorem erase_frees_tower s fuel k s' fuel' h :
  reachable vdefault s ->
  erase fuel k s = Ok s' ->
  height fuel' k s = Ok h ->
  live_nodes s = (live_nodes s' + h)%nat /\ brk s' = brk s.
Proof.
  intros (fc & bc & ts & I & G)%(reachable_exact vdefault) Her Hh.
  pose proof (erase_spec vdefault s fc bc ts k fuel I) as Hs'. rewrite Her in Hs'.
  destruct Hs' as (_ & _ & _ & _ & _ & _ & _ & _ & HL & Hbrk).
  destruct (erase_exact vdefault s fc bc ts k fuel s' I G Her)
    as (tsA & c & tsB & Hts & Hk & Hne & I' & G').
  pose proof (height_spec vdefault s fc bc ts k fuel' I) as Hs. rewrite Hh in Hs.
  destruct Hs as (tsA' & c' & tsB' & Hts' & Hk' & Hne' & ->).
  rewrite Hts in Hts'.
  destruct (first_tower_unique _ _ _ _ _ _ _ Hts' Hk Hk' Hne Hne') as (_ & <- & _).
  split; [|done].
  rewrite (live_nodes_towers _ _ _ _ I' G'), (live_nodes_towers _ _ _ _ I G).
  rewrite Hts, !addrs_app, addrs_cons, !length_app, HL. lia.
Qed.

End Destructor.

(** ** An insert undone by an erase *)

Section RoundTrip.

Context {V : Type}.
Variable vdefault : V.
Implicit Types (s : @SkipList V) (c : @column V) (ts : list (@column V)).


End RoundTrip.

(** ** The flips of a string key *)

(** X27. The flip number [i] of a string key is bit [i mod 8] of the XOR of
    its characters, so the flips repeat with period 8 and do not depend on
    the order of the characters. *)
Theorem flipCoinString_is_hash_bit key key' i :
  flipCoinString key i = N.testbit (stringHash key) (N.of_nat (i mod 8))
  /\ flipCoinString key (i + 8) = flipCoinString key i
  /\ (String.list_ascii_of_string key ≡ₚ String.list_ascii_of_string key' ->
      flipCoinString key i = flipCoinString key' i).
Proof.
  assert (forall k j, flipCoinString k j
                      = N.testbit (stringHash k) (N.of_nat (j mod 8))) as Hbit.
  { intros k j. unfold flipCoinString. cbv zeta. apply coin_bit. }
  split_and!.
  - apply Hbit.
  - rewrite !Hbit. do 2 f_equal.
    rewrite <- (Nat.Div0.add_mod_idemp_r i 8 8). simpl. by rewrite Nat.add_0_r.
  - intros Hp. rewrite !Hbit, !stringHash_xorWith. f_equal.
    by apply xorWith_perm.
Qed.

(** ** Termination below the cap, and the bytes of a key *)

Section BelowCap.

Context {V : Type}.
Variable vdefault : V.


End BelowCap.

Lemma byte_bits key o n :
  o + 8 <= 32 ->
  N.testbit
    (to_uint8 (N.shiftr (N.land key (to_uint32 (N.shiftl 255 o))) o)) n
  = N.testbit ((key / 2 ^ o) mod 2 ^ 8) n.
Proof.
  intros Ho. rewrite to_uint8_bits. unfold to_uint32.
  destruct (N.ltb_spec n 8) as [Hn|Hn]; simpl.
  - rewrite N.mod_pow2_bits_low by done.
    rewrite N.shiftr_spec', N.land_spec, <- N.shiftr_div_pow2, N.shiftr_spec'.
    rewrite N.mod_pow2_bits_low by lia.
    rewrite N.shiftl_spec_high' by lia.
    replace (n + o - o) with n by lia.
    change 255 with (N.ones 8). rewrite N.ones_spec_low by done.
    apply andb_true_r.
  - by rewrite N.mod_pow2_bits_high.
Qed.

(** X29. [flipCoinByteSelector] selects a byte of the key: [Byte0] is the
    most significant of the four bytes and [Byte3] the least significant. *)
Theorem flipCoinByteSelector_is_byte key b :
  flipCoinByteSelector key b = (key / 2 ^ byteOffset b) mod 2 ^ 8.
Proof.
  unfold flipCoinByteSelector. cbv zeta. apply N.bits_inj. intros n.
  apply byte_bits. destruct b; simpl; lia.
Qed.

(** ** Printing, towers and the destructor at concrete inputs *)

Lemma printSkipList_lines_witness :
  reachable 0 (state_after scenario_ops)
  /\ (brk (state_after scenario_ops) <= 200)%nat
  /\ exists lines,
       printSkipList 200 (state_after scenario_ops) = Ok lines
       /\ length lines = layers (state_after scenario_ops)
       /\ head lines = Some [kdefault; kdefault]
       /\ last lines
          = Some (kdefault :: stored_keys (state_after scenario_ops) ++ [kdefault])
       /\ forall j a b,
            lines !! j = Some a -> lines !! S j = Some b -> sublist a b.
Proof.
  split; [exact scenario_reachable|]. split; [exact scenario_fuel|].
  exact (printSkipList_lines 0 (state_after scenario_ops) 200
           scenario_reachable scenario_fuel).
Defined.

Lemma flipCoin_is_hash_bit_witness : 5 < 256 /\ intHash 5 = 5.
Proof.
  split; [reflexivity|].
  exact (proj2 (proj2 (proj2 (proj2 (flipCoin_is_hash_bit 5 0)))) eq_refl).
Defined.



Lemma above_cap_reachable : reachable 0 (state_after above_cap_ops).
Proof. apply (state_after_reachable above_cap_ops). vm_compute. reflexivity. Qed.

Lemma insert_diverges_above_cap_witness :
  reachable 0 (state_after above_cap_ops)
  /\ intHash 255 = 255
  /\ (layer_cap (S (size (state_after above_cap_ops)))
      < layers (state_after above_cap_ops))%nat
  /\ forall fuel, insert 0 fuel 255 255 (state_after above_cap_ops) = Timeout.
Proof.
  assert (intHash 255 = 255) as Hh by reflexivity.
  assert (layer_cap (S (size (state_after above_cap_ops)))
          < layers (state_after above_cap_ops))%nat as Hc by (vm_compute; lia).
  split; [exact above_cap_reachable|]. split; [exact Hh|]. split; [exact Hc|].
  exact (insert_diverges_above_cap 0 (state_after above_cap_ops) 255 255
           above_cap_reachable Hh Hc).
Defined.

Lemma destructor_frees_all_witness :
  reachable 0 (state_after scenario_ops)
  /\ (brk (state_after scenario_ops) <= 200)%nat
  /\ exists s',
       SkipList_delete 200 (state_after scenario_ops) = Ok s'
       /\ heap s' = ∅
       /\ front s' = None /\ back s' = None
       /\ topFront s' = None /\ topBack s' = None.
Proof.
  split; [exact scenario_reachable|]. split; [exact scenario_fuel|].
  exact (destructor_frees_all 0 (state_after scenario_ops) 200
           scenario_reachable scenario_fuel).
Defined.


Lemma scenario_erase_3 :
  erase 200 3 (state_after scenario_ops) = Ok (state_after scenario_erase_ops).
Proof. vm_compute. reflexivity. Qed.


Lemma erase_frees_tower_witness :
  reachable 0 (state_after scenario_ops)
  /\ erase 200 3 (state_after scenario_ops) = Ok (state_after scenario_erase_ops)
  /\ height 200 3 (state_after scenario_ops) = Ok 3%nat
  /\ live_nodes (state_after scenario_ops)
     = (live_nodes (state_after scenario_erase_ops) + 3)%nat
  /\ brk (state_after scenario_erase_ops) = brk (state_after scenario_ops).
Proof.
  assert (height 200 3 (state_after scenario_ops) = Ok 3%nat) as Hh
    by (vm_compute; reflexivity).
  split; [exact scenario_reachable|]. split; [exact scenario_erase_3|].
  split; [exact Hh|].
  exact (erase_frees_tower 0 (state_after scenario_ops) 200 3
           (state_after scenario_erase_ops) 200 3%nat
           scenario_reachable scenario_erase_3 Hh).
Defined.


Lemma flipCoinString_is_hash_bit_witness :
  String.list_ascii_of_string
    (String.String "a"%char (String.String "b"%char String.EmptyString))
  ≡ₚ String.list_ascii_of_string
       (String.String "b"%char (String.String "a"%char String.EmptyString))
  /\ flipCoinString
       (String.String "a"%char (String.String "b"%char String.EmptyString)) 0
     = flipCoinString
         (String.String "b"%char (String.String "a"%char String.EmptyString)) 0.
Proof.
  assert (String.list_ascii_of_string
            (String.String "a"%char (String.String "b"%char String.EmptyString))
          ≡ₚ String.list_ascii_of_string
               (String.String "b"%char (String.String "a"%char String.EmptyString)))
    as Hp by (simpl; apply perm_swap).
  split; [exact Hp|].
  exact (proj2 (proj2 (flipCoinString_is_hash_bit _ _ 0%nat)) Hp).
Defined.


(** ** Above the cap, and below [K{}] *)

(** C7. After the inserts of 1 to 16 and of 255 and the erases of 255 and of
    16 the container holds 15 keys in 16 layers, above the cap of 13 for 16
    keys; the flips of the key 255 are all heads, and its insert never
    leaves the promotion loop: the layer count, already past 13, grows with
    every promotion and the cap tests, which are equalities, are never
    met. *)
Theorem C7_cap_test_never_met :
  reachable 0 (state_after above_cap_ops)
  /\ size (state_after above_cap_ops) = 15%nat
  /\ layers (state_after above_cap_ops) = 16%nat
  /\ layer_cap 16 = 13%nat
  /\ (forall i, flipCoin 255 i = true)
  /\ forall fuel,
       insert 0 fuel 255 255 (state_after above_cap_ops) = Timeout.
Proof.
  assert (reachable 0 (state_after above_cap_ops)) as Hr.
  { apply (state_after_reachable above_cap_ops). vm_compute. reflexivity. }
  assert (forall i, flipCoin 255 i = true) as Hheads.
  { intros i. by apply heads_of_255. }
  split_and!; [done|vm_compute; reflexivity..|done|].
  intros fuel.
  destruct (reachable_exact 0 _ Hr) as (fc & bc & ts & I & G).
  pose proof (insert_exact 0 _ fc bc ts 255 255 fuel I G) as Hs.
  assert (promotion_loop fuel 255
            (S (SkipListSize (state_after above_cap_ops)))
            (SkipListLayers (state_after above_cap_ops)) 0 = None) as Hnone.
  { apply promotion_loop_heads; [done|]. vm_compute. lia. }
  destruct (insert 0 fuel 255 255 (state_after above_cap_ops))
    as [[b s']|e| |]; try done.
  destruct Hs as (_ & fc' & bc' & ts1 & ts2 & nodes' & _ & _ & _ & _ & _ & Hl).
  congruence.
Qed.

(** C3. With [int] keys, [insert(-5, 1)] and then [insert(0, 2)] on a new
    container: the keys are distinct, the first call returns [true], and the
    second returns [false] and changes nothing, because the second loop
    takes the front sentinel, whose key is [K{} = 0], for a node of the key
    0; [size()] is 1 and [allKeysInOrder()] holds -5 alone. *)
Theorem C3_insert_below_default_key :
  pattern_of_int (-5) <> pattern_of_int 0
  /\ insert_int 0 200 (pattern_of_int (-5)) 1 (SkipList_new 0)
     = Ok (true, minus_five_state)
  /\ insert_int 0 200 (pattern_of_int 0) 2 minus_five_state
     = Ok (false, minus_five_state)
  /\ size minus_five_state = 1%nat
  /\ allKeysInOrder 200 minus_five_state = Ok [pattern_of_int (-5)]
  /\ int_of_pattern (pattern_of_int (-5)) = (-5)%Z.
Proof. split_and!; [discriminate|vm_compute; reflexivity..]. Qed.
